(** * land-grab-demo: hex-grid picking, pointer interaction and cell-state store

  A shallow embedding of the JavaScript sources

  - [core/domain/cell.js]            (module [Domain])
  - [core/events/index.js]           (module [Events])
  - [api/landApi.js]                 (module [LandApi])
  - [interactions/pointerEvents.js]  (module [Interactions])
  - [platform/web/input.js]          (module [WebInput])
  - [core/h3/index.js]               (module [H3])
  - [viewer/HexGrid.jsx]             (modules [HexGrid] and [HexCell])
  - [viewer/GlobeScene.jsx]          (module [SceneControls])

  followed by the properties of the specification that concern them and
  by further properties of the same sources.

  Conventions of the embedding.

  - A JavaScript [string | null] is an [option string]; JavaScript
    truthiness is written out ([Js.truthy]): [null] and the empty string
    are falsy, every other string is truthy.
  - A JavaScript number is a real number ([R]): finite values with exact
    arithmetic.  [Math.sin], [Math.cos], [Math.acos], [Math.atan2],
    [Math.ceil], [Math.max], [Math.min] are the mathematical functions.
    Module [Double] has the two conversions of viewer/HexGrid.jsx once
    more on IEEE 754 binary64 numbers, which is what JavaScript numbers
    are, for the property that is about their rounding.
  - Module-level mutable variables of the three stateful modules are the
    fields of one record [World]; functions that read or write them are
    computations in a state-and-exception monad [M].  Reading a property
    of [undefined] raises [TypeError].
  - Callbacks (store subscribers, event listeners) are opaque identifiers.
    Invoking them is recorded in the [trace] of the world; they are
    observers and do not call back into the modelled modules.
  - [console.log] output is not part of the modelled state. *)

From Stdlib Require Import Reals Lra Lia ZArith Ascii String List.
From Stdlib Require Floats.
From stdpp Require Import gmap strings list.

(** ** JavaScript values *)

Module Js.

(** [!!s] for a string: only the empty string is falsy. *)
Definition truthy_str (s : string) : bool :=
  match s with
  | EmptyString => false
  | String _ _ => true
  end.

(** [!!x] for [x : string | null]. *)
Definition truthy (x : option string) : bool :=
  match x with
  | Some s => truthy_str s
  | None => false
  end.

(** [a || b] on optional values whose present values are all truthy. *)
Definition or_else {A : Type} (a : option A) (b : A) : A :=
  match a with
  | Some v => v
  | None => b
  end.

End Js.

(** ** three.js: [Vector3] and [MathUtils.clamp] *)

Module THREE.

Record Vector3 : Type := mkVector3 { x : R; y : R; z : R }.

Definition length (v : Vector3) : R :=
  sqrt (x v * x v + y v * y v + z v * z v).

Definition multiplyScalar (v : Vector3) (s : R) : Vector3 :=
  mkVector3 (x v * s) (y v * s) (z v * s).

Definition divideScalar (v : Vector3) (s : R) : Vector3 :=
  multiplyScalar v (1 / s).

(** [normalize() { return this.divideScalar(this.length() || 1); }] *)
Definition normalize (v : Vector3) : Vector3 :=
  divideScalar v (if Req_dec_T (length v) 0 then 1%R else length v).

(** [clamp(value, min, max) = Math.max(min, Math.min(max, value))],
    used on the integer-valued result of [Math.ceil]. *)
Definition clamp (value min max : Z) : Z :=
  Z.max min (Z.min max value).

End THREE.

(** ** core/domain/cell.js *)

Module Domain.

Inductive CellState : Type :=
| DEFAULT
| HOVERED
| SELECTED
| OWNED
| FOREIGN.

#[global] Instance CellState_eq_dec : EqDecision CellState.
Proof. solve_decision. Defined.

Record Cell : Type := mkCell {
  id : string;
  state : CellState;
  ownerId : option string;
  structures : list string;
  createdAt : Z;
}.

(** The [options] argument of [createCell]: every property may be absent. *)
Record CellOptions : Type := mkOptions {
  opt_state : option CellState;
  opt_ownerId : option string;
  opt_structures : option (list string);
  opt_createdAt : option Z;
}.

(** [options = {}] *)
Definition no_options : CellOptions := mkOptions None None None None.

(** [createCell(id, options = {})]; [now] is the value of [Date.now()]. *)
Definition createCell (id : string) (options : CellOptions) (now : Z) : Cell :=
  {| id := id;
     state := Js.or_else (opt_state options) DEFAULT;
     ownerId := if Js.truthy (opt_ownerId options) then opt_ownerId options else None;
     structures := Js.or_else (opt_structures options) [];
     createdAt :=
       match opt_createdAt options with
       | Some t => if Z.eqb t 0 then now else t
       | None => now
       end |}.

(** [{ ...cell, state: s }] *)
Definition with_state (cell : Cell) (s : CellState) : Cell :=
  {| id := id cell;
     state := s;
     ownerId := ownerId cell;
     structures := structures cell;
     createdAt := createdAt cell |}.

Definition isCellSelectable (_cell : Cell) : bool := true.

Definition isCellOwned (cell : Cell) : bool :=
  match ownerId cell with
  | Some _ => true
  | None => false
  end.

End Domain.

(** ** core/events/index.js *)

Module Events.

(** Values that occur as properties of event payloads and contexts. *)
Inductive Value : Type :=
| VUndefined
| VNull
| VString (s : string)
| VVector3 (v : THREE.Vector3)
| VObject (handle : nat).

Definition of_id (x : option string) : Value :=
  match x with
  | Some s => VString s
  | None => VNull
  end.

(** A plain object used as a property bag. *)
Abbreviation Object := (gmap string Value).

(** [obj.key]: an absent property reads as [undefined]. *)
Definition prop (obj : Object) (key : string) : Value :=
  default VUndefined (obj !! key).

(** [{ key: v, ...rest }]: properties of [rest] win over [key]. *)
Definition spread_after (key : string) (v : Value) (rest : Object) : Object :=
  rest ∪ {[ key := v ]}.

Module EventTypes.
Definition CELL_SELECTED : string := "CELL_SELECTED".
Definition CELL_HOVERED : string := "CELL_HOVERED".
Definition CELL_UNHOVERED : string := "CELL_UNHOVERED".
Definition GLOBE_ROTATED : string := "GLOBE_ROTATED".
Definition GLOBE_ZOOMED : string := "GLOBE_ZOOMED".
Definition SELECTION_CLEARED : string := "SELECTION_CLEARED".
End EventTypes.

Record Event : Type := mkEvent {
  type : string;
  payload : Object;
  timestamp : Z;
}.

(** [createEvent(type, payload = {})]; [now] is [Date.now()]. *)
Definition createEvent (type : string) (payload : Object) (now : Z) : Event :=
  mkEvent type payload now.

Definition cellSelected (cellId : Value) (metadata : Object) (now : Z) : Event :=
  createEvent EventTypes.CELL_SELECTED (spread_after "cellId" cellId metadata) now.

Definition cellHovered (cellId : Value) (now : Z) : Event :=
  createEvent EventTypes.CELL_HOVERED {[ "cellId" := cellId ]} now.

Definition cellUnhovered (cellId : Value) (now : Z) : Event :=
  createEvent EventTypes.CELL_UNHOVERED {[ "cellId" := cellId ]} now.

Definition selectionCleared (now : Z) : Event :=
  createEvent EventTypes.SELECTION_CLEARED ∅ now.

End Events.

(** ** Module state and the monad of effects *)

Module Runtime.

(** The shape of [state] in api/landApi.js, and of the object returned by
    [getState()].  The map holds the records by value; module [Objects]
    below refines [getState] to object identities. *)
Record State : Type := mkState {
  selectedCellId : option string;
  hoveredCellId : option string;
  cells : gmap string Domain.Cell;
}.

Definition Callback : Type := nat.

(** Observable effects, in the order in which they happen. *)
Inductive Effect : Type :=
| Notify (callbacks : list Callback) (snapshot : State)
    (* one run of [notifySubscribers]: every callback receives [snapshot] *)
| Emit (event : Events.Event) (callbacks : list Callback).
    (* one run of [emitEvent]: every listener of the type receives [event] *)

Record World : Type := mkWorld {
  state : State;                               (* api/landApi.js *)
  subscribers : list Callback;                 (* api/landApi.js *)
  eventListeners : gmap string (list Callback);(* interactions/pointerEvents.js *)
  currentHoveredCellId : option string;        (* platform/web/input.js *)
  clock : Z;                                   (* what [Date.now()] returns *)
  trace : list Effect;
}.

Definition set_state (f : State → State) (w : World) : World :=
  mkWorld (f (state w)) (subscribers w) (eventListeners w)
          (currentHoveredCellId w) (clock w) (trace w).

Definition set_subscribers (f : list Callback → list Callback) (w : World) : World :=
  mkWorld (state w) (f (subscribers w)) (eventListeners w)
          (currentHoveredCellId w) (clock w) (trace w).

Definition set_eventListeners
    (f : gmap string (list Callback) → gmap string (list Callback)) (w : World) : World :=
  mkWorld (state w) (subscribers w) (f (eventListeners w))
          (currentHoveredCellId w) (clock w) (trace w).

Definition set_currentHoveredCellId (x : option string) (w : World) : World :=
  mkWorld (state w) (subscribers w) (eventListeners w) x (clock w) (trace w).

Definition set_clock (t : Z) (w : World) : World :=
  mkWorld (state w) (subscribers w) (eventListeners w)
          (currentHoveredCellId w) t (trace w).

Definition log (e : Effect) (w : World) : World :=
  mkWorld (state w) (subscribers w) (eventListeners w)
          (currentHoveredCellId w) (clock w) (trace w ++ [e]).

Inductive Exn : Type :=
| TypeError (reading : string).

(** Computations: run from a world, either throw or return a value and
    the next world. *)
Definition M (A : Type) : Type := World → Exn + A * World.

Definition ret {A : Type} (a : A) : M A :=
  λ w, inr (a, w).

Definition bind {A B : Type} (m : M A) (k : A → M B) : M B :=
  λ w, match m w with
       | inl e => inl e
       | inr (a, w') => k a w'
       end.

Definition throw {A : Type} (e : Exn) : M A :=
  λ _, inl e.

Definition gets {A : Type} (f : World → A) : M A :=
  λ w, inr (f w, w).

Definition modify (f : World → World) : M unit :=
  λ w, inr (tt, f w).

(** [if (b) { m }] *)
Definition when (b : bool) (m : M unit) : M unit :=
  if b then m else ret tt.

Definition Date_now : M Z := gets clock.

(** The world a computation ends in, if it does not throw. *)
Definition exec {A : Type} (m : M A) (w : World) : option World :=
  match m w with
  | inl _ => None
  | inr (_, w') => Some w'
  end.

(** The events passed to [emitEvent], oldest first. *)
Definition emitted (tr : list Effect) : list Events.Event :=
  omap (λ e, match e with Emit ev _ => Some ev | Notify _ _ => None end) tr.

(** The snapshots passed to the subscribers, one per run of
    [notifySubscribers], oldest first. *)
Definition notified (tr : list Effect) : list State :=
  omap (λ e, match e with Notify _ s => Some s | Emit _ _ => None end) tr.

End Runtime.

Declare Scope js_scope.
Delimit Scope js_scope with js.
Notation "'let*' x := m 'in' k" :=
  (Runtime.bind m (λ x, k))
  (at level 10, x name, m at level 100, k at level 200) : js_scope.
Notation "m ;;; k" :=
  (Runtime.bind m (λ _, k))
  (at level 100, k at level 200, right associativity) : js_scope.

(** ** api/landApi.js *)

Module LandApi.
Import Runtime.
Local Open Scope js_scope.

(** What the three mutators return. *)
Inductive Result : Type :=
| SelectResult (success : bool) (cellId : string) (cell : option Domain.Cell)
| ClearResult (success : bool)
| HoverResult (success : bool) (cellId : option string).

Definition success (r : Result) : bool :=
  match r with
  | SelectResult s _ _ => s
  | ClearResult s => s
  | HoverResult s _ => s
  end.

(** The initial value of [state]. *)
Definition initial_state : State := mkState None None ∅.

(** [state.cells.has(k)] *)
Definition cells_has (k : string) : M bool :=
  gets (λ w, bool_decide (is_Some (cells (state w) !! k))).

(** [state.cells.get(k)], [undefined] when absent *)
Definition cells_get (k : string) : M (option Domain.Cell) :=
  gets (λ w, cells (state w) !! k).

(** [state.cells.set(k, c)] *)
Definition cells_set (k : string) (c : Domain.Cell) : M unit :=
  modify (set_state (λ s, mkState (selectedCellId s) (hoveredCellId s) (<[k := c]> (cells s)))).

(** [c.state] *)
Definition read_state (c : option Domain.Cell) : M Domain.CellState :=
  match c with
  | Some c => ret (Domain.state c)
  | None => throw (TypeError "state")
  end.

(** [{ ...c, state: s }].  Spreading [undefined] yields an object without
    [id]; no such object is a cell record, so the model stops there. *)
Definition spread_with_state (c : option Domain.Cell) (s : Domain.CellState) : M Domain.Cell :=
  match c with
  | Some c => ret (Domain.with_state c s)
  | None => throw (TypeError "id")
  end.

(** [subscribe(callback)]: [subscribers.add(callback)] on a [Set]. *)
Definition subscribe (callback : Callback) : M unit :=
  modify (set_subscribers (λ l, if bool_decide (callback ∈ l) then l else l ++ [callback])).

(** The function [subscribe] returns: [subscribers.delete(callback)]. *)
Definition unsubscribe (callback : Callback) : M unit :=
  modify (set_subscribers (filter (λ c, c ≠ callback))).

Definition getState : M State :=
  let* s := gets state in
  ret (mkState (selectedCellId s) (hoveredCellId s) (cells s)).

Definition notifySubscribers : M unit :=
  let* snapshot := getState in
  let* callbacks := gets subscribers in
  modify (log (Notify callbacks snapshot)).

Definition selectCell (cellId : string) : M Result :=
  (* Ensure cell exists in our local cache *)
  let* has := cells_has cellId in
  when (negb has)
    (let* now := Date_now in
     cells_set cellId (Domain.createCell cellId Domain.no_options now)) ;;;
  (* Update previous selection state *)
  let* selected := gets (λ w, selectedCellId (state w)) in
  match selected with
  | Some prev =>
      let* has_prev := cells_has prev in
      when (Js.truthy_str prev && has_prev)
        (let* prevCell := cells_get prev in
         let* demoted := spread_with_state prevCell Domain.DEFAULT in
         cells_set prev demoted)
  | None => ret tt
  end ;;;
  (* Update new selection *)
  modify (set_state (λ s, mkState (Some cellId) (hoveredCellId s) (cells s))) ;;;
  let* cell := cells_get cellId in
  let* promoted := spread_with_state cell Domain.SELECTED in
  cells_set cellId promoted ;;;
  notifySubscribers ;;;
  let* cell' := cells_get cellId in
  ret (SelectResult true cellId cell').

Definition clearSelection : M Result :=
  let* selected := gets (λ w, selectedCellId (state w)) in
  match selected with
  | Some sel =>
      let* has_sel := cells_has sel in
      when (Js.truthy_str sel && has_sel)
        (let* cell := cells_get sel in
         let* demoted := spread_with_state cell Domain.DEFAULT in
         cells_set sel demoted)
  | None => ret tt
  end ;;;
  modify (set_state (λ s, mkState None (hoveredCellId s) (cells s))) ;;;
  notifySubscribers ;;;
  ret (ClearResult true).

Definition setHoveredCell (cellId : option string) : M Result :=
  let* hovered := gets (λ w, hoveredCellId (state w)) in
  (* Avoid unnecessary updates *)
  if bool_decide (hovered = cellId) then ret (HoverResult true cellId) else
  (* Clear previous hover state *)
  match hovered with
  | Some prev =>
      let* has_prev := cells_has prev in
      when (Js.truthy_str prev && has_prev)
        (let* prevCell := cells_get prev in
         let* st := read_state prevCell in
         (* Don't override selected state *)
         when (bool_decide (st = Domain.HOVERED))
           (let* demoted := spread_with_state prevCell Domain.DEFAULT in
            cells_set prev demoted))
  | None => ret tt
  end ;;;
  modify (set_state (λ s, mkState (selectedCellId s) cellId (cells s))) ;;;
  (* Set new hover state *)
  match cellId with
  | Some c =>
      when (Js.truthy_str c)
        (let* has := cells_has c in
         when (negb has)
           (let* now := Date_now in
            cells_set c (Domain.createCell c Domain.no_options now)) ;;;
         let* cell := cells_get c in
         let* st := read_state cell in
         (* Don't override selected state with hover *)
         when (negb (bool_decide (st = Domain.SELECTED)))
           (let* hov := spread_with_state cell Domain.HOVERED in
            cells_set c hov))
  | None => ret tt
  end ;;;
  notifySubscribers ;;;
  ret (HoverResult true cellId).

(** [getCell(cellId)]: [state.cells.get(cellId) || null] *)
Definition getCell (cellId : string) : M (option Domain.Cell) :=
  cells_get cellId.

Definition getSelectedCellId : M (option string) :=
  gets (λ w, selectedCellId (state w)).

Definition getHoveredCellId : M (option string) :=
  gets (λ w, hoveredCellId (state w)).

(** A call of one of the three mutators. *)
Inductive Call : Type :=
| CallSelect (cellId : string)
| CallClear
| CallHover (cellId : option string).

Definition run (c : Call) : M Result :=
  match c with
  | CallSelect cellId => selectCell cellId
  | CallClear => clearSelection
  | CallHover cellId => setHoveredCell cellId
  end.

(** The worlds the store can be in: [state] starts as [initial_state] and
    changes only through the three mutators; everything else in the world
    (subscribers, listeners, the clock, the trace) may change in between. *)
Inductive reachable : World → Prop :=
| reachable_init w :
    state w = initial_state → reachable w
| reachable_call w c r w' :
    reachable w → run c w = inr (r, w') → reachable w'
| reachable_env w w' :
    reachable w → state w' = state w → reachable w'.

End LandApi.

(** ** interactions/pointerEvents.js *)

Module Interactions.
Import Runtime.
Local Open Scope js_scope.

(** [addEventListener(eventType, callback)] *)
Definition addEventListener (eventType : string) (callback : Callback) : M unit :=
  modify (set_eventListeners (λ m,
    let l := default [] (m !! eventType) in
    <[eventType := if bool_decide (callback ∈ l) then l else l ++ [callback]]> m)).

(** The function [addEventListener] returns:
    [eventListeners.get(eventType)?.delete(callback)] *)
Definition removeEventListener (eventType : string) (callback : Callback) : M unit :=
  modify (set_eventListeners (λ m,
    match m !! eventType with
    | Some l => <[eventType := filter (λ c, c ≠ callback) l]> m
    | None => m
    end)).

Definition emitEvent (event : Events.Event) : M unit :=
  let* listeners := gets (λ w, eventListeners w !! Events.type event) in
  modify (log (Emit event (default [] listeners))).

(** [handleCellSelect(cellId, metadata = {})] *)
Definition handleCellSelect (cellId : string) (metadata : Events.Object) : M unit :=
  (* Emit domain event *)
  let* now := Date_now in
  emitEvent (Events.cellSelected (Events.VString cellId) metadata now) ;;;
  (* Call API to update state *)
  LandApi.selectCell cellId ;;;
  ret tt.

Definition handleCellHoverEnter (cellId : string) : M unit :=
  let* now := Date_now in
  emitEvent (Events.cellHovered (Events.VString cellId) now) ;;;
  LandApi.setHoveredCell (Some cellId) ;;;
  ret tt.

(** The argument is whatever the caller read from its context object. *)
Definition handleCellHoverExit (cellId : Events.Value) : M unit :=
  let* now := Date_now in
  emitEvent (Events.cellUnhovered cellId now) ;;;
  LandApi.setHoveredCell None ;;;
  ret tt.

(** [handlePointerAction(actionType, cellId, context = {})] *)
Definition handlePointerAction
    (actionType : string) (cellId : option string) (context : Events.Object) : M unit :=
  match cellId with
  | Some c =>
      if Js.truthy_str c then
        if String.eqb actionType "select" then handleCellSelect c context
        else if String.eqb actionType "hover-enter" then handleCellHoverEnter c
        else if String.eqb actionType "hover-exit" then handleCellHoverExit (Events.VString c)
        else ret tt (* console.warn *)
      else
        (* Pointer is not over any cell *)
        when (String.eqb actionType "hover-exit")
          (handleCellHoverExit (Events.prop context "previousCellId"))
  | None =>
      when (String.eqb actionType "hover-exit")
        (handleCellHoverExit (Events.prop context "previousCellId"))
  end.

End Interactions.

(** ** platform/web/input.js *)

Module WebInput.
Import Runtime.
Local Open Scope js_scope.

(** The part of a react-three-fiber pointer event the handlers read. *)
Record PointerEvent : Type := mkPointerEvent {
  point : THREE.Vector3;
  intersections : option (list nat);
}.

(** [event.intersections?.[0]] *)
Definition first_intersection (event : PointerEvent) : Events.Value :=
  match intersections event with
  | Some (i :: _) => Events.VObject i
  | _ => Events.VUndefined
  end.

Section Handlers.

(** The argument of [createPointerHandlers]. *)
Variable getCellIdFromPoint : THREE.Vector3 → option string.

(** [event.stopPropagation()] only concerns the renderer's dispatch. *)
Definition onPointerDown (event : PointerEvent) : M unit :=
  let cellId := getCellIdFromPoint (point event) in
  when (Js.truthy cellId)
    (Interactions.handlePointerAction "select" cellId
       {[ "point" := Events.VVector3 (point event);
          "intersection" := first_intersection event ]}).

Definition onPointerMove (event : PointerEvent) : M unit :=
  let cellId := getCellIdFromPoint (point event) in
  let* current := gets currentHoveredCellId in
  when (negb (bool_decide (cellId = current)))
    ((* Exiting previous cell *)
     when (Js.truthy current)
       (Interactions.handlePointerAction "hover-exit" None
          {[ "previousCellId" := Events.of_id current ]}) ;;;
     (* Entering new cell *)
     when (Js.truthy cellId)
       (Interactions.handlePointerAction "hover-enter" cellId
          {[ "point" := Events.VVector3 (point event) ]}) ;;;
     modify (set_currentHoveredCellId cellId)).

Definition onPointerLeave : M unit :=
  let* current := gets currentHoveredCellId in
  when (Js.truthy current)
    (Interactions.handlePointerAction "hover-exit" None
       {[ "previousCellId" := Events.of_id current ]} ;;;
     modify (set_currentHoveredCellId None)).

(** Pointer-move events delivered one after the other. *)
Fixpoint onPointerMoves (events : list PointerEvent) : M unit :=
  match events with
  | [] => ret tt
  | event :: rest => onPointerMove event ;;; onPointerMoves rest
  end.

End Handlers.

Definition resetInputState : M unit :=
  modify (set_currentHoveredCellId None).

End WebInput.

(** ** [Math] on real numbers *)

Module Math.
Local Open Scope R_scope.

(** [Math.atan2(y, x)]: the angle of the point [(x, y)], in [(-PI, PI]];
    [0] at the origin. *)
Definition atan2 (y x : R) : R :=
  if Rlt_dec 0 x then atan (y / x)
  else if Rlt_dec x 0 then
    if Rle_dec 0 y then atan (y / x) + PI else atan (y / x) - PI
  else if Rlt_dec 0 y then PI / 2
  else if Rlt_dec y 0 then - (PI / 2)
  else 0.

(** [Math.ceil(x)]: the least integer that is not below [x]. *)
Definition ceil (x : R) : Z :=
  Zceil x.

End Math.

(** ** h3-js (external) and core/h3/index.js *)

Module H3.
Local Open Scope R_scope.

(** The functions of h3-js the sources import.  The library is not part of
    the repository: it is a parameter of everything that uses it. *)
Record Library : Type := mkLibrary {
  latLngToCell : R → R → Z → string;
  cellToLatLng : string → R * R;
  cellToBoundary : string → list (R * R);
  gridDisk : string → Z → list string;
  getResolution : string → Z;
}.

(** What h3-js documents of [getResolution]: an index remembers the
    resolution it was made at. *)
Definition keeps_resolution (h3 : Library) : Prop :=
  ∀ lat lng res, (0 ≤ res ≤ 15)%Z → getResolution h3 (latLngToCell h3 lat lng res) = res.

(** Default H3 resolution for land cells *)
Definition DEFAULT_RESOLUTION : Z := 12.

(** Lower resolution for visible grid rendering *)
Definition VISIBLE_GRID_RESOLUTION : Z := 4.

Definition getH3Index (h3 : Library) (lat lng : R) (resolution : Z) : string :=
  latLngToCell h3 lat lng resolution.

Definition getCellBoundary (h3 : Library) (h3Index : string) : list (R * R) :=
  cellToBoundary h3 h3Index.

Definition getNeighborCells (h3 : Library) (h3Index : string) (ringSize : Z) : list string :=
  gridDisk h3 h3Index ringSize.

Definition getCellResolution (h3 : Library) (h3Index : string) : Z :=
  getResolution h3 h3Index.

Definition generateViewportGrid
    (h3 : Library) (centerLat centerLng : R) (ringSize resolution : Z) : list string :=
  let centerCell := getH3Index h3 centerLat centerLng resolution in
  gridDisk h3 centerCell ringSize.

(** A stand-in for the library, used to run the pipeline on concrete
    inputs: like an H3 index in hexadecimal, its identifiers start with
    the mode digit [8] followed by the resolution digit. *)
Definition hex_digit (n : Z) : Ascii.ascii :=
  nth (Z.to_nat n)
      ["0"; "1"; "2"; "3"; "4"; "5"; "6"; "7"; "8"; "9"; "a"; "b"; "c"; "d"; "e"; "f"]%char
      "0"%char.

Definition digit_value (c : Ascii.ascii) : Z :=
  let n := Z.of_nat (Ascii.nat_of_ascii c) in
  if (48 <=? n)%Z && (n <=? 57)%Z then (n - 48)%Z
  else if (97 <=? n)%Z && (n <=? 102)%Z then (n - 87)%Z
  else 0%Z.

Definition stand_in : Library :=
  {| latLngToCell := λ _ _ res, String "8"%char (String (hex_digit res) "28309ffffffff");
     cellToLatLng := λ _, (0, 0);
     cellToBoundary := λ _, [];
     gridDisk := λ c _, [c];
     getResolution := λ s,
       match s with
       | String _ (String d _) => digit_value d
       | _ => 0%Z
       end |}.

End H3.

(** ** viewer/HexGrid.jsx *)

Module HexGrid.
Local Open Scope R_scope.

(** viewer/Globe.jsx *)
Definition GLOBE_RADIUS : R := 1.

(** Clamp the number of rings for safety. *)
Definition MIN_GRID_RINGS : Z := 8.
Definition MAX_GRID_RINGS : Z := 140.

Definition OUTLINE_RADIUS_MULT : R := 1.004.
Definition FILL_RADIUS_MULT : R := 1.005.
Definition INTERACTION_RADIUS_MULT : R := 1.006.

Definition degToRad (deg : R) : R :=
  (deg * PI) / 180.

Definition angularDistanceRad (lat1 lng1 lat2 lng2 : R) : R :=
  let phi1 := degToRad lat1 in
  let phi2 := degToRad lat2 in
  let dLambda := degToRad (lng2 - lng1) in
  let cosD := sin phi1 * sin phi2 + cos phi1 * cos phi2 * cos dLambda in
  (* Numerical safety. *)
  let clamped := Rmin 1 (Rmax (-1) cosD) in
  acos clamped.

Definition estimateRingStepRad (h3 : H3.Library) (centerCell : string) : option R :=
  let '(centerLat, centerLng) := H3.cellToLatLng h3 centerCell in
  let ring1 := H3.gridDisk h3 centerCell 1 in
  match List.find (λ id, negb (String.eqb id centerCell)) ring1 with
  | Some neighborCell =>
      if Js.truthy_str neighborCell then
        let '(nLat, nLng) := H3.cellToLatLng h3 neighborCell in
        Some (angularDistanceRad centerLat centerLng nLat nLng)
      else None
  | None => None
  end.

Definition latLngToVector3 (lat lng radius : R) : THREE.Vector3 :=
  let phi := (90 - lat) * (PI / 180) in
  let theta := (lng + 180) * (PI / 180) in
  let x := - radius * sin phi * cos theta in
  let y := radius * cos phi in
  let z := radius * sin phi * sin theta in
  THREE.mkVector3 x y z.

Record LatLng : Type := mkLatLng { lat : R; lng : R }.

(** [vector3ToLatLng(point, _radius = GLOBE_RADIUS)]; the radius is unused. *)
Definition vector3ToLatLng (point : THREE.Vector3) : LatLng :=
  (* Normalize point to unit sphere *)
  let normalized := THREE.normalize point in
  let lat := 90 - acos (THREE.y normalized) * (180 / PI) in
  let lng := Math.atan2 (THREE.z normalized) (- THREE.x normalized) * (180 / PI) - 180 in
  mkLatLng lat (if Rlt_dec lng (-180) then lng + 360 else lng).

Definition getCellColor
    (cellId : string) (cells : gmap string Domain.Cell)
    (selectedCellId hoveredCellId : option string) : string :=
  if bool_decide (Some cellId = selectedCellId) then "#00ff88" (* Bright green for selected *)
  else if bool_decide (Some cellId = hoveredCellId) then "#44aaff" (* Blue for hovered *)
  else
    match cells !! cellId with
    | Some cell =>
        match Domain.state cell with
        | Domain.SELECTED => "#00ff88"
        | Domain.HOVERED => "#44aaff"
        | Domain.OWNED => "#ffaa00" (* Orange for owned *)
        | _ => "#ffffff"
        end
    | None => "#ffffff" (* Default white outline *)
    end.

(** [const isHighlighted = color !== '#ffffff'] in [HexCell] *)
Definition isHighlighted (color : string) : bool :=
  negb (String.eqb color "#ffffff").

(** The number of rings [hexCells] asks [gridDisk] for, as a function of
    [ringStep]. *)
Definition rings (ringStep : R) : Z :=
  (* 90° hemisphere plus a small margin *)
  let desiredRadius := PI / 2 + degToRad 8 in
  THREE.clamp
    (Math.ceil (desiredRadius / Rmax ringStep 1e-6))
    MIN_GRID_RINGS
    MAX_GRID_RINGS.

(** The [hexCells] memo of [HexGrid], for a view-center cell. *)
Definition hexCells
    (h3 : H3.Library) (viewCenterCellId : string) : list (string * list (R * R)) :=
  let centerCell := viewCenterCellId in
  let ringStep := Js.or_else (estimateRingStepRad h3 centerCell) (degToRad 1) in
  let cellIds := H3.gridDisk h3 centerCell (rings ringStep) in
  map (λ cellId, (cellId, H3.cellToBoundary h3 cellId)) cellIds.

(** Function to convert 3D point to H3 cell ID *)
Definition getCellIdFromPoint (h3 : H3.Library) (point : THREE.Vector3) : option string :=
  let ll := vector3ToLatLng point in
  Some (H3.latLngToCell h3 (lat ll) (lng ll) H3.VISIBLE_GRID_RESOLUTION).

(** [pointerHandlers = createPointerHandlers(getCellIdFromPoint)] *)
Definition onPointerDown (h3 : H3.Library) : WebInput.PointerEvent → Runtime.M unit :=
  WebInput.onPointerDown (getCellIdFromPoint h3).

Definition onPointerMove (h3 : H3.Library) : WebInput.PointerEvent → Runtime.M unit :=
  WebInput.onPointerMove (getCellIdFromPoint h3).

Definition onPointerLeave : Runtime.M unit :=
  WebInput.onPointerLeave.

End HexGrid.

(** ** [getState] at the level of object identities

    api/landApi.js keeps one object [state] whose [cells] property is a
    [Map] from cell ids to cell record objects.  [getState()] returns a new
    object literal whose [cells] is [new Map(state.cells)]: a new [Map]
    holding the same record objects.  Here objects live in a heap and are
    named by references, so that sharing is visible. *)

Module Objects.

(** References are positions in the heap. *)
Abbreviation Ref := nat.

(** An object of the shape [{ selectedCellId, hoveredCellId, cells }]. *)
Record StateObject : Type := mkStateObject {
  selectedCellId : option string;
  hoveredCellId : option string;
  cells : Ref;
}.

Record Heap : Type := mkHeap {
  objects : list StateObject;        (* [state] and the snapshots *)
  maps : list (gmap string Ref);     (* [Map] objects: cell id to record *)
  records : list Domain.Cell;        (* cell record objects *)
}.

(** The heap together with the binding of the module constant [state]. *)
Record Store : Type := mkStore {
  heap : Heap;
  state : Ref;
}.

(** [getState()], returning the reference of the new snapshot object. *)
Definition getState (s : Store) : option (Ref * Store) :=
  st ← objects (heap s) !! state s;
  entries ← maps (heap s) !! cells st;
  let copy := length (maps (heap s)) in
  let snapshot := length (objects (heap s)) in
  Some (snapshot,
        mkStore
          (mkHeap
             (objects (heap s) ++ [mkStateObject (selectedCellId st) (hoveredCellId st) copy])
             (maps (heap s) ++ [entries])
             (records (heap s)))
          (state s)).

(** What a caller holding a snapshot can do to it. *)
Inductive Mutation : Type :=
| SetSelectedCellId (v : option string)
    (* [snapshot.selectedCellId = v] *)
| SetHoveredCellId (v : option string)
    (* [snapshot.hoveredCellId = v] *)
| MapSet (k : string) (c : Domain.Cell)
    (* [snapshot.cells.set(k, c)] for a new record object [c] *)
| MapDelete (k : string)
    (* [snapshot.cells.delete(k)] *)
| MapClear
    (* [snapshot.cells.clear()] *)
| RecordWrite (k : string) (f : Domain.Cell → Domain.Cell).
    (* assignments to properties of the record [snapshot.cells.get(k)] *)

(** The mutations that stay on the snapshot object and its own [Map]. *)
Definition on_mapping (m : Mutation) : bool :=
  match m with
  | RecordWrite _ _ => false
  | _ => true
  end.

Definition update_object (o : Ref) (f : StateObject → StateObject) (h : Heap) : Heap :=
  match objects h !! o with
  | Some obj => mkHeap (<[o := f obj]> (objects h)) (maps h) (records h)
  | None => h
  end.

Definition update_map (o : Ref) (f : gmap string Ref → gmap string Ref) (h : Heap) : Heap :=
  match objects h !! o with
  | Some obj =>
      match maps h !! cells obj with
      | Some m => mkHeap (objects h) (<[cells obj := f m]> (maps h)) (records h)
      | None => h
      end
  | None => h
  end.

Definition mutate (snapshot : Ref) (m : Mutation) (h : Heap) : Heap :=
  match m with
  | SetSelectedCellId v =>
      update_object snapshot (λ o, mkStateObject v (hoveredCellId o) (cells o)) h
  | SetHoveredCellId v =>
      update_object snapshot (λ o, mkStateObject (selectedCellId o) v (cells o)) h
  | MapSet k c =>
      let r := length (records h) in
      update_map snapshot (λ m, <[k := r]> m)
        (mkHeap (objects h) (maps h) (records h ++ [c]))
  | MapDelete k => update_map snapshot (λ m, delete k m) h
  | MapClear => update_map snapshot (λ _, ∅) h
  | RecordWrite k f =>
      match objects h !! snapshot with
      | Some obj =>
          match maps h !! cells obj with
          | Some m =>
              match m !! k with
              | Some r =>
                  match records h !! r with
                  | Some c => mkHeap (objects h) (maps h) (<[r := f c]> (records h))
                  | None => h
                  end
              | None => h
              end
          | None => h
          end
      | None => h
      end
  end.

Definition mutations (snapshot : Ref) (ms : list Mutation) (h : Heap) : Heap :=
  foldl (λ h m, mutate snapshot m h) h ms.

(** The contents reachable from an object of the shape of [state]: the
    value the rest of this development calls a [Runtime.State]. *)
Definition view (h : Heap) (o : Ref) : option Runtime.State :=
  obj ← objects h !! o;
  m ← maps h !! cells obj;
  Some (Runtime.mkState (selectedCellId obj) (hoveredCellId obj)
          (omap (λ r, records h !! r) m)).

(** No dangling references from [state]. *)
Definition well_formed (s : Store) : Prop :=
  ∃ st m,
    objects (heap s) !! state s = Some st ∧
    maps (heap s) !! cells st = Some m ∧
    ∀ k r, m !! k = Some r → r < length (records (heap s)).

(** What a mutation of the snapshot's own object and [Map] preserves. *)
Record untouched (s : Store) (snapshot : Ref) (h : Heap) : Prop := mkUntouched {
  untouched_state : objects h !! state s = objects (heap s) !! state s;
  untouched_map :
    ∀ st, objects (heap s) !! state s = Some st →
          maps h !! cells st = maps (heap s) !! cells st;
  untouched_records :
    ∀ r, r < length (records (heap s)) → records h !! r = records (heap s) !! r;
  untouched_snapshot :
    ∃ o, objects h !! snapshot = Some o ∧ cells o = length (maps (heap s));
}.

(** A store with one record, for cell [8428309ffffffff]. *)
Definition example_store : Store :=
  mkStore
    (mkHeap
       [mkStateObject None None 0]
       [{[ "8428309ffffffff" := 0 ]}]
       [Domain.createCell "8428309ffffffff" Domain.no_options 0])
    0.

(** The store after [selectCell('8428309ffffffff')]: the cell is selected
    and its record is [SELECTED]. *)
Definition selected_store : Store :=
  mkStore
    (mkHeap
       [mkStateObject (Some "8428309ffffffff") None 0]
       [{[ "8428309ffffffff" := 0 ]}]
       [Domain.with_state
          (Domain.createCell "8428309ffffffff" Domain.no_options 1762128000000)
          Domain.SELECTED])
    0.

End Objects.

(** ** The mutators of api/landApi.js as functions on [Runtime.State]

    Closed forms of what [selectCell], [clearSelection] and
    [setHoveredCell] do to [state]; the lemmas [selectCell_run],
    [clearSelection_run] and [setHoveredCell_run] below prove that the
    monadic code computes them. *)

Module Transitions.
Import Runtime.

(** [if (!cells.has(k)) cells.set(k, createCell(k))] *)
Definition ensure (k : string) (now : Z) (m : gmap string Domain.Cell) : gmap string Domain.Cell :=
  match m !! k with
  | Some _ => m
  | None => <[k := Domain.createCell k Domain.no_options now]> m
  end.

(** [if (cells.has(k)) cells.set(k, {...cells.get(k), state: s})] *)
Definition restate (k : string) (s : Domain.CellState) (m : gmap string Domain.Cell) : gmap string Domain.Cell :=
  match m !! k with
  | Some c => <[k := Domain.with_state c s]> m
  | None => m
  end.

(** Demotion of the previous selection. *)
Definition demote_selected (prev : option string) (m : gmap string Domain.Cell) : gmap string Domain.Cell :=
  match prev with
  | Some p => if Js.truthy_str p then restate p Domain.DEFAULT m else m
  | None => m
  end.

(** Demotion of the previous hover: only a record that is [HOVERED]. *)
Definition demote_hovered (prev : option string) (m : gmap string Domain.Cell) : gmap string Domain.Cell :=
  match prev with
  | Some p =>
      if Js.truthy_str p then
        match m !! p with
        | Some c =>
            if bool_decide (Domain.state c = Domain.HOVERED)
            then <[p := Domain.with_state c Domain.DEFAULT]> m else m
        | None => m
        end
      else m
  | None => m
  end.

(** Promotion of the new hover: never a record that is [SELECTED]. *)
Definition promote_hovered (x : option string) (now : Z) (m : gmap string Domain.Cell) : gmap string Domain.Cell :=
  match x with
  | Some c =>
      if Js.truthy_str c then
        match ensure c now m !! c with
        | Some cell =>
            if bool_decide (Domain.state cell = Domain.SELECTED)
            then ensure c now m
            else <[c := Domain.with_state cell Domain.HOVERED]> (ensure c now m)
        | None => ensure c now m
        end
      else m
  | None => m
  end.

Definition select (cellId : string) (now : Z) (s : State) : State :=
  mkState (Some cellId) (hoveredCellId s)
    (restate cellId Domain.SELECTED
       (demote_selected (selectedCellId s) (ensure cellId now (cells s)))).

Definition clear (s : State) : State :=
  mkState None (hoveredCellId s) (demote_selected (selectedCellId s) (cells s)).

Definition hover (x : option string) (now : Z) (s : State) : State :=
  if bool_decide (hoveredCellId s = x) then s
  else mkState (selectedCellId s) x
         (promote_hovered x now (demote_hovered (hoveredCellId s) (cells s))).

(** The world with [f] applied to the [state.cells] map. *)
Definition set_cells
    (f : gmap string Domain.Cell → gmap string Domain.Cell) (w : World) : World :=
  set_state (λ s, mkState (selectedCellId s) (hoveredCellId s) (f (cells s))) w.

(** The world after a mutator has replaced [state] by [s'] and notified. *)
Definition commit (s' : State) (w : World) : World :=
  log (Notify (subscribers w) s') (set_state (λ _, s') w).

(** The world after [selectCell(cellId)]. *)
Definition after_select (cellId : string) (w : World) : World :=
  commit (select cellId (clock w) (state w)) w.

(** The world after [setHoveredCell(x)]. *)
Definition after_hover (x : option string) (w : World) : World :=
  if bool_decide (hoveredCellId (state w) = x) then w
  else commit (hover x (clock w) (state w)) w.

(** The world after [emitEvent(e)]. *)
Definition after_emit (e : Events.Event) (w : World) : World :=
  log (Emit e (default [] (eventListeners w !! Events.type e))) w.

(** The state of the record of [k], if there is one. *)
Definition state_of (k : string) (s : State) : option Domain.CellState :=
  Domain.state <$> cells s !! k.

(** In every reachable state the selected cell has a [SELECTED] record. *)
Definition selection_recorded (s : State) : Prop :=
  ∀ c, selectedCellId s = Some c → state_of c s = Some Domain.SELECTED.

End Transitions.

(** ** The conversions of viewer/HexGrid.jsx on binary64 numbers

    A JavaScript number is an IEEE 754 binary64 value.  [+], [-], [*],
    [/], the comparisons and [Math.sqrt] are correctly rounded: they are
    the primitive operations of [PrimFloat].  ECMAScript leaves
    [Math.sin], [Math.cos], [Math.acos] and [Math.atan2] to the
    implementation, up to the values it fixes; they are a parameter. *)

Module Double.
Import PrimFloat.
Local Open Scope float_scope.

Record MathLibrary : Type := mkMathLibrary {
  sin : float → float;
  cos : float → float;
  acos : float → float;
  atan2 : float → float → float;
}.

(** [Math.PI] = 3.141592653589793 *)
Definition PI : float := 0x1.921fb54442d18p+1.

(** three.js [Vector3], as in module [THREE]. *)
Record Vector3 : Type := mkVector3 { x : float; y : float; z : float }.

Definition length (v : Vector3) : float :=
  sqrt (x v * x v + y v * y v + z v * z v).

Definition multiplyScalar (v : Vector3) (s : float) : Vector3 :=
  mkVector3 (x v * s) (y v * s) (z v * s).

Definition divideScalar (v : Vector3) (s : float) : Vector3 :=
  multiplyScalar v (1 / s).

(** [!!n] for a number: [0], [-0] and [NaN] are falsy. *)
Definition truthy (n : float) : bool :=
  negb (is_zero n || is_nan n).

(** [normalize() { return this.divideScalar(this.length() || 1); }] *)
Definition normalize (v : Vector3) : Vector3 :=
  divideScalar v (if truthy (length v) then length v else 1).

Definition latLngToVector3 (math : MathLibrary) (lat lng radius : float) : Vector3 :=
  let phi := (90 - lat) * (PI / 180) in
  let theta := (lng + 180) * (PI / 180) in
  let x := - radius * sin math phi * cos math theta in
  let y := radius * cos math phi in
  let z := radius * sin math phi * sin math theta in
  mkVector3 x y z.

Record LatLng : Type := mkLatLng { lat : float; lng : float }.

Definition vector3ToLatLng (math : MathLibrary) (point : Vector3) : LatLng :=
  (* Normalize point to unit sphere *)
  let normalized := normalize point in
  let lat := 90 - acos math (y normalized) * (180 / PI) in
  let lng := atan2 math (z normalized) (- x normalized) * (180 / PI) - 180 in
  mkLatLng lat (if lng <? -180 then lng + 360 else lng).

(** The positions and radii the round trip is claimed for: [lat] in
    (-90, 90), [lng] in [[-180, 180)], [radius > 0]. *)
Definition valid (lat lng radius : float) : bool :=
  (-90 <? lat) && (lat <? 90) && (-180 <=? lng) && (lng <? 180) && (0 <? radius).

(** 1e-6 *)
Definition tolerance : float := 0x1.0c6f7a0b5ed8dp-20.

(** [Math.abs(a - b) <= 1e-6] *)
Definition close (a b : float) : bool :=
  abs (a - b) <=? tolerance.

Definition in_longitude_range (l : float) : bool :=
  (-180 <=? l) && (l <? 180).

(** The value listed for an argument, [NaN] when none is listed. *)
Definition table (entries : list (float * float)) (a : float) : float :=
  match List.find (λ e, fst e =? a) entries with
  | Some e => snd e
  | None => nan
  end.

(** A stand-in for [Math], used to run the conversions on concrete
    inputs.  It has the values ECMAScript fixes ([acos(1)] is [+0];
    [atan2] of two zeros is [0], [-0], [PI] or [-PI] by their signs)
    and, for the other arguments the examples below reach, the
    correctly rounded value of the function:
      sin(1.3962634015954636) = 0.984807753012208,
      cos(1.3962634015954636) = 0.17364817766693041,
      sin(3.490658503988659) = -0.34202014332566866,
      cos(3.490658503988659) = -0.9396926207859084,
      sin(1.9195936740593703e-8) = 1.9195936740593703e-8,
      cos(1.9195936740593703e-8) = 0.9999999999999998,
      acos(0) = 1.5707963267948966,
      acos(0.17364817766693041) = 1.3962634015954636,
      atan2(-0.3368240888334651, -0.9254165783983234) = -2.7925268031909276,
      atan2(-6.5653970352883285e-9, -1.803828010420901e-8) = -2.7925268031909276.
    It has no value ([NaN]) elsewhere. *)
Definition stand_in : MathLibrary :=
  {| sin := table
       [ (0x1.657184ae74487p+0, 0x1.f838b8c811c17p-1);
         (0x1.becde5da115a9p+1, -0x1.5e3a8748a0bf4p-2);
         (0x1.49c89f635366cp-26, 0x1.49c89f635366cp-26) ];
     cos := table
       [ (0x1.657184ae74487p+0, 0x1.63a1a7e0b738cp-3);
         (0x1.becde5da115a9p+1, -0x1.e11f642522d1cp-1);
         (0x1.49c89f635366cp-26, 0x1.ffffffffffffep-1) ];
     acos := table
       [ (1, 0);
         (0, 0x1.921fb54442d18p+0);
         (0x1.63a1a7e0b738cp-3, 0x1.657184ae74487p+0) ];
     atan2 := λ b a,
       if is_zero b && is_zero a then
         match classify b, classify a with
         | FloatClass.NZero, FloatClass.NZero => - PI
         | FloatClass.PZero, FloatClass.NZero => PI
         | FloatClass.NZero, FloatClass.PZero => - 0
         | _, _ => 0
         end
       else if (b =? -0x1.58e869f82dce1p-2) && (a =? -0x1.d9d033a6cb461p-1)
       then -0x1.657184ae74488p+1
       else if (b =? -0x1.c32bafa444157p-28) && (a =? -0x1.35e531e390ec0p-26)
       then -0x1.657184ae74488p+1
       else nan |}.

(** 1e200: a radius whose square is not a finite double. *)
Definition huge_radius : float := 0x1.4e718d7d7625ap+664.

(** 89.99999890015384: a latitude 1.1e-6 degrees from the pole. *)
Definition latitude_near_pole : float := 0x1.67ffffb630c97p+6.

End Double.

(** ** Concrete inputs *)

Module Examples.
Import Runtime.

(** Two H3 indices of resolution 4. *)
Definition cellA : string := "8428309ffffffff".
Definition cellB : string := "842830bffffffff".

(** The world when the modules have just been loaded and one component
    has subscribed to the store. *)
Definition fresh : World :=
  mkWorld LandApi.initial_state [1%nat] ∅ None 1762128000000 [].

(** [cellA] is selected. *)
Definition selected : World :=
  mkWorld
    (mkState (Some cellA) None
       {[ cellA := Domain.with_state
                     (Domain.createCell cellA Domain.no_options 1762128000000)
                     Domain.SELECTED ]})
    [1%nat] ∅ None 1762128000500 [].

(** The pointer rests on [cellB]: the input layer and the store agree. *)
Definition hovering : World :=
  mkWorld
    (mkState None (Some cellB)
       {[ cellB := Domain.with_state
                     (Domain.createCell cellB Domain.no_options 1762128000000)
                     Domain.HOVERED ]})
    [1%nat] ∅ (Some cellB) 1762128000500 [].

(** A third H3 index of resolution 4. *)
Definition cellC : string := "842830dffffffff".

(** [cellA] is selected and its record has been marked [OWNED] since,
    by a write to the record object through a snapshot, which shares
    the records with the store (module [Objects], lemma
    [owned_selection_arises]). *)
Definition owned_selection : World :=
  mkWorld
    (mkState (Some cellA) None
       {[ cellA := Domain.with_state
                     (Domain.createCell cellA Domain.no_options 1762128000000)
                     Domain.OWNED ]})
    [1%nat] ∅ None 1762128000500 [].

(** A resolver that sends every point to [cellA]. *)
Definition always_cellA (_ : THREE.Vector3) : option string := Some cellA.

(** A pointer event at the point of the globe with latitude 10 and
    longitude 20. *)
Definition pointer_at_10_20 : WebInput.PointerEvent :=
  WebInput.mkPointerEvent (HexGrid.latLngToVector3 10 20 HexGrid.GLOBE_RADIUS) (Some [0%nat]).

(** What the examples below compare: the three pointers, the emitted
    events as [(type, payload.cellId)], the number of runs of
    [notifySubscribers], and the state of every record. *)
Definition observe (w : option World) :
    option (option string * option string * option string
            * list (string * Events.Value) * nat * list (string * Domain.CellState)) :=
  (λ w, (selectedCellId (state w), hoveredCellId (state w), currentHoveredCellId w,
         map (λ e, (Events.type e, Events.prop (Events.payload e) "cellId"))
             (emitted (trace w)),
         List.length (notified (trace w)),
         (λ kv, (fst kv, Domain.state (snd kv))) <$> map_to_list (cells (state w)))) <$> w.

End Examples.

(** ** Properties named by the specification *)

Module Claims.
Import Runtime.

(** Two calls [setHoveredCell(x); setHoveredCell(x)] from [w] add exactly
    one run of [notifySubscribers] to the trace. *)
Definition hover_twice_notifies_once (w : World) (x : option string) : Prop :=
  ∃ w2,
    exec (bind (LandApi.setHoveredCell x) (λ _, LandApi.setHoveredCell x)) w = Some w2 ∧
    List.length (notified (trace w2)) = S (List.length (notified (trace w))).

(** The pointer-down pipeline ends with the cell of the point
    (10, 20) at the fine resolution, [DEFAULT_RESOLUTION], selected. *)
Definition selects_fine_cell
    (h3 : H3.Library) (event : WebInput.PointerEvent) (w : World) : Prop :=
  ∃ w',
    HexGrid.onPointerDown h3 event w = inr (tt, w') ∧
    selectedCellId (state w') = Some (H3.latLngToCell h3 10 20 H3.DEFAULT_RESOLUTION).

(** After the caller of [getState()] has applied the mutations [ms] to the
    snapshot it received, the contents of the store's own [state] are what
    they were before. *)
Definition snapshot_isolated (s : Objects.Store) (ms : list Objects.Mutation) : Prop :=
  ∃ snapshot s1,
    Objects.getState s = Some (snapshot, s1) ∧
    Objects.view (Objects.mutations snapshot ms (Objects.heap s1)) (Objects.state s)
    = Objects.view (Objects.heap s) (Objects.state s).

(** A call of [selectCell] that leads from [before] to [after] demotes
    the previously selected cell only if it has no conflicting state:
    it does not turn its record to [DEFAULT] from a state other than
    [SELECTED]. *)
Definition demotes_unconflicted (before after : World) : Prop :=
  ∀ prev,
    selectedCellId (state before) = Some prev →
    Transitions.state_of prev (state after) = Some Domain.DEFAULT →
    Transitions.state_of prev (state before) = Some Domain.SELECTED ∨
    Transitions.state_of prev (state before) = Some Domain.DEFAULT.

(** The select postcondition at one store state and two ids:
    [selectCell(A)] and then [selectCell(B)] leave the record of [A]
    [DEFAULT], that of [B] [SELECTED] and [selectedCellId] at [B]; each
    call notifies once; and each demotes the previously selected cell
    only if it has no conflicting state. *)
Definition select_postcondition (w : World) (A B : string) : Prop :=
  ∃ r1 w1 r2 w2,
    LandApi.selectCell A w = inr (r1, w1) ∧
    LandApi.selectCell B w1 = inr (r2, w2) ∧
    Transitions.state_of A (state w2) = Some Domain.DEFAULT ∧
    Transitions.state_of B (state w2) = Some Domain.SELECTED ∧
    selectedCellId (state w2) = Some B ∧
    List.length (notified (trace w1)) = S (List.length (notified (trace w))) ∧
    List.length (notified (trace w2)) = S (List.length (notified (trace w1))) ∧
    demotes_unconflicted w w1 ∧
    demotes_unconflicted w1 w2.

(** The geometry round trip at one position and radius, for numbers
    that are doubles: the coordinates that come back are within 1e-6
    of those that went in, and the longitude is in [[-180, 180)]. *)
Definition round_trip_within_tolerance
    (math : Double.MathLibrary) (lat lng radius : PrimFloat.float) : Prop :=
  let result := Double.vector3ToLatLng math (Double.latLngToVector3 math lat lng radius) in
  Double.close (Double.lat result) lat = true ∧
  Double.close (Double.lng result) lng = true ∧
  Double.in_longitude_range (Double.lng result) = true.

End Claims.

(** ** Runs of the store and of the pointer handlers *)

Module Sessions.
Import Runtime.

(** A call of the store as interactions/pointerEvents.js issues it:
    [handlePointerAction] passes only truthy ids on to [selectCell]. *)
Definition from_pointer (c : LandApi.Call) : bool :=
  match c with
  | LandApi.CallSelect cellId => Js.truthy_str cellId
  | LandApi.CallClear => true
  | LandApi.CallHover _ => true
  end.

(** The worlds the store reaches when every [selectCell] gets a truthy id. *)
Inductive reachable_from_pointer : World → Prop :=
| from_pointer_init w :
    state w = LandApi.initial_state → reachable_from_pointer w
| from_pointer_call w c r w' :
    reachable_from_pointer w → from_pointer c = true →
    LandApi.run c w = inr (r, w') → reachable_from_pointer w'
| from_pointer_env w w' :
    reachable_from_pointer w → state w' = state w → reachable_from_pointer w'.

(** What the store puts into every record: its own key as [id], no
    owner, no structures, and one of the three states it writes. *)
Definition plain (k : string) (c : Domain.Cell) : Prop :=
  Domain.id c = k ∧ Domain.ownerId c = None ∧ Domain.structures c = [] ∧
  (Domain.state c = Domain.DEFAULT ∨ Domain.state c = Domain.HOVERED
   ∨ Domain.state c = Domain.SELECTED).


(** Only the hovered cell has a [HOVERED] record. *)
Definition hover_exclusive (s : State) : Prop :=
  ∀ k, Transitions.state_of k s = Some Domain.HOVERED →
       hoveredCellId s = Some k ∧ Js.truthy_str k = true.

(** Only the selected cell has a [SELECTED] record, and its id is not the
    empty string. *)
Definition selection_exclusive (s : State) : Prop :=
  (∀ k, Transitions.state_of k s = Some Domain.SELECTED → selectedCellId s = Some k) ∧
  (∀ k, selectedCellId s = Some k → Js.truthy_str k = true).

(** What a subscriber holds that keeps the last snapshot it was given and
    started from the initial state, as [HexGrid] does with [setApiState]. *)
Definition last_snapshot (w : World) : State :=
  default LandApi.initial_state (last (notified (trace w))).

(** The three callbacks the picking surface can receive. *)
Inductive PointerInput : Type :=
| PointerDown (event : WebInput.PointerEvent)
| PointerMove (event : WebInput.PointerEvent)
| PointerLeave.

Definition dispatch
    (getCellIdFromPoint : THREE.Vector3 → option string) (i : PointerInput) : M unit :=
  match i with
  | PointerDown event => WebInput.onPointerDown getCellIdFromPoint event
  | PointerMove event => WebInput.onPointerMove getCellIdFromPoint event
  | PointerLeave => WebInput.onPointerLeave
  end.

(** The worlds reached when the store and the hover memo are changed by
    the pointer handlers only. *)
Inductive driven (getCellIdFromPoint : THREE.Vector3 → option string) : World → Prop :=
| driven_init w :
    state w = LandApi.initial_state → currentHoveredCellId w = None →
    driven getCellIdFromPoint w
| driven_input w i w' :
    driven getCellIdFromPoint w →
    dispatch getCellIdFromPoint i w = inr (tt, w') →
    driven getCellIdFromPoint w'
| driven_env w w' :
    driven getCellIdFromPoint w →
    state w' = state w → currentHoveredCellId w' = currentHoveredCellId w →
    driven getCellIdFromPoint w'.

End Sessions.

(** ** viewer/HexGrid.jsx: the geometry of [HexCell] and the view center *)

Module HexCell.
Local Open Scope R_scope.

(** three.js [Vector3.add] *)
Definition add (a b : THREE.Vector3) : THREE.Vector3 :=
  THREE.mkVector3 (THREE.x a + THREE.x b) (THREE.y a + THREE.y b) (THREE.z a + THREE.z b).

(** [boundary.map(([lat, lng]) => latLngToVector3(lat, lng, GLOBE_RADIUS * mult))] *)
Definition vertices (boundary : list (R * R)) (mult : R) : list THREE.Vector3 :=
  map (λ p, HexGrid.latLngToVector3 (fst p) (snd p) (HexGrid.GLOBE_RADIUS * mult)) boundary.

(** The [points] handed to [setFromPoints]: [[...vectors, vectors[0]]];
    [vectors[0]] is [undefined] for an empty boundary. *)
Definition outlinePoints (boundary : list (R * R)) : list (option THREE.Vector3) :=
  let vectors := vertices boundary HexGrid.OUTLINE_RADIUS_MULT in
  (Some <$> vectors) ++ [vectors !! 0%nat].

(** [vectors.reduce((acc, v) => acc.add(v), new THREE.Vector3())
      .divideScalar(vectors.length)] *)
Definition center (vectors : list THREE.Vector3) : THREE.Vector3 :=
  THREE.divideScalar
    (foldl add (THREE.mkVector3 0 0 0) vectors)
    (INR (length vectors)).

Definition coordinates (v : THREE.Vector3) : list R :=
  [THREE.x v; THREE.y v; THREE.z v].

(** The [positions] array after the loop: for every [i] the three
    vertices [center], [vectors[i]], [vectors[(i + 1) % vectors.length]]. *)
Definition positions (vectors : list THREE.Vector3) : list R :=
  let c := center vectors in
  let origin := THREE.mkVector3 0 0 0 in
  flat_map
    (λ i, coordinates c
          ++ coordinates (nth i vectors origin)
          ++ coordinates (nth ((i + 1) mod length vectors) vectors origin))
    (seq 0 (length vectors)).

(** The [fillGeometry] memo: [null] unless the cell is highlighted. *)
Definition fillGeometry (color : string) (boundary : list (R * R)) : option (list R) :=
  if HexGrid.isHighlighted color
  then Some (positions (vertices boundary HexGrid.FILL_RADIUS_MULT))
  else None.

(** The [useFrame] callback of [HexGrid]: the next value of the state
    [viewCenterCellId], given the position of the camera. *)
Definition onFrame (h3 : H3.Library) (cameraPosition : THREE.Vector3)
    (viewCenterCellId : string) : string :=
  let dist := THREE.length cameraPosition in
  if Rle_dec dist 0 then viewCenterCellId
  else
    let facingPoint :=
      THREE.multiplyScalar (THREE.normalize cameraPosition) HexGrid.GLOBE_RADIUS in
    let ll := HexGrid.vector3ToLatLng facingPoint in
    let nextCenterCellId :=
      H3.latLngToCell h3 (HexGrid.lat ll) (HexGrid.lng ll) H3.VISIBLE_GRID_RESOLUTION in
    if bool_decide (nextCenterCellId ≠ viewCenterCellId)
    then nextCenterCellId else viewCenterCellId.

End HexCell.

(** ** viewer/GlobeScene.jsx: [SceneControls] *)

Module SceneControls.
Local Open Scope R_scope.

Definition MIN_DISTANCE : R := 1.2.
Definition MAX_DISTANCE : R := 3.

(** [THREE.MathUtils.clamp] and [THREE.MathUtils.lerp] on numbers. *)
Definition clamp (value min max : R) : R :=
  Rmax min (Rmin max value).

Definition lerp (x y t : R) : R :=
  (1 - t) * x + t * y.

(** The [t] of the [useFrame] callback, for the distance of the camera
    from the target of the controls. *)
Definition damping (distance : R) : R :=
  clamp ((distance - MIN_DISTANCE) / (MAX_DISTANCE - MIN_DISTANCE)) 0 1.

Definition rotateSpeed (distance : R) : R := lerp 0.15 0.5 (damping distance).
Definition zoomSpeed (distance : R) : R := lerp 0.25 0.5 (damping distance).
Definition panSpeed (distance : R) : R := lerp 0.05 0.5 (damping distance).

End SceneControls.

(** * Properties *)

(** ** Stepping through monadic code *)

Section Stepping.
Import Runtime.

Lemma bind_ret {A B : Type} (a : A) (k : A → M B) (w : World) :
  bind (ret a) k w = k a w.
Proof. reflexivity. Qed.

Lemma bind_gets {A B : Type} (f : World → A) (k : A → M B) (w : World) :
  bind (gets f) k w = k (f w) w.
Proof. reflexivity. Qed.

Lemma bind_modify {B : Type} (f : World → World) (k : unit → M B) (w : World) :
  bind (modify f) k w = k tt (f w).
Proof. reflexivity. Qed.

Lemma bind_assoc {A B C : Type} (m : M A) (k : A → M B) (k' : B → M C) (w : World) :
  bind (bind m k) k' w = bind m (λ a, bind (k a) k') w.
Proof. unfold bind. destruct (m w) as [e | [a w']]; reflexivity. Qed.

Lemma bind_inr {A B : Type} (m : M A) (k : A → M B) (w w' : World) (a : A) :
  m w = inr (a, w') → bind m k w = k a w'.
Proof. intros H. unfold bind. rewrite H. reflexivity. Qed.

End Stepping.

(** ** The mutators compute their closed forms *)

Section StoreBlocks.
Import Runtime Transitions.

Lemma lookup_ensure_eq k now (m : gmap string Domain.Cell) :
  is_Some (ensure k now m !! k).
Proof.
  unfold ensure. destruct (m !! k) eqn:E.
  - rewrite E. eauto.
  - rewrite lookup_insert_eq. eauto.
Qed.

Lemma lookup_ensure_ne k j now (m : gmap string Domain.Cell) :
  k ≠ j → ensure k now m !! j = m !! j.
Proof.
  intros Hne. unfold ensure. destruct (m !! k); [done |].
  by rewrite lookup_insert_ne.
Qed.

Lemma lookup_restate k j s (m : gmap string Domain.Cell) :
  restate k s m !! j =
  if decide (k = j) then (λ c, Domain.with_state c s) <$> m !! j else m !! j.
Proof.
  unfold restate. destruct (decide (k = j)) as [-> | Hne].
  - destruct (m !! j) eqn:E; [by rewrite lookup_insert_eq | by rewrite E].
  - destruct (m !! k); [by rewrite lookup_insert_ne | done].
Qed.

Lemma ensure_block k w :
  LandApi.cells_has k w = inr (bool_decide (is_Some (cells (state w) !! k)), w) ∧
  when (negb (bool_decide (is_Some (cells (state w) !! k))))
    (bind Date_now (λ now, LandApi.cells_set k (Domain.createCell k Domain.no_options now))) w
  = inr (tt, set_cells (ensure k (clock w)) w).
Proof.
  split; [reflexivity |].
  destruct w as [[sel hov cs] subs ls cur clk tr]. unfold set_cells, set_state, ensure. cbn.
  destruct (cs !! k) eqn:E; reflexivity.
Qed.

Lemma restate_block k s w :
  is_Some (cells (state w) !! k) →
  bind (LandApi.spread_with_state (cells (state w) !! k) s) (λ c, LandApi.cells_set k c) w
  = inr (tt, set_cells (restate k s) w).
Proof.
  intros [c Hc]. destruct w as [[sel hov cs] subs ls cur clk tr].
  unfold set_cells, set_state, restate. cbn in *. rewrite Hc. reflexivity.
Qed.

Lemma demote_selected_block w :
  match selectedCellId (state w) with
  | Some prev =>
      bind (LandApi.cells_has prev) (λ has_prev,
        when (Js.truthy_str prev && has_prev)
          (bind (LandApi.cells_get prev) (λ prevCell,
             bind (LandApi.spread_with_state prevCell Domain.DEFAULT) (λ demoted,
               LandApi.cells_set prev demoted))))
  | None => ret tt
  end w = inr (tt, set_cells (demote_selected (selectedCellId (state w))) w).
Proof.
  destruct w as [[sel hov cs] subs ls cur clk tr].
  unfold set_cells, set_state, demote_selected, restate. cbn.
  destruct sel as [p |]; [| reflexivity].
  cbn. destruct (Js.truthy_str p); [| reflexivity].
  cbn. destruct (cs !! p) eqn:E; cbn; [| reflexivity].
  rewrite E. reflexivity.
Qed.

Lemma notifySubscribers_run w :
  LandApi.notifySubscribers w = inr (tt, log (Notify (subscribers w) (state w)) w).
Proof. destruct w as [[sel hov cs] subs ls cur clk tr]. reflexivity. Qed.

Lemma selectCell_run (cellId : string) (w : World) :
  LandApi.selectCell cellId w =
  inr (LandApi.SelectResult true cellId (cells (select cellId (clock w) (state w)) !! cellId),
       commit (select cellId (clock w) (state w)) w).
Proof.
  unfold LandApi.selectCell.
  rewrite (bind_inr _ _ _ _ _ (proj1 (ensure_block cellId w))).
  rewrite (bind_inr _ _ _ _ _ (proj2 (ensure_block cellId w))).
  rewrite bind_gets.
  rewrite (bind_inr _ _ _ _ _ (demote_selected_block _)).
  rewrite bind_modify.
  unfold LandApi.cells_get at 1. rewrite bind_gets.
  match goal with |- bind (LandApi.spread_with_state ?o _) _ ?w' = _ =>
    assert (Hs : is_Some (cells (state w') !! cellId)) end.
  { destruct w as [[sel hov cs] subs ls cur clk tr]. cbn.
    unfold demote_selected. destruct sel as [p|]; [destruct (Js.truthy_str p)|];
      rewrite ?lookup_restate; try case_decide; subst; rewrite ?fmap_is_Some;
      apply lookup_ensure_eq. }
  destruct Hs as [c Hc]. rewrite Hc. cbn [LandApi.spread_with_state]. rewrite bind_ret.
  unfold LandApi.cells_set. rewrite bind_modify.
  rewrite (bind_inr _ _ _ _ _ (notifySubscribers_run _)).
  unfold LandApi.cells_get. rewrite bind_gets. unfold ret.
  destruct w as [[sel hov cs] subs ls cur clk tr].
  unfold commit, select, restate, set_cells, set_state, log in *. cbn in *.
  rewrite Hc. rewrite lookup_insert_eq. reflexivity.
Qed.
Lemma clearSelection_run (w : World) :
  LandApi.clearSelection w =
  inr (LandApi.ClearResult true, commit (clear (state w)) w).
Proof.
  unfold LandApi.clearSelection.
  rewrite bind_gets.
  rewrite (bind_inr _ _ _ _ _ (demote_selected_block _)).
  rewrite bind_modify.
  rewrite (bind_inr _ _ _ _ _ (notifySubscribers_run _)).
  destruct w as [[sel hov cs] subs ls cur clk tr]. reflexivity.
Qed.

Lemma demote_hovered_block w :
  match hoveredCellId (state w) with
  | Some prev =>
      bind (LandApi.cells_has prev) (λ has_prev,
        when (Js.truthy_str prev && has_prev)
          (bind (LandApi.cells_get prev) (λ prevCell,
             bind (LandApi.read_state prevCell) (λ st,
               when (bool_decide (st = Domain.HOVERED))
                 (bind (LandApi.spread_with_state prevCell Domain.DEFAULT) (λ demoted,
                    LandApi.cells_set prev demoted))))))
  | None => ret tt
  end w = inr (tt, set_cells (demote_hovered (hoveredCellId (state w))) w).
Proof.
  destruct w as [[sel hov cs] subs ls cur clk tr].
  unfold set_cells, set_state, demote_hovered. cbn.
  destruct hov as [p |]; [| reflexivity].
  cbn. destruct (Js.truthy_str p); [| reflexivity].
  cbn. destruct (cs !! p) as [c |] eqn:E; cbn; [| reflexivity].
  rewrite E. cbn. destruct (bool_decide (Domain.state c = Domain.HOVERED)); reflexivity.
Qed.

Lemma promote_hovered_block x w :
  match x with
  | Some c =>
      when (Js.truthy_str c)
        (bind (LandApi.cells_has c) (λ has,
           bind (when (negb has)
                   (bind Date_now (λ now,
                      LandApi.cells_set c (Domain.createCell c Domain.no_options now))))
             (λ _,
                bind (LandApi.cells_get c) (λ cell,
                  bind (LandApi.read_state cell) (λ st,
                    when (negb (bool_decide (st = Domain.SELECTED)))
                      (bind (LandApi.spread_with_state cell Domain.HOVERED) (λ hov,
                         LandApi.cells_set c hov)))))))
  | None => ret tt
  end w = inr (tt, set_cells (promote_hovered x (clock w)) w).
Proof.
  destruct x as [c |]; [| by destruct w as [[sel hov cs] subs ls cur clk tr]].
  unfold promote_hovered.
  destruct (Js.truthy_str c); [| by destruct w as [[sel hov cs] subs ls cur clk tr]].
  cbn [when].
  rewrite (bind_inr _ _ _ _ _ (proj1 (ensure_block c w))).
  rewrite (bind_inr _ _ _ _ _ (proj2 (ensure_block c w))).
  unfold LandApi.cells_get. rewrite bind_gets.
  destruct (lookup_ensure_eq c (clock w) (cells (state w))) as [cell Hcell].
  destruct w as [[sel hov cs] subs ls cur clk tr].
  unfold set_cells, set_state in *. cbn in *. rewrite Hcell. cbn.
  destruct (bool_decide (Domain.state cell = Domain.SELECTED)); reflexivity.
Qed.

Lemma setHoveredCell_run (x : option string) (w : World) :
  LandApi.setHoveredCell x w =
  inr (LandApi.HoverResult true x,
       if bool_decide (hoveredCellId (state w) = x) then w
       else commit (hover x (clock w) (state w)) w).
Proof.
  unfold LandApi.setHoveredCell.
  rewrite bind_gets.
  destruct (bool_decide (hoveredCellId (state w) = x)) eqn:E; [reflexivity |].
  rewrite (bind_inr _ _ _ _ _ (demote_hovered_block _)).
  rewrite bind_modify.
  rewrite (bind_inr _ _ _ _ _ (promote_hovered_block _ _)).
  rewrite (bind_inr _ _ _ _ _ (notifySubscribers_run _)).
  destruct w as [[sel hov cs] subs ls cur clk tr].
  unfold commit, hover, set_cells, set_state, log, ret in *. cbn in *.
  rewrite E. reflexivity.
Qed.

End StoreBlocks.

(** ** Records under the three transitions *)

Section Records.
Import Runtime Transitions.

Lemma lookup_demote_selected (prev : option string) (m : gmap string Domain.Cell) (k : string) :
  demote_selected prev m !! k =
  if bool_decide (prev = Some k) && Js.truthy_str k
  then (λ c, Domain.with_state c Domain.DEFAULT) <$> m !! k
  else m !! k.
Proof.
  unfold demote_selected. destruct prev as [p |]; [| done].
  case_bool_decide as E.
  - injection E as ->. cbn. destruct (Js.truthy_str k); [| done].
    rewrite lookup_restate. by rewrite decide_True.
  - cbn. destruct (Js.truthy_str p); [| done].
    rewrite lookup_restate. rewrite decide_False; [done | congruence].
Qed.

Lemma demote_hovered_keeps_selected (prev : option string) (m : gmap string Domain.Cell) (k : string) :
  Domain.state <$> m !! k = Some Domain.SELECTED →
  Domain.state <$> demote_hovered prev m !! k = Some Domain.SELECTED.
Proof.
  intros Hk. unfold demote_hovered.
  destruct prev as [p |]; [| done].
  destruct (Js.truthy_str p); [| done].
  destruct (m !! p) as [c |] eqn:Ep; [| done].
  case_bool_decide as Eh; [| done].
  destruct (decide (p = k)) as [-> | Hne].
  - rewrite Ep in Hk. cbn in Hk. congruence.
  - by rewrite lookup_insert_ne.
Qed.

Lemma promote_hovered_keeps_selected (x : option string) (now : Z) (m : gmap string Domain.Cell) (k : string) :
  Domain.state <$> m !! k = Some Domain.SELECTED →
  Domain.state <$> promote_hovered x now m !! k = Some Domain.SELECTED.
Proof.
  intros Hk. unfold promote_hovered.
  destruct x as [c |]; [| done].
  destruct (Js.truthy_str c); [| done].
  assert (He : Domain.state <$> ensure c now m !! k = Some Domain.SELECTED).
  { unfold ensure. destruct (m !! c) eqn:Ec; [done |].
    destruct (decide (c = k)) as [-> | Hne].
    - rewrite Ec in Hk. discriminate.
    - by rewrite lookup_insert_ne. }
  destruct (ensure c now m !! c) as [cell |] eqn:Ecell; [| done].
  case_bool_decide as Es; [done |].
  destruct (decide (c = k)) as [-> | Hne].
  - rewrite Ecell in He. cbn in He. congruence.
  - by rewrite lookup_insert_ne.
Qed.

Lemma hover_keeps_selected (x : option string) (now : Z) (s : State) (k : string) :
  state_of k s = Some Domain.SELECTED →
  state_of k (hover x now s) = Some Domain.SELECTED.
Proof.
  intros Hk. unfold hover. case_bool_decide; [done |].
  unfold state_of. cbn.
  by apply promote_hovered_keeps_selected, demote_hovered_keeps_selected.
Qed.

Lemma selectedCellId_hover (x : option string) (now : Z) (s : State) :
  selectedCellId (hover x now s) = selectedCellId s.
Proof. unfold hover. by case_bool_decide. Qed.

Lemma hoveredCellId_hover (x : option string) (now : Z) (s : State) :
  hoveredCellId (hover x now s) = x.
Proof. unfold hover. by case_bool_decide. Qed.

Lemma lookup_select (cellId : string) (now : Z) (s : State) (k : string) :
  cells (select cellId now s) !! k =
  if decide (cellId = k)
  then Some (Domain.with_state
               (default (Domain.createCell cellId Domain.no_options now) (cells s !! cellId))
               Domain.SELECTED)
  else if bool_decide (selectedCellId s = Some k) && Js.truthy_str k
       then (λ c, Domain.with_state c Domain.DEFAULT) <$> cells s !! k
       else cells s !! k.
Proof.
  unfold select. cbn. rewrite lookup_restate, lookup_demote_selected.
  destruct (decide (cellId = k)) as [-> | Hne].
  - unfold ensure. destruct (cells s !! k) as [c |] eqn:Ek.
    + rewrite Ek. by destruct (bool_decide _ && _).
    + rewrite lookup_insert_eq. by destruct (bool_decide _ && _).
  - by rewrite lookup_ensure_ne.
Qed.

Lemma state_of_select_eq (cellId : string) (now : Z) (s : State) :
  state_of cellId (select cellId now s) = Some Domain.SELECTED.
Proof. unfold state_of. rewrite lookup_select. by rewrite decide_True. Qed.

(** The invariant of the store. *)
Lemma selection_recorded_initial : selection_recorded LandApi.initial_state.
Proof. intros c Hc. discriminate. Qed.

Lemma selection_recorded_select (cellId : string) (now : Z) (s : State) :
  selection_recorded (select cellId now s).
Proof. intros c [= <-]. apply state_of_select_eq. Qed.

Lemma selection_recorded_clear (s : State) :
  selection_recorded (clear s).
Proof. intros c Hc. discriminate. Qed.

Lemma selection_recorded_hover (x : option string) (now : Z) (s : State) :
  selection_recorded s → selection_recorded (hover x now s).
Proof.
  intros Hs c Hc. rewrite selectedCellId_hover in Hc.
  by apply hover_keeps_selected, Hs.
Qed.

Lemma state_commit (s' : State) (w : World) : state (commit s' w) = s'.
Proof. reflexivity. Qed.

Lemma run_total (c : LandApi.Call) (w : World) :
  ∃ r w', LandApi.run c w = inr (r, w') ∧ LandApi.success r = true.
Proof.
  destruct c as [cellId | | cellId]; unfold LandApi.run.
  - rewrite selectCell_run. eauto.
  - rewrite clearSelection_run. eauto.
  - rewrite setHoveredCell_run. eauto.
Qed.

Lemma run_selection_recorded (c : LandApi.Call) (w w' : World) (r : LandApi.Result) :
  selection_recorded (state w) →
  LandApi.run c w = inr (r, w') →
  selection_recorded (state w').
Proof.
  intros Hs. destruct c as [cellId | | cellId]; unfold LandApi.run.
  - rewrite selectCell_run. intros [= _ <-]. apply selection_recorded_select.
  - rewrite clearSelection_run. intros [= _ <-]. apply selection_recorded_clear.
  - rewrite setHoveredCell_run. intros [= _ <-].
    case_bool_decide; [done |]. by apply selection_recorded_hover.
Qed.

Lemma reachable_selection_recorded (w : World) :
  LandApi.reachable w → selection_recorded (state w).
Proof.
  induction 1 as [w Hinit | w c r w' _ IH Hrun | w w' _ IH Henv].
  - rewrite Hinit. apply selection_recorded_initial.
  - by eapply run_selection_recorded.
  - by rewrite Henv.
Qed.

End Records.

(** ** The cell-state store *)

Section Store.
Import Runtime Transitions.

Lemma notified_app (tr tr' : list Effect) :
  notified (tr ++ tr') = notified tr ++ notified tr'.
Proof. unfold notified. apply omap_app. Qed.

Lemma emitted_app (tr tr' : list Effect) :
  emitted (tr ++ tr') = emitted tr ++ emitted tr'.
Proof. unfold emitted. apply omap_app. Qed.

(** C2. Selection overrides hover.  When [x] is the selected cell, with a
    [SELECTED] record, [setHoveredCell(x)] followed by [setHoveredCell(y)]
    for any [y] (another cell, [x] again, or [null]) leaves [x] selected
    and its record [SELECTED]; and [getCellColor] of the selected id is
    ['#00ff88'] whatever the map of records holds and whatever is hovered. *)
Theorem selection_overrides_hover (w : World) (x : string) (y : option string) :
  selectedCellId (state w) = Some x →
  state_of x (state w) = Some Domain.SELECTED →
  ∃ w1 w2,
    LandApi.setHoveredCell (Some x) w = inr (LandApi.HoverResult true (Some x), w1) ∧
    LandApi.setHoveredCell y w1 = inr (LandApi.HoverResult true y, w2) ∧
    selectedCellId (state w1) = Some x ∧
    state_of x (state w1) = Some Domain.SELECTED ∧
    selectedCellId (state w2) = Some x ∧
    state_of x (state w2) = Some Domain.SELECTED ∧
    ∀ (records : gmap string Domain.Cell) (hovered : option string),
      HexGrid.getCellColor x records (Some x) hovered = "#00ff88".
Proof.
  intros Hsel Hrec.
  eexists _, _. split; [apply setHoveredCell_run |]. split; [apply setHoveredCell_run |].
  assert (H1 : ∀ w' x', selectedCellId (state w') = Some x →
             selectedCellId (state (if bool_decide (hoveredCellId (state w') = x') then w'
                                    else commit (hover x' (clock w') (state w')) w')) = Some x).
  { intros w' x' H. case_bool_decide; [done |]. by rewrite state_commit, selectedCellId_hover. }
  assert (H2 : ∀ w' x', state_of x (state w') = Some Domain.SELECTED →
             state_of x (state (if bool_decide (hoveredCellId (state w') = x') then w'
                                else commit (hover x' (clock w') (state w')) w'))
             = Some Domain.SELECTED).
  { intros w' x' H. case_bool_decide; [done |]. rewrite state_commit. by apply hover_keeps_selected. }
  repeat split; auto.
  intros cs hov. unfold HexGrid.getCellColor. by rewrite bool_decide_eq_true_2.
Qed.

Lemma selection_overrides_hover_witness :
  ∃ w1 w2,
    LandApi.setHoveredCell (Some Examples.cellA) Examples.selected
      = inr (LandApi.HoverResult true (Some Examples.cellA), w1) ∧
    LandApi.setHoveredCell (Some Examples.cellB) w1
      = inr (LandApi.HoverResult true (Some Examples.cellB), w2) ∧
    selectedCellId (state w1) = Some Examples.cellA ∧
    state_of Examples.cellA (state w1) = Some Domain.SELECTED ∧
    selectedCellId (state w2) = Some Examples.cellA ∧
    state_of Examples.cellA (state w2) = Some Domain.SELECTED ∧
    ∀ (records : gmap string Domain.Cell) (hovered : option string),
      HexGrid.getCellColor Examples.cellA records (Some Examples.cellA) hovered = "#00ff88".
Proof.
  apply (selection_overrides_hover Examples.selected Examples.cellA (Some Examples.cellB)).
  - reflexivity.
  - vm_compute. reflexivity.
Defined.

(** C3 (as amended). Hover idempotence.  [setHoveredCell(x)] always returns
    [{ success: true, cellId: x }].  When [hoveredCellId] already equals
    [x] it changes nothing at all: no field of the world, no notification.
    Otherwise it sets [hoveredCellId] to [x] and runs [notifySubscribers]
    exactly once.  A second call with the same [x] is always such a no-op,
    so two consecutive calls notify once in total when [hoveredCellId]
    differed from [x] before the first, and not at all when it did not. *)
Theorem hover_idempotent (w : World) (x : option string) :
  ∃ w1,
    LandApi.setHoveredCell x w = inr (LandApi.HoverResult true x, w1) ∧
    LandApi.setHoveredCell x w1 = inr (LandApi.HoverResult true x, w1) ∧
    exec (bind (LandApi.setHoveredCell x) (λ _, LandApi.setHoveredCell x)) w = Some w1 ∧
    (if bool_decide (hoveredCellId (state w) = x)
     then w1 = w
     else hoveredCellId (state w1) = x ∧
          trace w1 = trace w ++ [Notify (subscribers w) (state w1)] ∧
          notified (trace w1) = notified (trace w) ++ [state w1]) ∧
    (Claims.hover_twice_notifies_once w x ↔ hoveredCellId (state w) ≠ x).
Proof.
  assert (Hagain : ∀ w', hoveredCellId (state w') = x →
            LandApi.setHoveredCell x w' = inr (LandApi.HoverResult true x, w')).
  { intros w' H. rewrite setHoveredCell_run. by rewrite bool_decide_eq_true_2. }
  pose proof (setHoveredCell_run x w) as Hfirst.
  set (w1 := if bool_decide (hoveredCellId (state w) = x) then w
             else commit (hover x (clock w) (state w)) w) in *.
  assert (Hx : hoveredCellId (state w1) = x).
  { subst w1. case_bool_decide; [done |]. by rewrite state_commit, hoveredCellId_hover. }
  assert (Htwice : exec (bind (LandApi.setHoveredCell x) (λ _, LandApi.setHoveredCell x)) w
                   = Some w1).
  { unfold exec. rewrite (bind_inr _ _ _ _ _ Hfirst). by rewrite (Hagain _ Hx). }
  assert (Hcases : if bool_decide (hoveredCellId (state w) = x)
                   then w1 = w
                   else hoveredCellId (state w1) = x ∧
                        trace w1 = trace w ++ [Notify (subscribers w) (state w1)] ∧
                        notified (trace w1) = notified (trace w) ++ [state w1]).
  { subst w1. case_bool_decide; [done |]. split; [done |]. split; [done |].
    unfold commit at 1, log. cbn [trace]. by rewrite notified_app. }
  exists w1. split; [exact Hfirst |]. split; [by apply Hagain |].
  split; [exact Htwice |]. split; [exact Hcases |].
  unfold Claims.hover_twice_notifies_once. rewrite Htwice. split.
  - intros (w2 & [= <-] & Hcount) Heq.
    rewrite bool_decide_eq_true_2 in Hcases by done. rewrite Hcases in Hcount. lia.
  - intros Hne. rewrite bool_decide_eq_false_2 in Hcases by done.
    destruct Hcases as (_ & _ & Hn). exists w1. split; [done |].
    rewrite Hn, length_app. cbn. lia.
Qed.

(** C3 as stated fails: on a store whose [hoveredCellId] is [null], two
    calls [setHoveredCell(null)] notify nobody. *)
Lemma hover_twice_counterexample :
  ¬ Claims.hover_twice_notifies_once Examples.fresh None.
Proof.
  intros [w2 [Hrun Hcount]].
  vm_compute in Hrun. injection Hrun as <-.
  vm_compute in Hcount. discriminate.
Qed.

(** C4 (as amended). Selecting [A] and then a different cell [B], from
    every store state.  Both calls succeed.  The first creates the
    record of [A] if it is absent, with [A] as [id], no owner, no
    structures and the time of the call as [createdAt], otherwise keeps
    its other fields, and marks it [SELECTED]; the second does the same
    for [B], sets the record of [A] back to [DEFAULT] and leaves
    [selectedCellId] at [B].  Each call runs [notifySubscribers] exactly
    once, after its updates.  A call sets the record of the previously
    selected cell to [DEFAULT] whatever state that record holds, and
    changes no other record.  ([A] is turned back to [DEFAULT] because
    it is a cell id, a non-empty string; the record of the empty string
    would stay [SELECTED], as the store does not take it for a cell.) *)
Theorem select_then_select (w : World) (A B : string) :
  A ≠ B →
  ∃ cA cB w1 w2,
    LandApi.selectCell A w = inr (LandApi.SelectResult true A (Some cA), w1) ∧
    LandApi.selectCell B w1 = inr (LandApi.SelectResult true B (Some cB), w2) ∧
    cA = match cells (state w) !! A with
         | Some c =>
             Domain.mkCell (Domain.id c) Domain.SELECTED (Domain.ownerId c)
               (Domain.structures c) (Domain.createdAt c)
         | None => Domain.mkCell A Domain.SELECTED None [] (clock w)
         end ∧
    cB = match cells (state w) !! B with
         | Some c =>
             Domain.mkCell (Domain.id c) Domain.SELECTED (Domain.ownerId c)
               (Domain.structures c) (Domain.createdAt c)
         | None => Domain.mkCell B Domain.SELECTED None [] (clock w1)
         end ∧
    cells (state w1) !! A = Some cA ∧
    cells (state w2) !! A =
      Some (if Js.truthy_str A
            then Domain.mkCell (Domain.id cA) Domain.DEFAULT (Domain.ownerId cA)
                   (Domain.structures cA) (Domain.createdAt cA)
            else cA) ∧
    cells (state w2) !! B = Some cB ∧
    state_of A (state w2) = Some (if Js.truthy_str A then Domain.DEFAULT else Domain.SELECTED) ∧
    state_of B (state w2) = Some Domain.SELECTED ∧
    selectedCellId (state w1) = Some A ∧
    selectedCellId (state w2) = Some B ∧
    trace w1 = trace w ++ [Notify (subscribers w) (state w1)] ∧
    trace w2 = trace w1 ++ [Notify (subscribers w1) (state w2)] ∧
    (∀ k, k ≠ A →
       cells (state w1) !! k =
       if bool_decide (selectedCellId (state w) = Some k) && Js.truthy_str k
       then (λ c, Domain.mkCell (Domain.id c) Domain.DEFAULT (Domain.ownerId c)
                    (Domain.structures c) (Domain.createdAt c))
              <$> cells (state w) !! k
       else cells (state w) !! k) ∧
    (∀ k, k ≠ A → k ≠ B → cells (state w2) !! k = cells (state w1) !! k).
Proof.
  intros Hne.
  eexists _, _, _, _.
  split; [rewrite selectCell_run, lookup_select, decide_True by done; reflexivity |].
  split; [rewrite selectCell_run, lookup_select, decide_True by done; reflexivity |].
  rewrite !state_commit. cbn [commit log set_state trace subscribers clock].
  assert (HA1 : cells (select A (clock w) (state w)) !! A
                = Some (Domain.with_state
                          (default (Domain.createCell A Domain.no_options (clock w))
                             (cells (state w) !! A)) Domain.SELECTED)).
  { by rewrite lookup_select, decide_True. }
  assert (HB1 : cells (select A (clock w) (state w)) !! B
                = if bool_decide (selectedCellId (state w) = Some B) && Js.truthy_str B
                  then (λ c, Domain.with_state c Domain.DEFAULT) <$> cells (state w) !! B
                  else cells (state w) !! B).
  { by rewrite lookup_select, decide_False. }
  assert (HA2 : cells (select B (clock w) (select A (clock w) (state w))) !! A
                = Some (if Js.truthy_str A
                        then Domain.with_state
                               (Domain.with_state
                                  (default (Domain.createCell A Domain.no_options (clock w))
                                     (cells (state w) !! A)) Domain.SELECTED) Domain.DEFAULT
                        else Domain.with_state
                               (default (Domain.createCell A Domain.no_options (clock w))
                                  (cells (state w) !! A)) Domain.SELECTED)).
  { rewrite lookup_select, decide_False by done.
    cbn [selectedCellId select]. rewrite bool_decide_eq_true_2 by done.
    cbn [andb]. rewrite HA1. by destruct (Js.truthy_str A). }
  assert (HB2 : cells (select B (clock w) (select A (clock w) (state w))) !! B
                = Some (Domain.with_state
                          (default (Domain.createCell B Domain.no_options (clock w))
                             (cells (select A (clock w) (state w)) !! B)) Domain.SELECTED)).
  { by rewrite lookup_select, decide_True. }
  split; [by destruct (cells (state w) !! A) |].
  split.
  { rewrite HB1. by destruct (cells (state w) !! B), (_ && _). }
  split; [exact HA1 |]. split; [exact HA2 |]. split; [exact HB2 |].
  split; [unfold state_of; rewrite HA2; by destruct (Js.truthy_str A) |].
  split; [unfold state_of; by rewrite HB2 |].
  split; [done |]. split; [done |]. split; [done |]. split; [done |].
  split.
  - intros k Hk. by rewrite lookup_select, decide_False.
  - intros k HkA HkB. rewrite lookup_select, decide_False by done.
    cbn [selectedCellId select]. rewrite bool_decide_eq_false_2 by congruence. done.
Qed.

Lemma select_then_select_witness :
  ∃ cA cB w1 w2,
    LandApi.selectCell Examples.cellA Examples.fresh
      = inr (LandApi.SelectResult true Examples.cellA (Some cA), w1) ∧
    LandApi.selectCell Examples.cellB w1
      = inr (LandApi.SelectResult true Examples.cellB (Some cB), w2) ∧
    state_of Examples.cellA (state w2) = Some Domain.DEFAULT ∧
    state_of Examples.cellB (state w2) = Some Domain.SELECTED ∧
    selectedCellId (state w2) = Some Examples.cellB.
Proof.
  destruct (select_then_select Examples.fresh Examples.cellA Examples.cellB)
    as (cA & cB & w1 & w2 & H1 & H2 & _ & _ & _ & _ & _ & HA & HB & _ & Hsel & _).
  - vm_compute. discriminate.
  - exists cA, cB, w1, w2. repeat split; assumption.
Defined.

(** On the stores the three mutators reach by themselves the record of
    the selected cell is [SELECTED], so that there the postcondition
    holds as C4 first stated it. *)
Lemma select_postcondition_reachable (w : World) (A B : string) :
  LandApi.reachable w → Js.truthy_str A = true → A ≠ B →
  Claims.select_postcondition w A B.
Proof.
  intros Hreach HA Hne.
  assert (Hdemote : ∀ v x, LandApi.reachable v →
            Claims.demotes_unconflicted v (commit (select x (clock v) (state v)) v)).
  { intros v x Hv prev Hprev _. left. by apply (reachable_selection_recorded v Hv). }
  assert (H1 : LandApi.reachable (commit (select A (clock w) (state w)) w)).
  { eapply LandApi.reachable_call; [exact Hreach |].
    apply (selectCell_run A w : LandApi.run (LandApi.CallSelect A) w = _). }
  eexists _, _, _, _.
  split; [apply selectCell_run |]. split; [apply selectCell_run |].
  rewrite !state_commit. cbn [commit log set_state trace subscribers clock].
  split.
  { unfold state_of. rewrite lookup_select, decide_False by done.
    cbn [selectedCellId select]. rewrite bool_decide_eq_true_2, HA by done. cbn [andb].
    by rewrite lookup_select, decide_True. }
  split; [apply state_of_select_eq |]. split; [done |].
  split; [rewrite notified_app, length_app; cbn; lia |].
  split; [rewrite !notified_app, !length_app; cbn; lia |].
  split; [by apply Hdemote |].
  apply (Hdemote (commit (select A (clock w) (state w)) w) B H1).
Qed.

(** C4 as stated fails: [selectCell] has no guard on the state of the
    previous selection's record.  With [cellA] selected and its record
    [OWNED], [selectCell(cellB)] turns that record to [DEFAULT]. *)
Lemma select_demotes_owned_counterexample :
  ¬ Claims.select_postcondition Examples.owned_selection Examples.cellB Examples.cellC.
Proof.
  intros (r1 & w1 & r2 & w2 & H1 & _ & _ & _ & _ & _ & _ & Hd & _).
  rewrite selectCell_run in H1. injection H1 as _ <-.
  assert (Hsel : selectedCellId (state Examples.owned_selection) = Some Examples.cellA)
    by reflexivity.
  assert (Hafter : state_of Examples.cellA
                     (state (commit (select Examples.cellB (clock Examples.owned_selection)
                                       (state Examples.owned_selection))
                               Examples.owned_selection))
                   = Some Domain.DEFAULT)
    by (vm_compute; reflexivity).
  destruct (Hd Examples.cellA Hsel Hafter) as [H | H]; vm_compute in H; discriminate.
Qed.

(** C10. The invariant of the store.  In every state reachable from the
    initial one by calls of [selectCell], [clearSelection] and
    [setHoveredCell], a non-null [selectedCellId] has a record in [cells]
    whose [state] is [SELECTED]; and from such a state each of the three
    calls returns, without throwing, an object with [success: true],
    whatever id it is given and whether or not the id has a record. *)
Theorem store_invariant (w : World) :
  LandApi.reachable w →
  (∀ c, selectedCellId (state w) = Some c →
        ∃ cell, cells (state w) !! c = Some cell ∧ Domain.state cell = Domain.SELECTED) ∧
  (∀ cellId, ∃ cell w',
     LandApi.selectCell cellId w = inr (LandApi.SelectResult true cellId (Some cell), w')) ∧
  (∃ w', LandApi.clearSelection w = inr (LandApi.ClearResult true, w')) ∧
  (∀ cellId, ∃ w',
     LandApi.setHoveredCell cellId w = inr (LandApi.HoverResult true cellId, w')) ∧
  (∀ call, ∃ r w', LandApi.run call w = inr (r, w') ∧ LandApi.success r = true).
Proof.
  intros Hreach. split; [| split; [| split; [| split]]].
  - intros c Hc. pose proof (reachable_selection_recorded w Hreach c Hc) as H.
    unfold state_of in H. destruct (cells (state w) !! c) as [cell |]; [| discriminate].
    exists cell. split; [done |]. by injection H.
  - intros cellId. eexists _, _. rewrite selectCell_run, lookup_select, decide_True by done.
    reflexivity.
  - eexists. apply clearSelection_run.
  - intros cellId. eexists. apply setHoveredCell_run.
  - intros call. apply run_total.
Qed.

Lemma store_invariant_witness :
  (∀ c, selectedCellId (state Examples.selected) = Some c →
        ∃ cell, cells (state Examples.selected) !! c = Some cell ∧
                Domain.state cell = Domain.SELECTED) ∧
  (∀ cellId, ∃ cell w',
     LandApi.selectCell cellId Examples.selected
       = inr (LandApi.SelectResult true cellId (Some cell), w')) ∧
  (∃ w', LandApi.clearSelection Examples.selected = inr (LandApi.ClearResult true, w')) ∧
  (∀ cellId, ∃ w',
     LandApi.setHoveredCell cellId Examples.selected
       = inr (LandApi.HoverResult true cellId, w')) ∧
  (∀ call, ∃ r w', LandApi.run call Examples.selected = inr (r, w') ∧
                   LandApi.success r = true).
Proof.
  apply (store_invariant Examples.selected).
  apply (LandApi.reachable_env
           (commit (select Examples.cellA (clock Examples.fresh) (state Examples.fresh))
              Examples.fresh)).
  - apply (LandApi.reachable_call Examples.fresh (LandApi.CallSelect Examples.cellA)
             (LandApi.SelectResult true Examples.cellA
                (cells (select Examples.cellA (clock Examples.fresh) (state Examples.fresh))
                   !! Examples.cellA))).
    + apply LandApi.reachable_init. reflexivity.
    + apply selectCell_run.
  - vm_compute. reflexivity.
Defined.

End Store.

(** ** The interaction layer and the pointer handlers *)

Section Pointer.
Import Runtime Transitions.

Lemma setHoveredCell_after (x : option string) (w : World) :
  LandApi.setHoveredCell x w = inr (LandApi.HoverResult true x, after_hover x w).
Proof. apply setHoveredCell_run. Qed.

Lemma emitEvent_run (e : Events.Event) (w : World) :
  Interactions.emitEvent e w = inr (tt, after_emit e w).
Proof. reflexivity. Qed.

Lemma handleCellSelect_run (cellId : string) (metadata : Events.Object) (w : World) :
  Interactions.handleCellSelect cellId metadata w =
  inr (tt, after_select cellId
             (after_emit (Events.cellSelected (Events.VString cellId) metadata (clock w)) w)).
Proof.
  unfold Interactions.handleCellSelect, Date_now. rewrite bind_gets.
  rewrite (bind_inr _ _ _ _ _ (emitEvent_run _ _)).
  rewrite (bind_inr _ _ _ _ _ (selectCell_run _ _)). reflexivity.
Qed.

Lemma handleCellHoverEnter_run (cellId : string) (w : World) :
  Interactions.handleCellHoverEnter cellId w =
  inr (tt, after_hover (Some cellId)
             (after_emit (Events.cellHovered (Events.VString cellId) (clock w)) w)).
Proof.
  unfold Interactions.handleCellHoverEnter, Date_now. rewrite bind_gets.
  rewrite (bind_inr _ _ _ _ _ (emitEvent_run _ _)).
  rewrite (bind_inr _ _ _ _ _ (setHoveredCell_after _ _)). reflexivity.
Qed.

Lemma handleCellHoverExit_run (cellId : Events.Value) (w : World) :
  Interactions.handleCellHoverExit cellId w =
  inr (tt, after_hover None (after_emit (Events.cellUnhovered cellId (clock w)) w)).
Proof.
  unfold Interactions.handleCellHoverExit, Date_now. rewrite bind_gets.
  rewrite (bind_inr _ _ _ _ _ (emitEvent_run _ _)).
  rewrite (bind_inr _ _ _ _ _ (setHoveredCell_after _ _)). reflexivity.
Qed.

(** What [after_emit], [after_hover] and [after_select] leave alone. *)
Lemma after_emit_frame (e : Events.Event) (w : World) :
  state (after_emit e w) = state w ∧
  currentHoveredCellId (after_emit e w) = currentHoveredCellId w ∧
  clock (after_emit e w) = clock w ∧
  emitted (trace (after_emit e w)) = emitted (trace w) ++ [e].
Proof.
  repeat split. unfold after_emit, log. cbn [trace]. by rewrite emitted_app.
Qed.

Lemma after_hover_frame (x : option string) (w : World) :
  state (after_hover x w) = hover x (clock w) (state w) ∧
  currentHoveredCellId (after_hover x w) = currentHoveredCellId w ∧
  clock (after_hover x w) = clock w ∧
  emitted (trace (after_hover x w)) = emitted (trace w).
Proof.
  unfold after_hover, hover. case_bool_decide; [done |].
  repeat split. unfold commit, log. cbn [trace]. rewrite emitted_app. cbn. apply app_nil_r.
Qed.

Lemma after_select_frame (cellId : string) (w : World) :
  state (after_select cellId w) = select cellId (clock w) (state w) ∧
  currentHoveredCellId (after_select cellId w) = currentHoveredCellId w ∧
  clock (after_select cellId w) = clock w ∧
  emitted (trace (after_select cellId w)) = emitted (trace w).
Proof.
  repeat split. unfold after_select, commit, log. cbn [trace].
  rewrite emitted_app. cbn. apply app_nil_r.
Qed.

Lemma handlePointerAction_exit (context : Events.Object) (w : World) :
  Interactions.handlePointerAction "hover-exit" None context w =
  Interactions.handleCellHoverExit (Events.prop context "previousCellId") w.
Proof. reflexivity. Qed.

Lemma handlePointerAction_enter (c : string) (context : Events.Object) (w : World) :
  Js.truthy_str c = true →
  Interactions.handlePointerAction "hover-enter" (Some c) context w =
  Interactions.handleCellHoverEnter c w.
Proof. intros H. unfold Interactions.handlePointerAction. rewrite H. reflexivity. Qed.

Lemma handlePointerAction_select (c : string) (context : Events.Object) (w : World) :
  Js.truthy_str c = true →
  Interactions.handlePointerAction "select" (Some c) context w =
  Interactions.handleCellSelect c context w.
Proof. intros H. unfold Interactions.handlePointerAction. rewrite H. reflexivity. Qed.

(** The world after the exit half and after the enter half of a move. *)
Lemma exit_run (current : option string) (w : World) :
  when (Js.truthy current)
    (Interactions.handlePointerAction "hover-exit" None
       {[ "previousCellId" := Events.of_id current ]}) w =
  inr (tt, if Js.truthy current
           then after_hover None
                  (after_emit (Events.cellUnhovered (Events.of_id current) (clock w)) w)
           else w).
Proof.
  destruct (Js.truthy current); [| reflexivity]. cbn [when].
  rewrite handlePointerAction_exit. unfold Events.prop. rewrite lookup_singleton_eq.
  apply handleCellHoverExit_run.
Qed.

Lemma enter_run (cellId : option string) (context : Events.Object) (w : World) :
  when (Js.truthy cellId)
    (Interactions.handlePointerAction "hover-enter" cellId context) w =
  inr (tt, if Js.truthy cellId
           then after_hover cellId
                  (after_emit (Events.cellHovered (Events.of_id cellId) (clock w)) w)
           else w).
Proof.
  destruct (Js.truthy cellId) eqn:E; [| reflexivity]. cbn [when].
  destruct cellId as [c |]; [| discriminate].
  rewrite handlePointerAction_enter by done. apply handleCellHoverEnter_run.
Qed.

(** What one move does, with the events named by the functions that
    build them. *)
Lemma onPointerMove_effects
    (getCellIdFromPoint : THREE.Vector3 → option string)
    (event : WebInput.PointerEvent) (w : World) :
  let cellId := getCellIdFromPoint (WebInput.point event) in
  let current := currentHoveredCellId w in
  ∃ w',
    WebInput.onPointerMove getCellIdFromPoint event w = inr (tt, w') ∧
    (if bool_decide (cellId = current) then w' = w
     else
       currentHoveredCellId w' = cellId ∧
       emitted (trace w') =
         emitted (trace w)
         ++ (if Js.truthy current
             then [Events.cellUnhovered (Events.of_id current) (clock w)] else [])
         ++ (if Js.truthy cellId
             then [Events.cellHovered (Events.of_id cellId) (clock w)] else []) ∧
       Some (state w') =
         state <$>
           exec (bind (when (Js.truthy current)
                         (bind (LandApi.setHoveredCell None) (λ _, ret tt)))
                   (λ _, when (Js.truthy cellId)
                           (bind (LandApi.setHoveredCell cellId) (λ _, ret tt)))) w ∧
       hoveredCellId (state w') =
         (if Js.truthy cellId then cellId
          else if Js.truthy current then None
          else hoveredCellId (state w))) ∧
    ∀ rest,
      Forall (λ e, getCellIdFromPoint (WebInput.point e) = cellId) rest →
      WebInput.onPointerMoves getCellIdFromPoint (event :: rest) w = inr (tt, w').
Proof.
  intros cellId current.
  assert (Hstep : ∀ ev v,
            WebInput.onPointerMove getCellIdFromPoint ev v =
            inr (tt,
                 let c := getCellIdFromPoint (WebInput.point ev) in
                 let cur := currentHoveredCellId v in
                 if bool_decide (c = cur) then v
                 else
                   let v1 := if Js.truthy cur
                             then after_hover None
                                    (after_emit (Events.cellUnhovered (Events.of_id cur) (clock v)) v)
                             else v in
                   let v2 := if Js.truthy c
                             then after_hover c
                                    (after_emit (Events.cellHovered (Events.of_id c) (clock v1)) v1)
                             else v1 in
                   set_currentHoveredCellId c v2)).
  { intros ev v. unfold WebInput.onPointerMove. rewrite bind_gets.
    destruct (bool_decide (getCellIdFromPoint (WebInput.point ev) = currentHoveredCellId v));
      [reflexivity |].
    cbn [negb when].
    rewrite (bind_inr _ _ _ _ _ (exit_run _ _)).
    rewrite (bind_inr _ _ _ _ _ (enter_run _ _ _)). reflexivity. }
  pose proof (Hstep event w) as Hw. cbn zeta in Hw. fold cellId current in Hw.
  match type of Hw with _ = inr (tt, ?v) => set (w' := v) in * end.
  exists w'. split; [exact Hw |]. split.
  - subst w'. case_bool_decide as E; [done |].
    assert (H1 : ∀ v, let v1 := if Js.truthy current
                        then after_hover None
                               (after_emit (Events.cellUnhovered (Events.of_id current) (clock v)) v)
                        else v in
                 currentHoveredCellId v1 = currentHoveredCellId v ∧ clock v1 = clock v ∧
                 state v1 = (if Js.truthy current then hover None (clock v) (state v) else state v) ∧
                 emitted (trace v1) =
                   emitted (trace v)
                   ++ (if Js.truthy current
                       then [Events.cellUnhovered (Events.of_id current) (clock v)] else [])).
    { intros v. cbn zeta. destruct (Js.truthy current).
      - destruct (after_hover_frame None
                    (after_emit (Events.cellUnhovered (Events.of_id current) (clock v)) v))
          as (-> & -> & -> & ->).
        destruct (after_emit_frame (Events.cellUnhovered (Events.of_id current) (clock v)) v)
          as (-> & -> & -> & ->). done.
      - by rewrite app_nil_r. }
    assert (Hapi : state <$>
                     exec (bind (when (Js.truthy current)
                                   (bind (LandApi.setHoveredCell None) (λ _, ret tt)))
                             (λ _, when (Js.truthy cellId)
                                     (bind (LandApi.setHoveredCell cellId) (λ _, ret tt)))) w
                   = Some (let s1 := if Js.truthy current
                                     then hover None (clock w) (state w) else state w in
                           if Js.truthy cellId then hover cellId (clock w) s1 else s1)).
    { assert (Hrun : ∀ b x v,
                when b (bind (LandApi.setHoveredCell x) (λ _, ret tt)) v
                = inr (tt, if b then after_hover x v else v)).
      { intros b x v. destruct b; [| reflexivity]. cbn [when].
        by rewrite (bind_inr _ _ _ _ _ (setHoveredCell_after x v)). }
      unfold exec. rewrite (bind_inr _ _ _ _ _ (Hrun _ _ _)), Hrun. cbn [fmap option_fmap option_map].
      f_equal. cbn zeta.
      destruct (Js.truthy current), (Js.truthy cellId);
        rewrite ?(proj1 (after_hover_frame _ _));
        rewrite ?(proj1 (proj2 (proj2 (after_hover_frame _ _))));
        rewrite ?(proj1 (after_hover_frame _ _)); reflexivity. }
    rewrite Hapi. clear Hapi.
    destruct (H1 w) as (Hc1 & Hk1 & Hs1 & He1). cbn zeta in *.
    set (w1 := if Js.truthy current then _ else w) in *.
    destruct (Js.truthy cellId) eqn:Ec.
    + destruct (after_hover_frame cellId
                  (after_emit (Events.cellHovered (Events.of_id cellId) (clock w1)) w1))
        as (Hs2 & Hc2 & Hk2 & He2).
      destruct (after_emit_frame (Events.cellHovered (Events.of_id cellId) (clock w1)) w1)
        as (Hs3 & Hc3 & Hk3 & He3).
      split; [done |]. cbn [set_currentHoveredCellId trace state].
      rewrite He2, He3, He1, Hs2, Hk3, Hs3, Hs1, Hk1, <- app_assoc.
      split; [done |]. split; [done |]. apply hoveredCellId_hover.
    + split; [done |]. cbn [set_currentHoveredCellId trace state].
      rewrite He1, Hs1, app_nil_r. split; [done |]. split; [done |].
      destruct (Js.truthy current); [apply hoveredCellId_hover | done].
  - intros rest Hrest.
    assert (Hmemo : currentHoveredCellId w' = cellId).
    { subst w'. case_bool_decide as E; [by rewrite E | done]. }
    cbn [WebInput.onPointerMoves]. rewrite (bind_inr _ _ _ _ _ Hw).
    clearbody w'. clear Hw.
    induction Hrest as [| e rest He _ IH]; [reflexivity |].
    cbn [WebInput.onPointerMoves]. rewrite (bind_inr _ _ _ _ _ (Hstep e w')).
    cbn zeta. rewrite He, Hmemo, bool_decide_eq_true_2 by done. apply IH.
Qed.

(** C7. Pointer-move de-duplication and event order.  One move resolves
    the point to [cellId] and compares it with the memo
    [currentHoveredCellId].  If they are equal nothing happens: no event,
    no change of any module's state.  If they differ, the handler emits
    an event of type [CELL_UNHOVERED] whose [payload.cellId] is the memo
    when the memo holds a cell, then an event of type [CELL_HOVERED]
    whose [payload.cellId] is [cellId] when [cellId] is a cell, each
    followed by the call of the hover API of its handler
    ([setHoveredCell(null)], then [setHoveredCell(cellId)]), and sets the
    memo to [cellId].  Hence, in a stream of moves, those that follow a
    move over the same cell do nothing.  (An id holds a cell when it is
    truthy; cell ids are non-empty strings, so that is when it is not
    [null].) *)
Theorem pointer_move_deduplicated
    (getCellIdFromPoint : THREE.Vector3 → option string)
    (event : WebInput.PointerEvent) (w : World) :
  let cellId := getCellIdFromPoint (WebInput.point event) in
  let current := currentHoveredCellId w in
  let unhovered :=
    Events.mkEvent "CELL_UNHOVERED" {[ "cellId" := Events.of_id current ]} (clock w) in
  let hovered :=
    Events.mkEvent "CELL_HOVERED" {[ "cellId" := Events.of_id cellId ]} (clock w) in
  ∃ w',
    WebInput.onPointerMove getCellIdFromPoint event w = inr (tt, w') ∧
    (if bool_decide (cellId = current) then w' = w
     else
       currentHoveredCellId w' = cellId ∧
       emitted (trace w') =
         emitted (trace w)
         ++ (if Js.truthy current then [unhovered] else [])
         ++ (if Js.truthy cellId then [hovered] else []) ∧
       Events.type unhovered = Events.EventTypes.CELL_UNHOVERED ∧
       Events.prop (Events.payload unhovered) "cellId" = Events.of_id current ∧
       Events.type hovered = Events.EventTypes.CELL_HOVERED ∧
       Events.prop (Events.payload hovered) "cellId" = Events.of_id cellId ∧
       Some (state w') =
         state <$>
           exec (bind (when (Js.truthy current)
                         (bind (LandApi.setHoveredCell None) (λ _, ret tt)))
                   (λ _, when (Js.truthy cellId)
                           (bind (LandApi.setHoveredCell cellId) (λ _, ret tt)))) w ∧
       hoveredCellId (state w') =
         (if Js.truthy cellId then cellId
          else if Js.truthy current then None
          else hoveredCellId (state w))) ∧
    ∀ rest,
      Forall (λ e, getCellIdFromPoint (WebInput.point e) = cellId) rest →
      WebInput.onPointerMoves getCellIdFromPoint (event :: rest) w = inr (tt, w').
Proof.
  intros cellId current unhovered hovered.
  pose proof (onPointerMove_effects getCellIdFromPoint event w) as H. cbn zeta in H.
  destruct H as (w' & Hrun & Hcases & Hrest).
  exists w'. split; [exact Hrun |]. split; [| exact Hrest].
  subst cellId current unhovered hovered. revert Hcases.
  case_bool_decide as E; intros Hcases; [exact Hcases |].
  destruct Hcases as (Hmemo & Hemit & Hstate & Hhov).
  split; [exact Hmemo |]. split; [exact Hemit |].
  split; [reflexivity |].
  split; [unfold Events.prop; cbn [Events.payload]; by rewrite lookup_singleton_eq |].
  split; [reflexivity |].
  split; [unfold Events.prop; cbn [Events.payload]; by rewrite lookup_singleton_eq |].
  split; [exact Hstate | exact Hhov].
Qed.

(** C8. Pointer leave.  When the memo [currentHoveredCellId] holds a cell,
    the handler emits exactly one event, [CELL_UNHOVERED] with that cell
    as [payload.cellId], the store's [hoveredCellId] ends as [null] and
    the memo is cleared.  When no cell is hovered it emits nothing and
    changes nothing.  (The memo holds a cell when it is truthy; cell ids
    are non-empty strings, so that is when it is not [null].) *)
Theorem pointer_leave (w : World) :
  ∃ w',
    WebInput.onPointerLeave w = inr (tt, w') ∧
    if Js.truthy (currentHoveredCellId w)
    then
      ∃ e,
        emitted (trace w') = emitted (trace w) ++ [e] ∧
        e = Events.cellUnhovered (Events.of_id (currentHoveredCellId w)) (clock w) ∧
        Events.type e = Events.EventTypes.CELL_UNHOVERED ∧
        Events.prop (Events.payload e) "cellId" = Events.of_id (currentHoveredCellId w) ∧
        hoveredCellId (state w') = None ∧
        currentHoveredCellId w' = None
    else w' = w.
Proof.
  unfold WebInput.onPointerLeave. rewrite bind_gets.
  destruct (Js.truthy (currentHoveredCellId w)) eqn:E.
  - cbn [when].
    assert (Hexit : Interactions.handlePointerAction "hover-exit" None
                      {[ "previousCellId" := Events.of_id (currentHoveredCellId w) ]} w =
                    inr (tt, after_hover None
                               (after_emit
                                  (Events.cellUnhovered (Events.of_id (currentHoveredCellId w))
                                     (clock w)) w))).
    { rewrite handlePointerAction_exit. unfold Events.prop. rewrite lookup_singleton_eq.
      apply handleCellHoverExit_run. }
    rewrite (bind_inr _ _ _ _ _ Hexit).
    eexists. split; [reflexivity |]. eexists. cbn [set_currentHoveredCellId trace state].
    destruct (after_hover_frame None
                (after_emit (Events.cellUnhovered (Events.of_id (currentHoveredCellId w)) (clock w)) w))
      as (Hs & _ & _ & He).
    destruct (after_emit_frame (Events.cellUnhovered (Events.of_id (currentHoveredCellId w)) (clock w)) w)
      as (_ & _ & _ & He').
    rewrite He, He', Hs. split; [reflexivity |]. split; [reflexivity |].
    split; [reflexivity |]. split.
    + unfold Events.prop, Events.cellUnhovered, Events.createEvent. cbn [Events.payload].
      by rewrite lookup_singleton_eq.
    + split; [apply hoveredCellId_hover | reflexivity].
  - eexists. split; reflexivity.
Qed.

End Pointer.

(** ** Geometry on real numbers *)

Section Geometry.
Local Open Scope R_scope.

Lemma PI_neq_0 : PI ≠ 0.
Proof. pose proof PI_RGT_0. lra. Qed.

Lemma sin_sqr_cos_sqr (a : R) : sin a * sin a + cos a * cos a = 1.
Proof. pose proof (sin2_cos2 a) as H. unfold Rsqr in H. exact H. Qed.

Lemma tan_scaled (s t : R) : 0 < s → cos t ≠ 0 → s * sin t / (s * cos t) = tan t.
Proof. intros Hs Hc. unfold tan. field. split; lra. Qed.

(** Decide the comparisons a goal branches on, from linear facts. *)
Ltac decide_comparisons :=
  repeat match goal with
         | |- context [Rlt_dec ?a ?b] => destruct (Rlt_dec a b); try lra; try nra
         | |- context [Rle_dec ?a ?b] => destruct (Rle_dec a b); try lra; try nra
         end.

(** [Math.atan2] recovers the angle of a point given in polar form. *)
Lemma atan2_polar (s t : R) :
  0 < s → - PI < t <= PI → Math.atan2 (s * sin t) (s * cos t) = t.
Proof.
  intros Hs [Hlo Hhi]. pose proof PI_RGT_0 as Hpi. unfold Math.atan2.
  destruct (Rlt_dec t (- (PI / 2))) as [Ha | Ha].
  - (* third quadrant *)
    assert (Hc : cos t < 0).
    { rewrite <- cos_neg. apply cos_lt_0; lra. }
    assert (Hsn : sin t < 0) by (apply sin_lt_0_var; lra).
    decide_comparisons.
    rewrite tan_scaled by lra.
    rewrite <- (Rtrigo_facts.tan_pi_plus t) by lra.
    rewrite atan_tan by lra. lra.
  - destruct (Req_dec_T t (- (PI / 2))) as [-> | Hb].
    + rewrite cos_neg, sin_neg, cos_PI2, sin_PI2.
      decide_comparisons.
    + destruct (Rlt_dec t (PI / 2)) as [Hc | Hc].
      * (* right half plane *)
        assert (Hcos : 0 < cos t) by (apply cos_gt_0; lra).
        decide_comparisons.
        rewrite tan_scaled by lra. apply atan_tan. lra.
      * destruct (Req_dec_T t (PI / 2)) as [-> | Hd].
        -- rewrite cos_PI2, sin_PI2.
           decide_comparisons.
        -- (* second quadrant *)
           assert (Hcos : cos t < 0) by (apply cos_lt_0; lra).
           assert (Hsin : 0 <= sin t) by (apply sin_ge_0; lra).
           decide_comparisons.
           rewrite tan_scaled by lra.
           replace t with (PI + (t - PI)) at 1 by ring.
           assert (Hcos' : cos (t - PI) ≠ 0).
           { replace (t - PI) with (- (PI - t)) by ring. rewrite cos_neg.
             replace (PI - t) with (- t + PI) by ring. rewrite neg_cos, cos_neg. lra. }
           rewrite Rtrigo_facts.tan_pi_plus by exact Hcos'.
           rewrite atan_tan by lra. lra.
Qed.

(** The length of a point produced by [latLngToVector3]. *)
Lemma length_latLngToVector3 (lat lng radius : R) :
  0 <= radius → THREE.length (HexGrid.latLngToVector3 lat lng radius) = radius.
Proof.
  intros Hr. unfold THREE.length, HexGrid.latLngToVector3. cbn.
  set (phi := (90 - lat) * (PI / 180)). set (theta := (lng + 180) * (PI / 180)).
  replace (- radius * sin phi * cos theta * (- radius * sin phi * cos theta)
           + radius * cos phi * (radius * cos phi)
           + radius * sin phi * sin theta * (radius * sin phi * sin theta))
    with (radius * radius
          * (sin phi * sin phi * (sin theta * sin theta + cos theta * cos theta)
             + cos phi * cos phi)) by ring.
  rewrite (sin_sqr_cos_sqr theta), Rmult_1_r, (sin_sqr_cos_sqr phi), Rmult_1_r.
  by apply sqrt_square.
Qed.

(** Over the real numbers the two conversions are exact inverses on the
    open band of latitudes, whatever the radius of the sphere. *)
Lemma vector3ToLatLng_latLngToVector3 (lat lng radius : R) :
  -90 < lat < 90 → -180 <= lng < 180 → 0 < radius →
  HexGrid.vector3ToLatLng (HexGrid.latLngToVector3 lat lng radius) = HexGrid.mkLatLng lat lng.
Proof.
  intros Hlat Hlng Hr. pose proof PI_RGT_0 as Hpi.
  unfold HexGrid.vector3ToLatLng, THREE.normalize.
  rewrite length_latLngToVector3 by lra.
  destruct (Req_dec_T radius 0) as [H | _]; [lra |].
  unfold THREE.divideScalar, THREE.multiplyScalar, HexGrid.latLngToVector3. cbn.
  set (phi := (90 - lat) * (PI / 180)). set (theta := (lng + 180) * (PI / 180)).
  assert (Hphi : 0 < phi < PI) by (unfold phi; split; nra).
  assert (Htheta : 0 <= theta < 2 * PI) by (unfold theta; split; nra).
  assert (Hs : 0 < sin phi) by (apply sin_gt_0; lra).
  replace (radius * cos phi * (1 / radius)) with (cos phi) by (field; lra).
  replace (radius * sin phi * sin theta * (1 / radius)) with (sin phi * sin theta)
    by (field; lra).
  replace (- (- radius * sin phi * cos theta * (1 / radius))) with (sin phi * cos theta)
    by (field; lra).
  rewrite acos_cos by lra.
  assert (Hlat' : 90 - phi * (180 / PI) = lat) by (unfold phi; field; lra).
  rewrite Hlat'. f_equal.
  destruct (Rle_dec theta PI) as [Hle | Hgt].
  - rewrite atan2_polar by lra.
    assert (Hl : theta * (180 / PI) - 180 = lng) by (unfold theta; field; lra).
    rewrite Hl. destruct (Rlt_dec lng (-180)) as [H | _]; [lra | reflexivity].
  - assert (Hsin : sin theta = sin (theta - 2 * PI)).
    { replace theta with (theta - 2 * PI + PI + PI) at 1 by ring.
      rewrite !neg_sin. ring. }
    assert (Hcos : cos theta = cos (theta - 2 * PI)).
    { replace theta with (theta - 2 * PI + PI + PI) at 1 by ring.
      rewrite !neg_cos. ring. }
    rewrite Hsin, Hcos, atan2_polar by lra.
    assert (Hl : (theta - 2 * PI) * (180 / PI) - 180 = lng - 360)
      by (unfold theta; field; lra).
    rewrite Hl. destruct (Rlt_dec (lng - 360) (-180)) as [_ | H]; [f_equal; ring | lra].
Qed.

(** [Math.atan2] returns an angle in [(-PI, PI]]. *)
Lemma atan2_range (y x : R) : - PI < Math.atan2 y x <= PI.
Proof.
  pose proof PI_RGT_0 as Hpi. pose proof (atan_bound (y / x)) as Hb.
  unfold Math.atan2.
  destruct (Rlt_dec 0 x) as [Hx | Hx]; [lra |].
  destruct (Rlt_dec x 0) as [Hx' | Hx'].
  - assert (Hinv : / x < 0) by (by apply Rinv_lt_0_compat).
    destruct (Rle_dec 0 y) as [Hy | Hy].
    + assert (Hq : y / x <= 0) by (unfold Rdiv; nra).
      assert (Ha : atan (y / x) <= 0).
      { destruct Hq as [Hq | Hq]; [| rewrite Hq, atan_0; lra].
        rewrite <- atan_0. left. by apply atan_increasing. }
      lra.
    + assert (Hq : 0 < y / x) by (unfold Rdiv; nra).
      assert (Ha : 0 < atan (y / x)).
      { rewrite <- atan_0. by apply atan_increasing. }
      lra.
  - decide_comparisons.
Qed.

(** Over the real numbers the longitude that [vector3ToLatLng] returns
    lies in [[-180, 180)], for every point. *)
Lemma vector3ToLatLng_lng_range (point : THREE.Vector3) :
  -180 <= HexGrid.lng (HexGrid.vector3ToLatLng point) < 180.
Proof.
  pose proof PI_RGT_0 as Hpi. unfold HexGrid.vector3ToLatLng. cbn [HexGrid.lng].
  set (a := Math.atan2 _ _). pose proof (atan2_range _ _ : - PI < a <= PI) as Ha.
  assert (Ht : a * (180 / PI) * PI = 180 * a) by (field; lra).
  assert (Hr : -180 < a * (180 / PI) <= 180) by (split; nra).
  decide_comparisons.
Qed.



(** The pointer event of [Examples] resolves to latitude 10, longitude 20. *)
Lemma pointer_at_10_20_resolves :
  HexGrid.vector3ToLatLng (WebInput.point Examples.pointer_at_10_20) = HexGrid.mkLatLng 10 20.
Proof.
  unfold Examples.pointer_at_10_20, HexGrid.GLOBE_RADIUS. cbn [WebInput.point].
  apply vector3ToLatLng_latLngToVector3; lra.
Qed.

End Geometry.

(** ** The visible region *)

Section Rings.
Local Open Scope R_scope.



Lemma PI_gt_3 : 3 < PI.
Proof. pose proof PI2_3_2. lra. Qed.


End Rings.

(** ** Picking *)

Section Picking.
Import Runtime Transitions.

Lemma onPointerDown_run
    (getCellIdFromPoint : THREE.Vector3 → option string)
    (event : WebInput.PointerEvent) (w : World) (c : string) :
  getCellIdFromPoint (WebInput.point event) = Some c →
  Js.truthy_str c = true →
  WebInput.onPointerDown getCellIdFromPoint event w =
  inr (tt,
       after_select c
         (after_emit
            (Events.cellSelected (Events.VString c)
               {[ "point" := Events.VVector3 (WebInput.point event);
                  "intersection" := WebInput.first_intersection event ]}
               (clock w)) w)).
Proof.
  intros Hc Ht. unfold WebInput.onPointerDown. rewrite Hc. cbn [Js.truthy]. rewrite Ht.
  cbn [when]. rewrite handlePointerAction_select by done. apply handleCellSelect_run.
Qed.

Lemma getState_run (w : World) : LandApi.getState w = inr (state w, w).
Proof. destruct w as [[sel hov cs] subs ls cur clk tr]. reflexivity. Qed.

Lemma selected_after_select (c : string) (w : World) :
  selectedCellId (state (after_select c w)) = Some c.
Proof. reflexivity. Qed.

(** C1 (as amended). End-to-end selection.  A pointer-down whose
    intersection point resolves to latitude 10, longitude 20 is resolved by
    the picking pipeline to the cell [C] of that position at the
    resolution of the visible grid, [VISIBLE_GRID_RESOLUTION] = 4 (a cell
    id is a non-empty string).  The select path emits one event,
    [CELL_SELECTED] with [payload.cellId = C], and leaves
    [getState().selectedCellId = C]. *)
Theorem pointer_down_selects
    (h3 : H3.Library) (event : WebInput.PointerEvent) (w : World) :
  HexGrid.vector3ToLatLng (WebInput.point event) = HexGrid.mkLatLng 10 20 →
  Js.truthy_str (H3.latLngToCell h3 10 20 H3.VISIBLE_GRID_RESOLUTION) = true →
  ∃ C e w' snapshot,
    C = H3.latLngToCell h3 10 20 4 ∧
    HexGrid.getCellIdFromPoint h3 (WebInput.point event) = Some C ∧
    HexGrid.onPointerDown h3 event w = inr (tt, w') ∧
    emitted (trace w') = emitted (trace w) ++ [e] ∧
    Events.type e = Events.EventTypes.CELL_SELECTED ∧
    Events.prop (Events.payload e) "cellId" = Events.VString C ∧
    LandApi.getState w' = inr (snapshot, w') ∧
    selectedCellId snapshot = Some C.
Proof.
  intros Hll Ht.
  assert (Hc : HexGrid.getCellIdFromPoint h3 (WebInput.point event)
               = Some (H3.latLngToCell h3 10 20 H3.VISIBLE_GRID_RESOLUTION)).
  { unfold HexGrid.getCellIdFromPoint. cbn zeta. by rewrite Hll. }
  eexists _, _, _, _. split; [reflexivity |]. split; [exact Hc |].
  split; [apply (onPointerDown_run _ _ _ _ Hc Ht) |].
  match goal with |- context [after_select ?c (after_emit ?e ?w)] =>
    destruct (after_select_frame c (after_emit e w)) as (Hs & _ & _ & He);
    destruct (after_emit_frame e w) as (_ & _ & _ & He')
  end.
  split; [rewrite He, He'; reflexivity |].
  split; [reflexivity |]. split.
  - unfold Events.prop, Events.cellSelected, Events.createEvent, Events.spread_after.
    cbn [Events.payload].
    rewrite lookup_union_r; [by rewrite lookup_singleton_eq |].
    rewrite lookup_insert_ne by done. by rewrite lookup_singleton_ne.
  - split; [apply getState_run | reflexivity].
Qed.

Lemma pointer_down_selects_witness :
  ∃ C e w' snapshot,
    C = H3.latLngToCell H3.stand_in 10 20 4 ∧
    HexGrid.getCellIdFromPoint H3.stand_in (WebInput.point Examples.pointer_at_10_20) = Some C ∧
    HexGrid.onPointerDown H3.stand_in Examples.pointer_at_10_20 Examples.fresh = inr (tt, w') ∧
    emitted (trace w') = emitted (trace Examples.fresh) ++ [e] ∧
    Events.type e = Events.EventTypes.CELL_SELECTED ∧
    Events.prop (Events.payload e) "cellId" = Events.VString C ∧
    LandApi.getState w' = inr (snapshot, w') ∧
    selectedCellId snapshot = Some C.
Proof.
  apply (pointer_down_selects H3.stand_in Examples.pointer_at_10_20 Examples.fresh).
  - exact pointer_at_10_20_resolves.
  - reflexivity.
Defined.

(** In every library that keeps resolutions the picked cell has
    resolution 4, not the fine resolution 12. *)
Lemma picked_cell_resolution (h3 : H3.Library) (point : THREE.Vector3) (c : string) :
  H3.keeps_resolution h3 →
  HexGrid.getCellIdFromPoint h3 point = Some c →
  H3.getResolution h3 c = H3.VISIBLE_GRID_RESOLUTION ∧
  H3.getResolution h3 c ≠ H3.DEFAULT_RESOLUTION.
Proof.
  intros Hk [= <-]. rewrite Hk by (by vm_compute). split; [done | by vm_compute].
Qed.

Lemma stand_in_keeps_resolution : H3.keeps_resolution H3.stand_in.
Proof.
  intros lat lng res Hres. cbn.
  assert (Hcases : ∃ n : nat, (n < 16)%nat ∧ res = Z.of_nat n).
  { exists (Z.to_nat res). lia. }
  destruct Hcases as (n & Hn & ->).
  do 16 (destruct n as [| n]; [by vm_compute |]). lia.
Qed.

(** C1 as stated fails: the pipeline selects the cell of resolution 4, and
    the cell of the same position at [DEFAULT_RESOLUTION] is another one. *)
Lemma pointer_down_fine_counterexample :
  HexGrid.vector3ToLatLng (WebInput.point Examples.pointer_at_10_20) = HexGrid.mkLatLng 10 20 ∧
  H3.keeps_resolution H3.stand_in ∧
  ¬ Claims.selects_fine_cell H3.stand_in Examples.pointer_at_10_20 Examples.fresh.
Proof.
  split; [exact pointer_at_10_20_resolves |]. split; [exact stand_in_keeps_resolution |].
  intros (w' & Hrun & Hsel).
  unfold HexGrid.onPointerDown in Hrun.
  rewrite (onPointerDown_run _ _ _ "8428309ffffffff") in Hrun by reflexivity.
  injection Hrun as <-. rewrite selected_after_select in Hsel.
  vm_compute in Hsel. discriminate.
Qed.

End Picking.

(** ** Snapshots and sharing *)

Section Snapshots.
Import Objects.

Lemma mutate_untouched (s : Store) (snapshot : Ref) (m : Mutation) (h : Heap) :
  well_formed s →
  snapshot = length (objects (heap s)) →
  on_mapping m = true →
  untouched s snapshot h →
  untouched s snapshot (mutate snapshot m h).
Proof.
  intros (st & entries & Hst & Hentries & Hrefs) -> Hm [Hs Hmap Hrec (o & Ho & Hcells)].
  assert (Hne : state s ≠ length (objects (heap s))).
  { apply lookup_lt_Some in Hst. lia. }
  assert (Hne' : cells st ≠ length (maps (heap s))).
  { apply lookup_lt_Some in Hentries. lia. }
  assert (Hobj : ∀ f, untouched s (length (objects (heap s))) (update_object (length (objects (heap s))) f h)
                      ∨ ¬ cells (f o) = cells o).
  { intros f. destruct (decide (cells (f o) = cells o)) as [Hf | Hf]; [left | by right].
    unfold update_object. rewrite Ho. split; cbn.
    - by rewrite list_lookup_insert_ne.
    - exact Hmap.
    - exact Hrec.
    - exists (f o). split; [| congruence].
      apply list_lookup_insert_eq. by apply lookup_lt_Some in Ho. }
  assert (Hupd : ∀ f h', untouched s (length (objects (heap s))) h' →
                         objects h' !! length (objects (heap s)) = Some o →
                         untouched s (length (objects (heap s)))
                           (update_map (length (objects (heap s))) f h')).
  { intros f h' [Hs' Hmap' Hrec' _] Ho'. unfold update_map. rewrite Ho'.
    destruct (maps h' !! cells o) as [mo |] eqn:Emo.
    - split; cbn.
      + exact Hs'.
      + intros st' Hst'. rewrite Hst in Hst'. injection Hst' as <-.
        rewrite list_lookup_insert_ne by congruence. by apply Hmap'.
      + exact Hrec'.
      + by exists o.
    - split; [exact Hs' | exact Hmap' | exact Hrec' | by exists o]. }
  destruct m as [v | v | k c | k | | k f]; cbn [mutate]; try discriminate.
  - destruct (Hobj (λ o, mkStateObject v (hoveredCellId o) (cells o))); done.
  - destruct (Hobj (λ o, mkStateObject (selectedCellId o) v (cells o))); done.
  - apply Hupd; [| exact Ho].
    split; cbn; [exact Hs | exact Hmap | | by exists o].
    intros r Hr. rewrite lookup_app_l; [by apply Hrec |].
    apply lookup_lt_is_Some. rewrite Hrec by done. by apply lookup_lt_is_Some.
  - apply Hupd; [by split; [| | | exists o] | exact Ho].
  - apply Hupd; [by split; [| | | exists o] | exact Ho].
Qed.

Lemma mutations_untouched (s : Store) (snapshot : Ref) (ms : list Mutation) (h : Heap) :
  well_formed s →
  snapshot = length (objects (heap s)) →
  Forall (λ m, on_mapping m = true) ms →
  untouched s snapshot h →
  untouched s snapshot (mutations snapshot ms h).
Proof.
  intros Hwf Hsnap Hms. revert h.
  induction Hms as [| m ms Hm _ IH]; intros h Hh; [exact Hh |].
  cbn. apply IH. by apply mutate_untouched.
Qed.

(** The contents of [state] seen through an untouched heap. *)
Lemma view_untouched (s : Store) (snapshot : Ref) (h : Heap) :
  well_formed s →
  untouched s snapshot h →
  view h (state s) = view (heap s) (state s).
Proof.
  intros (st & entries & Hst & Hentries & Hrefs) [Hs Hmap Hrec _].
  unfold view. rewrite Hs, Hst. cbn. rewrite (Hmap st Hst), Hentries. cbn.
  do 2 f_equal. apply map_eq. intros k. rewrite !lookup_omap.
  destruct (entries !! k) as [r |] eqn:Ek; [| done]. cbn. apply Hrec. by eapply Hrefs.
Qed.

Lemma records_untouched (s : Store) (snapshot : Ref) (h : Heap) (entries : gmap string Ref) :
  (∀ k r, entries !! k = Some r → r < length (records (heap s))) →
  untouched s snapshot h →
  omap (λ r, records h !! r) entries = omap (λ r, records (heap s) !! r) entries.
Proof.
  intros Hrefs [_ _ Hrec _]. apply map_eq. intros k. rewrite !lookup_omap.
  destruct (entries !! k) as [r |] eqn:Ek; [| done]. cbn. apply Hrec. by eapply Hrefs.
Qed.

Lemma getState_untouched (s : Store) (st : StateObject) (entries : gmap string Ref) :
  objects (heap s) !! state s = Some st →
  maps (heap s) !! cells st = Some entries →
  ∃ s1,
    getState s = Some (length (objects (heap s)), s1) ∧
    state s1 = state s ∧
    objects (heap s1) =
      objects (heap s)
      ++ [mkStateObject (selectedCellId st) (hoveredCellId st) (length (maps (heap s)))] ∧
    maps (heap s1) = maps (heap s) ++ [entries] ∧
    records (heap s1) = records (heap s) ∧
    untouched s (length (objects (heap s))) (heap s1).
Proof.
  intros Hst Hentries. eexists. unfold getState. rewrite Hst. cbn. rewrite Hentries. cbn.
  split; [reflexivity |]. repeat (split; [reflexivity |]). split; cbn.
  - apply lookup_app_l. by apply lookup_lt_Some in Hst.
  - intros st' Hst'. rewrite Hst in Hst'. injection Hst' as <-.
    apply lookup_app_l. by apply lookup_lt_Some in Hentries.
  - done.
  - eexists. split; [by apply list_lookup_middle | reflexivity].
Qed.

(** The snapshot object holds what [LandApi.getState] returns by value. *)
Lemma getState_refines (s : Store) (w : Runtime.World) :
  well_formed s →
  view (heap s) (state s) = Some (Runtime.state w) →
  ∃ snapshot s1,
    getState s = Some (snapshot, s1) ∧
    ∃ r, LandApi.getState w = inr (r, w) ∧ view (heap s1) snapshot = Some r.
Proof.
  intros (st & entries & Hst & Hentries & _) Hview.
  destruct (getState_untouched s st entries Hst Hentries)
    as (s1 & Hget & _ & Hobjs & Hmaps & Hrecs & _).
  exists (length (objects (heap s))), s1. split; [exact Hget |].
  exists (Runtime.state w). split; [apply getState_run |].
  rewrite <- Hview. unfold view.
  rewrite Hobjs, list_lookup_middle, Hst by done. cbn.
  rewrite Hmaps, list_lookup_middle, Hentries by done. cbn. by rewrite Hrecs.
Qed.

Lemma example_store_well_formed : well_formed example_store.
Proof.
  eexists _, _. split; [reflexivity |]. split; [reflexivity |].
  intros k r [_ <-]%lookup_singleton_Some. cbn. lia.
Qed.

(** C9 (as amended). Snapshot isolation.  [getState()] returns a new
    object with a new [Map]: it holds the contents of [state], and whatever
    the caller then does to the snapshot object and to its [cells] mapping
    (assigning its properties, adding, replacing, removing entries,
    clearing it) leaves the contents of the store's own [state] and of
    every snapshot returned later unchanged.  The cell record objects
    inside the mapping are the store's own. *)
Theorem snapshot_isolation (s : Store) (ms : list Mutation) :
  well_formed s →
  Forall (λ m, on_mapping m = true) ms →
  ∃ snapshot s1 contents,
    getState s = Some (snapshot, s1) ∧
    state s1 = state s ∧
    view (heap s) (state s) = Some contents ∧
    view (heap s1) snapshot = Some contents ∧
    snapshot ≠ state s ∧
    (∀ o st, objects (heap s1) !! snapshot = Some o →
             objects (heap s1) !! state s = Some st →
             cells o ≠ cells st ∧
             maps (heap s1) !! cells o = maps (heap s1) !! cells st) ∧
    view (mutations snapshot ms (heap s1)) (state s) = Some contents ∧
    Claims.snapshot_isolated s ms ∧
    ∃ snapshot' s3,
      getState (mkStore (mutations snapshot ms (heap s1)) (state s)) = Some (snapshot', s3) ∧
      view (heap s3) snapshot' = Some contents.
Proof.
  intros Hwf Hms. pose proof Hwf as (st & entries & Hst & Hentries & Hrefs).
  destruct (getState_untouched s st entries Hst Hentries)
    as (s1 & Hget & Hstate & Hobjs & Hmaps & Hrecs & Hun).
  pose proof (mutations_untouched s _ ms _ Hwf eq_refl Hms Hun) as Hun2.
  assert (Hview : view (heap s) (state s)
                  = Some (Runtime.mkState (selectedCellId st) (hoveredCellId st)
                            (omap (λ r, records (heap s) !! r) entries))).
  { unfold view. rewrite Hst. cbn. rewrite Hentries. reflexivity. }
  assert (Hlt : state s < length (objects (heap s))) by (by apply lookup_lt_Some in Hst).
  assert (Hlt' : cells st < length (maps (heap s))) by (by apply lookup_lt_Some in Hentries).
  eexists _, s1, _. split; [exact Hget |]. split; [exact Hstate |].
  split; [exact Hview |]. split.
  { unfold view. rewrite Hobjs, list_lookup_middle by done. cbn.
    rewrite Hmaps, list_lookup_middle by done. cbn. by rewrite Hrecs. }
  split; [lia |]. split.
  { intros o st'. rewrite Hobjs, list_lookup_middle by done.
    rewrite lookup_app_l, Hst by done. intros [= <-] [= <-]. cbn. split; [lia |].
    rewrite Hmaps, list_lookup_middle by done. by rewrite lookup_app_l. }
  assert (Hview2 : view (mutations (length (objects (heap s))) ms (heap s1)) (state s)
                   = Some (Runtime.mkState (selectedCellId st) (hoveredCellId st)
                             (omap (λ r, records (heap s) !! r) entries))).
  { by rewrite (view_untouched s _ _ Hwf Hun2). }
  split; [exact Hview2 |]. split.
  { exists (length (objects (heap s))), s1. split; [exact Hget |]. by rewrite Hview2. }
  set (h2 := mutations (length (objects (heap s))) ms (heap s1)) in *.
  assert (Hst2 : objects h2 !! state s = Some st).
  { by rewrite (untouched_state _ _ _ Hun2). }
  assert (Hentries2 : maps h2 !! cells st = Some entries).
  { by rewrite (untouched_map _ _ _ Hun2 st Hst). }
  destruct (getState_untouched (mkStore h2 (state s)) st entries Hst2 Hentries2)
    as (s3 & Hget3 & _ & Hobjs3 & Hmaps3 & Hrecs3 & _).
  eexists _, s3. split; [exact Hget3 |].
  unfold view. cbn [heap] in *. rewrite Hobjs3, list_lookup_middle by done. cbn.
  rewrite Hmaps3, list_lookup_middle by done. cbn. rewrite Hrecs3.
  by rewrite (records_untouched s _ h2 entries Hrefs Hun2).
Qed.

Lemma snapshot_isolation_witness :
  ∃ snapshot s1 contents,
    getState example_store = Some (snapshot, s1) ∧
    view (heap example_store) (state example_store) = Some contents ∧
    view (heap s1) snapshot = Some contents ∧
    view (mutations snapshot
            [MapDelete Examples.cellA;
             MapSet Examples.cellB (Domain.createCell Examples.cellB Domain.no_options 1);
             SetSelectedCellId (Some Examples.cellB)]
            (heap s1))
         (state example_store)
    = Some contents.
Proof.
  destruct (snapshot_isolation example_store
              [MapDelete Examples.cellA;
               MapSet Examples.cellB (Domain.createCell Examples.cellB Domain.no_options 1);
               SetSelectedCellId (Some Examples.cellB)])
    as (snapshot & s1 & contents & Hget & _ & Hv & Hv1 & _ & _ & Hv2 & _).
  - exact example_store_well_formed.
  - repeat constructor.
  - exists snapshot, s1, contents. repeat split; assumption.
Defined.

(** C9 as stated fails: a caller that assigns to a property of a record
    object found in the snapshot changes the store's own record. *)
Lemma snapshot_record_counterexample :
  well_formed example_store ∧
  ¬ Claims.snapshot_isolated example_store
      [RecordWrite Examples.cellA (λ c, Domain.with_state c Domain.OWNED)].
Proof.
  split; [exact example_store_well_formed |].
  intros (snapshot & s1 & Hget & Hview).
  vm_compute in Hget. injection Hget as <- <-.
  apply (f_equal (λ v, v ≫= λ st, Domain.state <$> Runtime.cells st !! Examples.cellA)) in Hview.
  vm_compute in Hview. discriminate.
Qed.

(** How the store gets a selected cell whose record is [OWNED]: after
    [selectCell(cellA)] a caller marks the record it finds in a snapshot,
    which is the store's own record object. *)
Lemma owned_selection_arises :
  view (heap selected_store) (state selected_store)
  = Some (Runtime.state Examples.selected) ∧
  ∃ snapshot s1,
    getState selected_store = Some (snapshot, s1) ∧
    view (mutations snapshot
            [RecordWrite Examples.cellA (λ c, Domain.with_state c Domain.OWNED)]
            (heap s1))
         (state selected_store)
    = Some (Runtime.state Examples.owned_selection).
Proof.
  split; [vm_compute; reflexivity |].
  eexists _, _. split; [vm_compute; reflexivity |]. vm_compute. reflexivity.
Qed.

End Snapshots.

(** ** Worked examples *)

Section Worked.
Import Runtime Examples.

(** Two moves over the same cell: one [CELL_HOVERED], one notification. *)
Example move_twice_over_cellA :
  observe (exec (bind (WebInput.onPointerMove always_cellA pointer_at_10_20)
                   (λ _, WebInput.onPointerMove always_cellA pointer_at_10_20)) fresh)
  = Some (None, Some cellA, Some cellA,
          [("CELL_HOVERED", Events.VString cellA)], 1%nat,
          [(cellA, Domain.HOVERED)]).
Proof. vm_compute. reflexivity. Qed.

(** A move from [cellB] to [cellA]: exit first, then enter. *)
Example move_from_cellB_to_cellA :
  observe (exec (WebInput.onPointerMove always_cellA pointer_at_10_20) hovering)
  = Some (None, Some cellA, Some cellA,
          [("CELL_UNHOVERED", Events.VString cellB); ("CELL_HOVERED", Events.VString cellA)],
          2%nat,
          [(cellA, Domain.HOVERED); (cellB, Domain.DEFAULT)]).
Proof. vm_compute. reflexivity. Qed.

Example leave_while_hovering :
  observe (exec WebInput.onPointerLeave hovering)
  = Some (None, None, None,
          [("CELL_UNHOVERED", Events.VString cellB)], 1%nat,
          [(cellB, Domain.DEFAULT)]).
Proof. vm_compute. reflexivity. Qed.

(** A click on [cellA] while [cellB] is hovered. *)
Example click_while_hovering :
  observe (exec (WebInput.onPointerDown always_cellA pointer_at_10_20) hovering)
  = Some (Some cellA, Some cellB, Some cellB,
          [("CELL_SELECTED", Events.VString cellA)], 1%nat,
          [(cellA, Domain.SELECTED); (cellB, Domain.HOVERED)]).
Proof. vm_compute. reflexivity. Qed.

(** The guards of the store test ids by truthiness: the empty string is
    stored as a selection but is not demoted by the next one.  No function
    of the input and interaction layers passes it on. *)
Example select_empty_string :
  observe (exec (bind (LandApi.selectCell EmptyString) (λ _, LandApi.selectCell cellB)) fresh)
  = Some (Some cellB, None, None, [], 2%nat,
          [(cellB, Domain.SELECTED); (EmptyString, Domain.SELECTED)]).
Proof. vm_compute. reflexivity. Qed.

Example colors :
  HexGrid.getCellColor cellA (cells (state selected)) (Some cellA) (Some cellA) = "#00ff88" ∧
  HexGrid.getCellColor cellB (cells (state hovering)) None (Some cellB) = "#44aaff" ∧
  HexGrid.getCellColor cellB (cells (state hovering)) None None = "#44aaff" ∧
  HexGrid.getCellColor cellA (cells (state hovering)) None None = "#ffffff".
Proof. vm_compute. repeat split; reflexivity. Qed.

End Worked.

(** * Further properties of the sources *)

(** ** What the mutators do to the map of records *)

Section RecordMaps.
Import Runtime Transitions.

Lemma lookup_demote_hovered (prev : option string) (m : gmap string Domain.Cell) (k : string) :
  demote_hovered prev m !! k =
  if bool_decide (prev = Some k) && Js.truthy_str k
     && bool_decide (Domain.state <$> m !! k = Some Domain.HOVERED)
  then (λ c, Domain.with_state c Domain.DEFAULT) <$> m !! k
  else m !! k.
Proof.
  unfold demote_hovered. destruct prev as [p |]; [| done].
  case_bool_decide as E.
  - injection E as ->. cbn [andb]. destruct (Js.truthy_str k); [| done]. cbn [andb].
    destruct (m !! k) as [c |] eqn:Ek; [| by rewrite Ek].
    cbn. case_bool_decide as Eh.
    + rewrite bool_decide_eq_true_2 by congruence. by rewrite lookup_insert_eq.
    + rewrite bool_decide_eq_false_2 by congruence. done.
  - cbn [andb]. destruct (Js.truthy_str p); [| done].
    destruct (m !! p) as [c |] eqn:Ep; [| done].
    case_bool_decide; [| done]. rewrite lookup_insert_ne; [done | congruence].
Qed.

Lemma lookup_promote_hovered (x : option string) (now : Z) (m : gmap string Domain.Cell) (k : string) :
  promote_hovered x now m !! k =
  if bool_decide (x = Some k) && Js.truthy_str k
  then
    let c := default (Domain.createCell k Domain.no_options now) (m !! k) in
    Some (if bool_decide (Domain.state c = Domain.SELECTED) then c
          else Domain.with_state c Domain.HOVERED)
  else m !! k.
Proof.
  unfold promote_hovered. destruct x as [c |]; [| done].
  case_bool_decide as E.
  - injection E as ->. cbn [andb]. destruct (Js.truthy_str k); [| done].
    unfold ensure. destruct (m !! k) as [cell |] eqn:Ek.
    + rewrite Ek. cbn. case_bool_decide; [done | by rewrite lookup_insert_eq].
    + rewrite lookup_insert_eq. cbn. rewrite bool_decide_eq_false_2 by done.
      by rewrite lookup_insert_eq.
  - cbn [andb]. destruct (Js.truthy_str c); [| done].
    assert (Hne : c ≠ k) by congruence.
    destruct (ensure c now m !! c) as [cell |] eqn:Ec.
    + case_bool_decide.
      * by apply lookup_ensure_ne.
      * rewrite lookup_insert_ne by done. by apply lookup_ensure_ne.
    + by apply lookup_ensure_ne.
Qed.

Lemma lookup_clear (s : State) (k : string) :
  cells (clear s) !! k =
  if bool_decide (selectedCellId s = Some k) && Js.truthy_str k
  then (λ c, Domain.with_state c Domain.DEFAULT) <$> cells s !! k
  else cells s !! k.
Proof. apply lookup_demote_selected. Qed.

End RecordMaps.

(** ** Invariants of the records *)

Section RecordInvariants.
Import Runtime Transitions.

Lemma lookup_hover (x : option string) (now : Z) (s : State) (k : string) :
  cells (hover x now s) !! k =
  if bool_decide (hoveredCellId s = x) then cells s !! k
  else promote_hovered x now (demote_hovered (hoveredCellId s) (cells s)) !! k.
Proof. unfold hover. by case_bool_decide. Qed.

Lemma plain_create (k : string) (now : Z) :
  Sessions.plain k (Domain.createCell k Domain.no_options now).
Proof. repeat split. by left. Qed.

Lemma plain_with_state (k : string) (c : Domain.Cell) (s : Domain.CellState) :
  s ≠ Domain.OWNED → s ≠ Domain.FOREIGN →
  Sessions.plain k c → Sessions.plain k (Domain.with_state c s).
Proof.
  intros Ho Hf (Hid & Hown & Hstr & _). repeat split; try done.
  cbn. destruct s; auto; done.
Qed.

Lemma plain_default (k : string) (now : Z) (m : gmap string Domain.Cell) :
  map_Forall Sessions.plain m →
  Sessions.plain k (default (Domain.createCell k Domain.no_options now) (m !! k)).
Proof.
  intros H. destruct (m !! k) as [c |] eqn:E; [by apply (H k c) | apply plain_create].
Qed.

Lemma plain_restated (k : string) (s : Domain.CellState) (m : gmap string Domain.Cell)
    (c : Domain.Cell) :
  s ≠ Domain.OWNED → s ≠ Domain.FOREIGN →
  map_Forall Sessions.plain m →
  (λ c, Domain.with_state c s) <$> m !! k = Some c → Sessions.plain k c.
Proof.
  intros Ho Hf H. destruct (m !! k) as [c0 |] eqn:E; [| done].
  intros [= <-]. apply plain_with_state; try done. by apply (H k).
Qed.

Lemma run_plain (call : LandApi.Call) (w w' : World) (r : LandApi.Result) :
  map_Forall Sessions.plain (cells (state w)) →
  LandApi.run call w = inr (r, w') →
  map_Forall Sessions.plain (cells (state w')).
Proof.
  intros H. destruct call as [cellId | | x]; unfold LandApi.run.
  - rewrite selectCell_run. intros [= _ <-]. rewrite state_commit. intros k c.
    rewrite lookup_select. destruct (decide (cellId = k)) as [-> | Hne].
    + intros [= <-]. apply plain_with_state; try done. by apply plain_default.
    + destruct (_ && _); [by apply plain_restated | apply H].
  - rewrite clearSelection_run. intros [= _ <-]. rewrite state_commit. intros k c.
    rewrite lookup_clear. destruct (_ && _); [by apply plain_restated | apply H].
  - rewrite setHoveredCell_run. intros [= _ <-].
    case_bool_decide as Ex; [done |]. rewrite state_commit. intros k c.
    rewrite lookup_hover, bool_decide_eq_false_2 by done.
    assert (Hd : map_Forall Sessions.plain
                   (demote_hovered (hoveredCellId (state w)) (cells (state w)))).
    { intros j cj. rewrite lookup_demote_hovered.
      destruct (_ && _ && _); [by apply plain_restated | apply H]. }
    rewrite lookup_promote_hovered.
    destruct (_ && _); [| apply Hd].
    cbn zeta. intros [= <-]. case_bool_decide.
    + by apply plain_default.
    + apply plain_with_state; try done. by apply plain_default.
Qed.

Lemma reachable_plain (w : World) :
  LandApi.reachable w → map_Forall Sessions.plain (cells (state w)).
Proof.
  induction 1 as [w Hinit | w c r w' _ IH Hrun | w w' _ IH Henv].
  - rewrite Hinit. apply map_Forall_empty.
  - by eapply run_plain.
  - by rewrite Henv.
Qed.

(** The hovered cell. *)
Lemma state_of_hover_HOVERED (x : option string) (now : Z) (s : State) (k : string) :
  Sessions.hover_exclusive s →
  state_of k (hover x now s) = Some Domain.HOVERED →
  x = Some k ∧ Js.truthy_str k = true.
Proof.
  intros Hs. unfold state_of. rewrite lookup_hover.
  case_bool_decide as Ex; [subst x; apply Hs |].
  rewrite lookup_promote_hovered.
  destruct (bool_decide (x = Some k)) eqn:Ek; cbn [andb].
  - apply bool_decide_eq_true_1 in Ek. destruct (Js.truthy_str k) eqn:Et; [done |].
    rewrite lookup_demote_hovered, Et, andb_false_r. cbn [andb].
    intros Hk. destruct (Hs k Hk) as [_ Ht]. congruence.
  - rewrite lookup_demote_hovered.
    destruct (bool_decide (hoveredCellId s = Some k)) eqn:Eh; cbn [andb].
    + destruct (Js.truthy_str k) eqn:Et; cbn [andb].
      * destruct (bool_decide (Domain.state <$> cells s !! k = Some Domain.HOVERED)) eqn:Est.
        -- destruct (cells s !! k); cbn; discriminate.
        -- apply bool_decide_eq_false_1 in Est. intros Hk. by destruct Est.
      * intros Hk. destruct (Hs k Hk) as [_ Ht]. congruence.
    + apply bool_decide_eq_false_1 in Eh. intros Hk. destruct (Hs k Hk) as [Hh _]. by destruct Eh.
Qed.

Lemma run_hover_exclusive (call : LandApi.Call) (w w' : World) (r : LandApi.Result) :
  Sessions.hover_exclusive (state w) →
  LandApi.run call w = inr (r, w') →
  Sessions.hover_exclusive (state w').
Proof.
  intros H. destruct call as [cellId | | x]; unfold LandApi.run.
  - rewrite selectCell_run. intros [= _ <-]. rewrite state_commit. intros k.
    unfold state_of. rewrite lookup_select. cbn [hoveredCellId select].
    destruct (decide (cellId = k)); [cbn; discriminate |].
    destruct (_ && _); [destruct (cells (state w) !! k); cbn; discriminate | apply H].
  - rewrite clearSelection_run. intros [= _ <-]. rewrite state_commit. intros k.
    unfold state_of. rewrite lookup_clear. cbn [hoveredCellId clear].
    destruct (_ && _); [destruct (cells (state w) !! k); cbn; discriminate | apply H].
  - rewrite setHoveredCell_run. intros [= _ <-].
    case_bool_decide as Ex; [done |]. rewrite state_commit. intros k Hk.
    rewrite hoveredCellId_hover. by eapply state_of_hover_HOVERED.
Qed.

Lemma reachable_hover_exclusive (w : World) :
  LandApi.reachable w → Sessions.hover_exclusive (state w).
Proof.
  induction 1 as [w Hinit | w c r w' _ IH Hrun | w w' _ IH Henv].
  - rewrite Hinit. intros k. unfold state_of. cbn. by rewrite lookup_empty.
  - by eapply run_hover_exclusive.
  - by rewrite Henv.
Qed.

(** The selected cell, when [selectCell] gets non-empty ids only. *)
Lemma state_of_hover_SELECTED (x : option string) (now : Z) (s : State) (k : string) :
  state_of k (hover x now s) = Some Domain.SELECTED →
  state_of k s = Some Domain.SELECTED.
Proof.
  unfold state_of. rewrite lookup_hover. case_bool_decide; [done |].
  rewrite lookup_promote_hovered, lookup_demote_hovered.
  destruct (bool_decide (x = Some k) && Js.truthy_str k).
  - cbn zeta. destruct (_ && _ && _).
    + destruct (cells s !! k) as [c |]; cbn; case_bool_decide; cbn in *; congruence.
    + destruct (cells s !! k) as [c |]; cbn; case_bool_decide; cbn in *; congruence.
  - destruct (_ && _ && _); [| done].
    destruct (cells s !! k); cbn; discriminate.
Qed.

Lemma run_selection_exclusive (call : LandApi.Call) (w w' : World) (r : LandApi.Result) :
  Sessions.selection_exclusive (state w) →
  Sessions.from_pointer call = true →
  LandApi.run call w = inr (r, w') →
  Sessions.selection_exclusive (state w').
Proof.
  intros [H1 H2] Hcall. destruct call as [cellId | | x]; unfold LandApi.run.
  - rewrite selectCell_run. intros [= _ <-]. rewrite state_commit. split.
    + intros k. unfold state_of. rewrite lookup_select. cbn [selectedCellId select].
      case_decide as E; [by subst |].
      destruct (bool_decide (selectedCellId (state w) = Some k)) eqn:Ek; cbn [andb].
      * apply bool_decide_eq_true_1 in Ek. rewrite (H2 k Ek).
        destruct (cells (state w) !! k); cbn; discriminate.
      * apply bool_decide_eq_false_1 in Ek. intros Hk. destruct Ek. by apply H1.
    + intros k [= <-]. exact Hcall.
  - rewrite clearSelection_run. intros [= _ <-]. rewrite state_commit. split; [| done].
    intros k. unfold state_of. rewrite lookup_clear.
    destruct (bool_decide (selectedCellId (state w) = Some k)) eqn:Ek; cbn [andb].
    + apply bool_decide_eq_true_1 in Ek. rewrite (H2 k Ek).
      destruct (cells (state w) !! k); cbn; discriminate.
    + apply bool_decide_eq_false_1 in Ek. intros Hk. destruct Ek. by apply H1.
  - rewrite setHoveredCell_run. intros [= _ <-].
    case_bool_decide as Ex; [done |]. rewrite state_commit. split.
    + intros k Hk. rewrite selectedCellId_hover. by eapply H1, state_of_hover_SELECTED.
    + intros k. rewrite selectedCellId_hover. apply H2.
Qed.

Lemma from_pointer_selection_exclusive (w : World) :
  Sessions.reachable_from_pointer w → Sessions.selection_exclusive (state w).
Proof.
  induction 1 as [w Hinit | w c r w' _ IH Hc Hrun | w w' _ IH Henv].
  - rewrite Hinit. split; [| done]. intros k. unfold state_of. cbn. by rewrite lookup_empty.
  - by eapply run_selection_exclusive.
  - by rewrite Henv.
Qed.

Lemma from_pointer_reachable (w : World) :
  Sessions.reachable_from_pointer w → LandApi.reachable w.
Proof.
  induction 1 as [w Hinit | w c r w' _ IH Hc Hrun | w w' _ IH Henv].
  - by apply LandApi.reachable_init.
  - by eapply LandApi.reachable_call.
  - by eapply LandApi.reachable_env.
Qed.

End RecordInvariants.

(** ** Calls of the store *)

Section StoreRuns.
Import Runtime Transitions.

(** X1. [clearSelection] always succeeds and always runs
    [notifySubscribers] once, also when nothing is selected: then it
    leaves [state] as it is, and a second call in a row notifies again.
    It resets [selectedCellId] to [null], keeps [hoveredCellId], turns
    the record of the previously selected cell to [DEFAULT] and touches
    no other record; no record is removed. *)
Theorem clear_always_notifies (w : World) :
  ∃ w1 w2,
    LandApi.clearSelection w = inr (LandApi.ClearResult true, w1) ∧
    LandApi.clearSelection w1 = inr (LandApi.ClearResult true, w2) ∧
    selectedCellId (state w1) = None ∧
    hoveredCellId (state w1) = hoveredCellId (state w) ∧
    (∀ k, cells (state w1) !! k =
          if bool_decide (selectedCellId (state w) = Some k) && Js.truthy_str k
          then (λ c, Domain.with_state c Domain.DEFAULT) <$> cells (state w) !! k
          else cells (state w) !! k) ∧
    trace w1 = trace w ++ [Notify (subscribers w) (state w1)] ∧
    (selectedCellId (state w) = None → state w1 = state w) ∧
    state w2 = state w1 ∧
    trace w2 = trace w1 ++ [Notify (subscribers w) (state w1)].
Proof.
  eexists _, _. split; [apply clearSelection_run |]. split; [apply clearSelection_run |].
  rewrite !state_commit. cbn [commit log set_state trace subscribers].
  split; [done |]. split; [done |]. split; [apply lookup_clear |]. split; [done |].
  split; [| split; [| done]].
  - intros Hsel. destruct (state w) as [sel hov cs]. cbn in *. by subst.
  - reflexivity.
Qed.

(** X2. Selecting a cell and clearing the selection, from a store with
    nothing selected.  Afterwards nothing is selected and the hover is
    what it was; the only trace left in [cells] is the record of the
    cell, which is kept (created, if it was absent) with the state
    [DEFAULT].  If the record was there and [DEFAULT], [state] is back
    to what it was.  The record ends as [DEFAULT] also when the cell is
    the hovered one, whose record was [HOVERED] before. *)
Theorem select_clear_round_trip (w : World) (A : string) :
  Js.truthy_str A = true →
  selectedCellId (state w) = None →
  ∃ cell w1 w2,
    LandApi.selectCell A w = inr (LandApi.SelectResult true A (Some cell), w1) ∧
    LandApi.clearSelection w1 = inr (LandApi.ClearResult true, w2) ∧
    cell = Domain.with_state
             (default (Domain.createCell A Domain.no_options (clock w)) (cells (state w) !! A))
             Domain.SELECTED ∧
    selectedCellId (state w2) = None ∧
    hoveredCellId (state w2) = hoveredCellId (state w) ∧
    cells (state w2) = <[A := Domain.with_state cell Domain.DEFAULT]> (cells (state w)) ∧
    state_of A (state w2) = Some Domain.DEFAULT ∧
    (state_of A (state w) = Some Domain.DEFAULT → state w2 = state w).
Proof.
  intros HA Hsel.
  eexists _, _, _.
  split; [rewrite selectCell_run, lookup_select, decide_True by done; reflexivity |].
  split; [apply clearSelection_run |].
  rewrite !state_commit. split; [done |]. split; [done |]. split; [done |].
  assert (Hcells : cells (clear (select A (clock w) (state w)))
                   = <[A := Domain.with_state
                              (Domain.with_state
                                 (default (Domain.createCell A Domain.no_options (clock w))
                                    (cells (state w) !! A)) Domain.SELECTED)
                              Domain.DEFAULT]> (cells (state w))).
  { apply map_eq. intros k. rewrite lookup_clear. cbn [selectedCellId select].
    destruct (decide (A = k)) as [<- | Hne].
    - rewrite bool_decide_eq_true_2, HA by done. cbn [andb].
      rewrite lookup_select, decide_True by done. by rewrite lookup_insert_eq.
    - rewrite bool_decide_eq_false_2 by congruence. cbn [andb].
      rewrite lookup_select, decide_False by done.
      rewrite Hsel, bool_decide_eq_false_2 by done. cbn [andb].
      by rewrite lookup_insert_ne. }
  split; [exact Hcells |]. split.
  - unfold state_of. rewrite Hcells. by rewrite lookup_insert_eq.
  - unfold state_of. intros HD.
    destruct (cells (state w) !! A) as [c |] eqn:Ec; [| discriminate].
    cbn in HD. injection HD as HD.
    destruct (state w) as [sel hov cs] eqn:Es. unfold clear in *. cbn in *. subst sel.
    f_equal. rewrite Hcells. apply insert_id. rewrite Ec. f_equal.
    destruct c. cbn in *. by subst.
Qed.

Lemma select_clear_round_trip_witness :
  ∃ cell w1 w2,
    LandApi.selectCell Examples.cellA Examples.fresh
      = inr (LandApi.SelectResult true Examples.cellA (Some cell), w1) ∧
    LandApi.clearSelection w1 = inr (LandApi.ClearResult true, w2) ∧
    selectedCellId (state w2) = None ∧
    state_of Examples.cellA (state w2) = Some Domain.DEFAULT.
Proof.
  destruct (select_clear_round_trip Examples.fresh Examples.cellA)
    as (cell & w1 & w2 & H1 & H2 & _ & Hsel & _ & _ & HA & _).
  - reflexivity.
  - reflexivity.
  - exists cell, w1, w2. repeat split; assumption.
Defined.

(** X3. [subscribe] and the function it returns treat [subscribers] as a
    set.  Subscribing adds the callback, at the end, unless it is there
    already, so that a callback subscribed twice is still notified once
    per change; unsubscribing removes it and nothing else; neither
    changes [state] or notifies.  A notification that follows goes to
    the callback exactly when it is subscribed. *)
Theorem subscribe_set_semantics (w : World) (cb : Callback) :
  NoDup (subscribers w) →
  ∃ w1 w2,
    LandApi.subscribe cb w = inr (tt, w1) ∧
    LandApi.subscribe cb w1 = inr (tt, w1) ∧
    LandApi.unsubscribe cb w1 = inr (tt, w2) ∧
    NoDup (subscribers w1) ∧ NoDup (subscribers w2) ∧
    (∀ c, c ∈ subscribers w1 ↔ c = cb ∨ c ∈ subscribers w) ∧
    (∀ c, c ∈ subscribers w2 ↔ c ∈ subscribers w ∧ c ≠ cb) ∧
    (cb ∉ subscribers w →
     subscribers w1 = subscribers w ++ [cb] ∧ subscribers w2 = subscribers w) ∧
    state w1 = state w ∧ trace w1 = trace w ∧
    state w2 = state w ∧ trace w2 = trace w ∧
    (∃ w' callbacks snapshot,
       LandApi.clearSelection w1 = inr (LandApi.ClearResult true, w') ∧
       trace w' = trace w ++ [Notify callbacks snapshot] ∧
       count_occ Nat.eq_dec callbacks cb = 1) ∧
    (∃ w' callbacks snapshot,
       LandApi.clearSelection w2 = inr (LandApi.ClearResult true, w') ∧
       trace w' = trace w ++ [Notify callbacks snapshot] ∧
       count_occ Nat.eq_dec callbacks cb = 0).
Proof.
  intros Hnd.
  set (l1 := if bool_decide (cb ∈ subscribers w) then subscribers w else subscribers w ++ [cb]).
  assert (Hin1 : ∀ c, c ∈ l1 ↔ c = cb ∨ c ∈ subscribers w).
  { intros c. subst l1. case_bool_decide as E.
    - split; [auto | intros [-> | H]; done].
    - rewrite elem_of_app, list_elem_of_singleton. tauto. }
  assert (Hnd1 : NoDup l1).
  { subst l1. case_bool_decide as E; [done |].
    apply NoDup_app. split; [done |]. split; [| apply NoDup_singleton].
    intros c Hc. rewrite list_elem_of_singleton. intros ->. done. }
  assert (Hagain : (if bool_decide (cb ∈ l1) then l1 else l1 ++ [cb]) = l1).
  { rewrite bool_decide_eq_true_2; [done |]. apply Hin1. by left. }
  assert (Hin2 : ∀ c, c ∈ filter (λ c, c ≠ cb) l1 ↔ c ∈ subscribers w ∧ c ≠ cb).
  { intros c. rewrite list_elem_of_filter, Hin1. split.
    - intros [Hne [-> | H]]; done.
    - intros [H Hne]. auto. }
  assert (Hfresh : cb ∉ subscribers w → l1 = subscribers w ++ [cb] ∧
                                       filter (λ c, c ≠ cb) l1 = subscribers w).
  { intros Hcb. subst l1. rewrite bool_decide_eq_false_2 by done. split; [done |].
    rewrite filter_app. rewrite filter_cons_False by (intros H; by apply H).
    rewrite filter_nil, app_nil_r.
    clear - Hcb. induction (subscribers w) as [| c l IH]; [done |].
    rewrite filter_cons_True.
    - f_equal. apply IH. intros H. apply Hcb. by right.
    - intros ->. apply Hcb. by left. }
  exists (set_subscribers (λ _, l1) w), (set_subscribers (λ _, filter (λ c, c ≠ cb) l1) w).
  split; [reflexivity |].
  split; [unfold LandApi.subscribe, modify, set_subscribers; cbn; by rewrite Hagain |].
  split; [reflexivity |].
  cbn [set_subscribers subscribers state trace].
  split; [done |]. split; [by apply NoDup_filter |].
  split; [done |]. split; [done |]. split; [done |].
  split; [done |]. split; [done |]. split; [done |]. split; [done |].
  split.
  - eexists _, _, _. split; [apply clearSelection_run |]. split; [reflexivity |].
    cbn [set_subscribers subscribers].
    apply NoDup_count_occ' ; [| apply list_elem_of_In, Hin1; by left].
    by apply NoDup_ListNoDup.
  - eexists _, _, _. split; [apply clearSelection_run |]. split; [reflexivity |].
    cbn [set_subscribers subscribers].
    apply count_occ_not_In. rewrite <- list_elem_of_In, Hin2. tauto.
Qed.

Lemma subscribe_set_semantics_witness :
  ∃ w1 w2,
    LandApi.subscribe 2%nat Examples.fresh = inr (tt, w1) ∧
    LandApi.unsubscribe 2%nat w1 = inr (tt, w2) ∧
    subscribers w1 = [1%nat; 2%nat] ∧ subscribers w2 = [1%nat].
Proof.
  destruct (subscribe_set_semantics Examples.fresh 2%nat)
    as (w1 & w2 & H1 & _ & H2 & _ & _ & _ & _ & Hf & _).
  - apply NoDup_singleton.
  - exists w1, w2. split; [exact H1 |]. split; [exact H2 |].
    apply Hf. vm_compute. intros H%list_elem_of_singleton. discriminate.
Defined.

(** X4. Every record of a store that started empty and changed through
    the three mutators only is of the store's own making: its [id] is the
    key it is filed under, it has no owner ([isCellOwned] is false) and
    no structures, and its state is [DEFAULT], [HOVERED] or [SELECTED],
    never [OWNED] or [FOREIGN]. *)
Theorem records_are_plain (w : World) (k : string) (c : Domain.Cell) :
  LandApi.reachable w →
  cells (state w) !! k = Some c →
  Domain.id c = k ∧
  Domain.ownerId c = None ∧
  Domain.isCellOwned c = false ∧
  Domain.structures c = [] ∧
  Domain.state c ≠ Domain.OWNED ∧
  Domain.state c ≠ Domain.FOREIGN.
Proof.
  intros Hreach Hk.
  destruct (reachable_plain w Hreach k c Hk) as (Hid & Hown & Hstr & Hst).
  unfold Domain.isCellOwned. rewrite Hown.
  repeat split; try done; destruct Hst as [-> | [-> | ->]]; done.
Qed.

Lemma records_are_plain_witness :
  Domain.id (Domain.with_state
               (Domain.createCell Examples.cellA Domain.no_options 1762128000000)
               Domain.SELECTED) = Examples.cellA.
Proof.
  refine (proj1 (records_are_plain Examples.selected Examples.cellA _ _ _)).
  - apply (LandApi.reachable_env
             (commit (select Examples.cellA (clock Examples.fresh) (state Examples.fresh))
                Examples.fresh)).
    + apply (LandApi.reachable_call Examples.fresh (LandApi.CallSelect Examples.cellA)
               (LandApi.SelectResult true Examples.cellA
                  (cells (select Examples.cellA (clock Examples.fresh) (state Examples.fresh))
                     !! Examples.cellA))).
      * apply LandApi.reachable_init. reflexivity.
      * apply selectCell_run.
    + vm_compute. reflexivity.
  - vm_compute. reflexivity.
Defined.

(** X5. In such a store a record is [HOVERED] only if it is the record of
    [hoveredCellId], which is then a non-empty string: at most one
    record is [HOVERED] at any time. *)
Theorem one_hovered_record (w : World) (k : string) :
  LandApi.reachable w →
  state_of k (state w) = Some Domain.HOVERED →
  hoveredCellId (state w) = Some k ∧
  Js.truthy_str k = true ∧
  ∀ j, state_of j (state w) = Some Domain.HOVERED → j = k.
Proof.
  intros Hreach Hk.
  pose proof (reachable_hover_exclusive w Hreach) as H.
  destruct (H k Hk) as [Hh Ht]. split; [done |]. split; [done |].
  intros j Hj. destruct (H j Hj) as [Hh' _]. congruence.
Qed.

Lemma one_hovered_record_witness :
  hoveredCellId (state Examples.hovering) = Some Examples.cellB.
Proof.
  refine (proj1 (one_hovered_record Examples.hovering Examples.cellB _ _)).
  - apply (LandApi.reachable_env
             (commit (hover (Some Examples.cellB) (clock Examples.fresh) (state Examples.fresh))
                Examples.fresh)).
    + apply (LandApi.reachable_call Examples.fresh (LandApi.CallHover (Some Examples.cellB))
               (LandApi.HoverResult true (Some Examples.cellB))).
      * apply LandApi.reachable_init. reflexivity.
      * apply setHoveredCell_run.
    + vm_compute. reflexivity.
  - vm_compute. reflexivity.
Defined.


(** X7. When [selectCell] is only ever given non-empty ids, as
    [handlePointerAction] guarantees, a record is [SELECTED] exactly when
    it is the record of [selectedCellId]: selecting another cell or
    clearing the selection leaves no [SELECTED] record behind. *)
Theorem one_selected_record (w : World) (k : string) :
  Sessions.reachable_from_pointer w →
  (state_of k (state w) = Some Domain.SELECTED ↔ selectedCellId (state w) = Some k) ∧
  (selectedCellId (state w) = None →
   ∀ j, state_of j (state w) ≠ Some Domain.SELECTED).
Proof.
  intros Hreach.
  destruct (from_pointer_selection_exclusive w Hreach) as [H1 H2].
  pose proof (reachable_selection_recorded w (from_pointer_reachable w Hreach)) as H3.
  split; [split; [apply H1 | apply H3] |].
  intros Hnone j Hj. apply H1 in Hj. congruence.
Qed.

Lemma one_selected_record_witness :
  state_of Examples.cellB (state Examples.selected) = Some Domain.SELECTED
  ↔ selectedCellId (state Examples.selected) = Some Examples.cellB.
Proof.
  refine (proj1 (one_selected_record Examples.selected Examples.cellB _)).
  apply (Sessions.from_pointer_env
           (commit (select Examples.cellA (clock Examples.fresh) (state Examples.fresh))
              Examples.fresh)).
  - apply (Sessions.from_pointer_call Examples.fresh (LandApi.CallSelect Examples.cellA)
             (LandApi.SelectResult true Examples.cellA
                (cells (select Examples.cellA (clock Examples.fresh) (state Examples.fresh))
                   !! Examples.cellA))).
    + apply Sessions.from_pointer_init. reflexivity.
    + reflexivity.
    + apply selectCell_run.
  - vm_compute. reflexivity.
Defined.

(** X8. The three getters read [state] and change nothing.  [getCell]
    gives no record ([null]) for an id the store has never seen and does
    not create one; after [selectCell(id)] it gives the record the call
    returned and [getSelectedCellId] gives [id]; after
    [setHoveredCell(x)], [getHoveredCellId] gives [x]; after
    [clearSelection], [getSelectedCellId] gives [null]. *)
Theorem getters_read_store (w : World) (cellId : string) (x : option string) :
  (cells (state w) !! cellId = None → LandApi.getCell cellId w = inr (None, w)) ∧
  (∃ cell w1,
     LandApi.selectCell cellId w = inr (LandApi.SelectResult true cellId (Some cell), w1) ∧
     LandApi.getCell cellId w1 = inr (Some cell, w1) ∧
     LandApi.getSelectedCellId w1 = inr (Some cellId, w1) ∧
     LandApi.getHoveredCellId w1 = inr (hoveredCellId (state w), w1)) ∧
  (∃ w1,
     LandApi.setHoveredCell x w = inr (LandApi.HoverResult true x, w1) ∧
     LandApi.getHoveredCellId w1 = inr (x, w1) ∧
     LandApi.getSelectedCellId w1 = inr (selectedCellId (state w), w1)) ∧
  (∃ w1,
     LandApi.clearSelection w = inr (LandApi.ClearResult true, w1) ∧
     LandApi.getSelectedCellId w1 = inr (None, w1) ∧
     LandApi.getHoveredCellId w1 = inr (hoveredCellId (state w), w1)).
Proof.
  unfold LandApi.getCell, LandApi.cells_get, LandApi.getSelectedCellId,
    LandApi.getHoveredCellId, gets.
  split; [by intros -> |]. split; [| split].
  - eexists _, _.
    split; [rewrite selectCell_run, lookup_select, decide_True by done; reflexivity |].
    rewrite state_commit, lookup_select, decide_True by done. done.
  - eexists. split; [apply setHoveredCell_run |].
    case_bool_decide as E; [by subst |].
    by rewrite state_commit, hoveredCellId_hover, selectedCellId_hover.
  - eexists. split; [apply clearSelection_run |]. by rewrite state_commit.
Qed.

(** X9. A hover that passes over a cell resets its record.  When the
    pointer enters a cell [a] that is not selected and leaves it again,
    for another cell or for none, the record of [a] is [HOVERED] in
    between and [DEFAULT] afterwards, whatever its state was before: a
    record that was [OWNED] or [FOREIGN] does not get its state back. *)
Theorem hover_resets_record (w : World) (a : string) (y : option string) :
  Js.truthy_str a = true →
  hoveredCellId (state w) ≠ Some a →
  state_of a (state w) ≠ Some Domain.SELECTED →
  y ≠ Some a →
  ∃ w1 w2,
    LandApi.setHoveredCell (Some a) w = inr (LandApi.HoverResult true (Some a), w1) ∧
    LandApi.setHoveredCell y w1 = inr (LandApi.HoverResult true y, w2) ∧
    state_of a (state w1) = Some Domain.HOVERED ∧
    state_of a (state w2) = Some Domain.DEFAULT ∧
    hoveredCellId (state w2) = y ∧
    notified (trace w2) = notified (trace w) ++ [state w1; state w2].
Proof.
  intros Ha Hhov Hsel Hy.
  eexists _, _. split; [apply setHoveredCell_run |]. split; [apply setHoveredCell_run |].
  rewrite (bool_decide_eq_false_2 (hoveredCellId (state w) = Some a)) by done.
  rewrite state_commit, hoveredCellId_hover.
  rewrite (bool_decide_eq_false_2 (Some a = y)) by congruence.
  rewrite !state_commit.
  assert (H1 : state_of a (hover (Some a) (clock w) (state w)) = Some Domain.HOVERED).
  { unfold state_of. rewrite lookup_hover, bool_decide_eq_false_2 by done.
    rewrite lookup_promote_hovered, bool_decide_eq_true_2, Ha by done. cbn [andb]. cbn zeta.
    rewrite lookup_demote_hovered.
    rewrite (bool_decide_eq_false_2 (hoveredCellId (state w) = Some a)) by done. cbn [andb].
    unfold state_of in Hsel.
    destruct (cells (state w) !! a) as [c |]; cbn in *.
    - rewrite bool_decide_eq_false_2 by congruence. done.
    - done. }
  split; [exact H1 |]. split; [| split].
  - unfold state_of. rewrite lookup_hover.
    rewrite hoveredCellId_hover, bool_decide_eq_false_2 by congruence.
    rewrite lookup_promote_hovered, bool_decide_eq_false_2 by done. cbn [andb].
    rewrite lookup_demote_hovered, bool_decide_eq_true_2, Ha by done. cbn [andb].
    unfold state_of in H1. rewrite bool_decide_eq_true_2 by done.
    destruct (cells (hover (Some a) (clock w) (state w)) !! a); [done | discriminate].
  - apply hoveredCellId_hover.
  - cbn [commit log set_state trace]. rewrite !notified_app. cbn. by rewrite <- app_assoc.
Qed.

Lemma hover_resets_record_witness :
  ∃ w1 w2,
    LandApi.setHoveredCell (Some Examples.cellA) Examples.fresh
      = inr (LandApi.HoverResult true (Some Examples.cellA), w1) ∧
    LandApi.setHoveredCell None w1 = inr (LandApi.HoverResult true None, w2) ∧
    state_of Examples.cellA (state w2) = Some Domain.DEFAULT.
Proof.
  destruct (hover_resets_record Examples.fresh Examples.cellA None)
    as (w1 & w2 & H1 & H2 & _ & HD & _).
  - reflexivity.
  - vm_compute. discriminate.
  - vm_compute. discriminate.
  - discriminate.
  - exists w1, w2. repeat split; assumption.
Defined.

End StoreRuns.

(** ** The interaction layer *)

Section InteractionRuns.
Import Runtime Transitions.

Lemma trace_after_hover (x : option string) (w : World) :
  trace (after_hover x w) =
  trace w ++ (if bool_decide (hoveredCellId (state w) = x) then []
              else [Notify (subscribers w) (state (after_hover x w))]).
Proof.
  unfold after_hover. case_bool_decide; [by rewrite app_nil_r | reflexivity].
Qed.

(** X10. What [handlePointerAction] ignores and what it does not.  An
    action type other than ['select'], ['hover-enter'] and ['hover-exit']
    does nothing, and so does ['select'] or ['hover-enter'] without a
    cell ([null] or the empty string).  ['hover-exit'] without a cell
    emits [CELL_UNHOVERED] for [context.previousCellId], which is
    [undefined] when the context has no such property; with a cell it
    emits it for that cell.  In both cases it resets the store's
    [hoveredCellId] to [null], whether or not the exited cell is the
    hovered one. *)
Theorem pointer_action_dispatch
    (actionType : string) (cellId : option string) (context : Events.Object) (w : World) :
  (actionType ≠ "select" → actionType ≠ "hover-enter" → actionType ≠ "hover-exit" →
   Interactions.handlePointerAction actionType cellId context w = inr (tt, w)) ∧
  (Js.truthy cellId = false → actionType ≠ "hover-exit" →
   Interactions.handlePointerAction actionType cellId context w = inr (tt, w)) ∧
  ∃ w',
    Interactions.handlePointerAction "hover-exit" cellId context w = inr (tt, w') ∧
    emitted (trace w') =
      emitted (trace w)
      ++ [Events.cellUnhovered
            (if Js.truthy cellId then Events.of_id cellId
             else default Events.VUndefined (context !! "previousCellId"))
            (clock w)] ∧
    hoveredCellId (state w') = None ∧
    ∀ exited,
      Events.cellUnhovered exited (clock w)
      = Events.mkEvent "CELL_UNHOVERED" {[ "cellId" := exited ]} (clock w).
Proof.
  assert (Heqb : ∀ s : string, actionType ≠ s → String.eqb actionType s = false).
  { intros s Hs. by apply String.eqb_neq. }
  assert (Hexit : ∀ v, ∃ w',
            Interactions.handleCellHoverExit v w = inr (tt, w') ∧
            emitted (trace w') = emitted (trace w) ++ [Events.cellUnhovered v (clock w)] ∧
            hoveredCellId (state w') = None ∧
            ∀ exited,
              Events.cellUnhovered exited (clock w)
              = Events.mkEvent "CELL_UNHOVERED" {[ "cellId" := exited ]} (clock w)).
  { intros v. eexists. split; [apply handleCellHoverExit_run |].
    destruct (after_hover_frame None (after_emit (Events.cellUnhovered v (clock w)) w))
      as (Hs & _ & _ & He).
    destruct (after_emit_frame (Events.cellUnhovered v (clock w)) w) as (_ & _ & _ & He').
    rewrite He, He', Hs. split; [done |]. split; [apply hoveredCellId_hover | done]. }
  split; [| split].
  - intros H1 H2 H3. unfold Interactions.handlePointerAction.
    rewrite !Heqb by done. by destruct cellId as [c |]; [destruct (Js.truthy_str c) |].
  - intros Hc H3. unfold Interactions.handlePointerAction.
    destruct cellId as [c |]; cbn in Hc; rewrite ?Hc, Heqb by done; reflexivity.
  - unfold Interactions.handlePointerAction.
    destruct cellId as [c |]; cbn [Js.truthy]; [destruct (Js.truthy_str c) |];
      cbn [String.eqb when]; apply Hexit.
Qed.

(** X11. The event comes first.  [handleCellSelect] hands the
    [CELL_SELECTED] event to the listeners of that type before it calls
    the store, so listeners run while [state] is still unchanged; the
    subscribers of the store are notified after them, with the new
    state.  [handleCellHoverEnter] emits [CELL_HOVERED] on every call,
    also when the cell is the hovered one already and the store
    therefore notifies nobody. *)
Theorem event_before_notification (cellId : string) (metadata : Events.Object) (w : World) :
  (∃ w',
     Interactions.handleCellSelect cellId metadata w = inr (tt, w') ∧
     selectedCellId (state w') = Some cellId ∧
     trace w' =
       trace w
       ++ [Emit (Events.cellSelected (Events.VString cellId) metadata (clock w))
             (default [] (eventListeners w !! Events.EventTypes.CELL_SELECTED));
           Notify (subscribers w) (state w')] ∧
     Events.cellSelected (Events.VString cellId) metadata (clock w)
     = Events.mkEvent "CELL_SELECTED"
         (metadata ∪ {[ "cellId" := Events.VString cellId ]}) (clock w)) ∧
  (∃ w',
     Interactions.handleCellHoverEnter cellId w = inr (tt, w') ∧
     hoveredCellId (state w') = Some cellId ∧
     trace w' =
       trace w
       ++ Emit (Events.cellHovered (Events.VString cellId) (clock w))
            (default [] (eventListeners w !! Events.EventTypes.CELL_HOVERED))
          :: (if bool_decide (hoveredCellId (state w) = Some cellId) then []
              else [Notify (subscribers w) (state w')]) ∧
     Events.cellHovered (Events.VString cellId) (clock w)
     = Events.mkEvent "CELL_HOVERED" {[ "cellId" := Events.VString cellId ]} (clock w)).
Proof.
  split.
  - eexists. split; [apply handleCellSelect_run |]. split; [reflexivity |].
    split; [| reflexivity].
    unfold after_select, commit, after_emit, log. cbn [trace state subscribers set_state].
    by rewrite <- app_assoc.
  - eexists. split; [apply handleCellHoverEnter_run |].
    split; [rewrite (proj1 (after_hover_frame _ _)); apply hoveredCellId_hover |].
    split; [| reflexivity].
    rewrite trace_after_hover. unfold after_emit, log.
    cbn [trace state subscribers]. by rewrite <- app_assoc.
Qed.

(** X12. The registry of event listeners is a set per event type.
    [addEventListener] adds the callback to the listeners of its type
    unless it is there already; the function it returns removes it from
    that type only.  An emitted event reaches the callback when it is
    registered for the type of the event, and no longer once it has
    been removed.  Removing from a type that has no listeners does
    nothing, and none of this touches the store. *)
Theorem listener_registry
    (w : World) (eventType : string) (cb : Callback) (e : Events.Event) :
  ∃ w1 w2 w1' w2' cbs1 cbs2,
    Interactions.addEventListener eventType cb w = inr (tt, w1) ∧
    Interactions.addEventListener eventType cb w1 = inr (tt, w1) ∧
    Interactions.removeEventListener eventType cb w1 = inr (tt, w2) ∧
    Interactions.emitEvent e w1 = inr (tt, w1') ∧
    Interactions.emitEvent e w2 = inr (tt, w2') ∧
    trace w1' = trace w ++ [Emit e cbs1] ∧
    trace w2' = trace w ++ [Emit e cbs2] ∧
    (cb ∈ cbs1 ↔
       Events.type e = eventType ∨ cb ∈ default [] (eventListeners w !! Events.type e)) ∧
    (cb ∈ cbs2 ↔
       Events.type e ≠ eventType ∧ cb ∈ default [] (eventListeners w !! Events.type e)) ∧
    (∀ c, c ≠ cb → (c ∈ cbs1 ↔ c ∈ default [] (eventListeners w !! Events.type e)) ∧
                   (c ∈ cbs2 ↔ c ∈ default [] (eventListeners w !! Events.type e))) ∧
    state w1 = state w ∧ state w2 = state w ∧
    (eventListeners w !! eventType = None →
     Interactions.removeEventListener eventType cb w = inr (tt, w)).
Proof.
  set (l := default [] (eventListeners w !! eventType)).
  set (l1 := if bool_decide (cb ∈ l) then l else l ++ [cb]).
  assert (Hin1 : ∀ c, c ∈ l1 ↔ c = cb ∨ c ∈ l).
  { intros c. subst l1. case_bool_decide as E.
    - split; [auto | intros [-> | H]; done].
    - rewrite elem_of_app, list_elem_of_singleton. tauto. }
  assert (Hin2 : ∀ c, c ∈ filter (λ c, c ≠ cb) l1 ↔ c ≠ cb ∧ c ∈ l).
  { intros c. rewrite list_elem_of_filter, Hin1. split.
    - intros [Hne [-> | H]]; done.
    - intros [H Hne]. auto. }
  set (m1 := <[eventType := l1]> (eventListeners w)).
  set (m2 := <[eventType := filter (λ c, c ≠ cb) l1]> m1).
  assert (Hw1 : Interactions.addEventListener eventType cb w
                = inr (tt, set_eventListeners (λ _, m1) w)) by reflexivity.
  assert (Hagain : Interactions.addEventListener eventType cb (set_eventListeners (λ _, m1) w)
                   = inr (tt, set_eventListeners (λ _, m1) w)).
  { unfold Interactions.addEventListener, modify, set_eventListeners. cbn.
    do 3 f_equal. subst m1. rewrite lookup_insert_eq. cbn.
    rewrite bool_decide_eq_true_2 by (apply Hin1; by left).
    by rewrite insert_insert_eq. }
  assert (Hw2 : Interactions.removeEventListener eventType cb (set_eventListeners (λ _, m1) w)
                = inr (tt, set_eventListeners (λ _, m2) w)).
  { unfold Interactions.removeEventListener, modify, set_eventListeners. cbn.
    subst m1. by rewrite lookup_insert_eq. }
  eexists _, _, _, _, _, _.
  split; [exact Hw1 |]. split; [exact Hagain |]. split; [exact Hw2 |].
  split; [apply emitEvent_run |]. split; [apply emitEvent_run |].
  split; [reflexivity |]. split; [reflexivity |].
  cbn [set_eventListeners eventListeners state].
  destruct (decide (Events.type e = eventType)) as [He | He].
  - rewrite He. subst m2 m1. rewrite !lookup_insert_eq. cbn [default]. fold l.
    split; [rewrite Hin1; tauto |]. split; [rewrite Hin2; tauto |].
    split; [| split; [done | split; [done |]]].
    + intros c Hc. rewrite Hin1, Hin2. tauto.
    + intros Hnone. unfold Interactions.removeEventListener, modify, set_eventListeners.
      destruct w; cbn in *. by rewrite Hnone.
  - subst m2 m1. rewrite !lookup_insert_ne by done.
    split; [tauto |]. split; [tauto |].
    split; [| split; [done | split; [done |]]].
    + intros c Hc. tauto.
    + intros Hnone. unfold Interactions.removeEventListener, modify, set_eventListeners.
      destruct w; cbn in *. by rewrite Hnone.
Qed.

(** X13. The payload of [CELL_SELECTED] is [{ cellId, ...metadata }]: the
    properties of the metadata are copied into it and one of them named
    [cellId] replaces the id of the cell.  The store is nevertheless
    asked to select the cell the handler was called with. *)
Theorem select_event_payload (cellId : string) (metadata : Events.Object) (w : World) :
  ∃ e w',
    Interactions.handleCellSelect cellId metadata w = inr (tt, w') ∧
    emitted (trace w') = emitted (trace w) ++ [e] ∧
    Events.type e = Events.EventTypes.CELL_SELECTED ∧
    Events.timestamp e = clock w ∧
    Events.prop (Events.payload e) "cellId"
      = default (Events.VString cellId) (metadata !! "cellId") ∧
    (∀ key, key ≠ "cellId" → Events.prop (Events.payload e) key = Events.prop metadata key) ∧
    selectedCellId (state w') = Some cellId.
Proof.
  eexists _, _. split; [apply handleCellSelect_run |].
  match goal with |- context [after_select ?c (after_emit ?e ?w)] =>
    destruct (after_select_frame c (after_emit e w)) as (Hs & _ & _ & He);
    destruct (after_emit_frame e w) as (_ & _ & _ & He')
  end.
  split; [rewrite He, He'; reflexivity |].
  split; [reflexivity |]. split; [reflexivity |].
  unfold Events.prop, Events.cellSelected, Events.createEvent, Events.spread_after.
  cbn [Events.payload]. split; [| split; [| reflexivity]].
  - destruct (metadata !! "cellId") as [v |] eqn:E.
    + by rewrite (lookup_union_Some_l _ _ _ v).
    + rewrite lookup_union_r by done. by rewrite lookup_singleton_eq.
  - intros key Hkey. destruct (metadata !! key) as [v |] eqn:E.
    + by rewrite (lookup_union_Some_l _ _ _ v).
    + rewrite lookup_union_r by done. by rewrite lookup_singleton_ne.
Qed.

End InteractionRuns.

(** ** The pointer handlers *)

Section InputRuns.
Import Runtime Transitions.

Variable getCellIdFromPoint : THREE.Vector3 → option string.

Lemma onPointerDown_cases (event : WebInput.PointerEvent) (w : World) :
  WebInput.onPointerDown getCellIdFromPoint event w =
  inr (tt,
       match getCellIdFromPoint (WebInput.point event) with
       | Some c =>
           if Js.truthy_str c
           then after_select c
                  (after_emit
                     (Events.cellSelected (Events.VString c)
                        {[ "point" := Events.VVector3 (WebInput.point event);
                           "intersection" := WebInput.first_intersection event ]}
                        (clock w)) w)
           else w
       | None => w
       end).
Proof.
  destruct (getCellIdFromPoint (WebInput.point event)) as [c |] eqn:Ec.
  - destruct (Js.truthy_str c) eqn:Et.
    + by apply onPointerDown_run.
    + unfold WebInput.onPointerDown. rewrite Ec. cbn. by rewrite Et.
  - unfold WebInput.onPointerDown. by rewrite Ec.
Qed.

Lemma onPointerMove_cases (event : WebInput.PointerEvent) (w : World) :
  WebInput.onPointerMove getCellIdFromPoint event w =
  inr (tt,
       let cellId := getCellIdFromPoint (WebInput.point event) in
       let current := currentHoveredCellId w in
       if bool_decide (cellId = current) then w
       else
         let w1 := if Js.truthy current
                   then after_hover None
                          (after_emit (Events.cellUnhovered (Events.of_id current) (clock w)) w)
                   else w in
         let w2 := if Js.truthy cellId
                   then after_hover cellId
                          (after_emit (Events.cellHovered (Events.of_id cellId) (clock w1)) w1)
                   else w1 in
         set_currentHoveredCellId cellId w2).
Proof.
  unfold WebInput.onPointerMove. rewrite bind_gets.
  destruct (bool_decide (getCellIdFromPoint (WebInput.point event) = currentHoveredCellId w));
    [reflexivity |].
  cbn [negb when].
  rewrite (bind_inr _ _ _ _ _ (exit_run _ _)).
  rewrite (bind_inr _ _ _ _ _ (enter_run _ _ _)). reflexivity.
Qed.

Lemma onPointerLeave_cases (w : World) :
  WebInput.onPointerLeave w =
  inr (tt,
       if Js.truthy (currentHoveredCellId w)
       then set_currentHoveredCellId None
              (after_hover None
                 (after_emit
                    (Events.cellUnhovered (Events.of_id (currentHoveredCellId w)) (clock w)) w))
       else w).
Proof.
  unfold WebInput.onPointerLeave. rewrite bind_gets.
  destruct (Js.truthy (currentHoveredCellId w)) eqn:E; [| reflexivity].
  cbn [when].
  assert (Hexit : Interactions.handlePointerAction "hover-exit" None
                    {[ "previousCellId" := Events.of_id (currentHoveredCellId w) ]} w =
                  inr (tt, after_hover None
                             (after_emit
                                (Events.cellUnhovered (Events.of_id (currentHoveredCellId w))
                                   (clock w)) w))).
  { rewrite handlePointerAction_exit. unfold Events.prop. rewrite lookup_singleton_eq.
    apply handleCellHoverExit_run. }
  by rewrite (bind_inr _ _ _ _ _ Hexit).
Qed.

(** Pieces of a handler run that keep a property of worlds. *)
Section Pieces.

Variable P : World → Prop.
Hypothesis P_emit : ∀ e w, P w → P (after_emit e w).
Hypothesis P_hover : ∀ x w, P w → P (after_hover x w).
Hypothesis P_select : ∀ c w, Js.truthy_str c = true → P w → P (after_select c w).
Hypothesis P_memo : ∀ x w, P w → P (set_currentHoveredCellId x w).

Lemma dispatch_keeps (i : Sessions.PointerInput) (w w' : World) :
  P w → Sessions.dispatch getCellIdFromPoint i w = inr (tt, w') → P w'.
Proof.
  intros Hw. destruct i as [event | event |]; cbn [Sessions.dispatch].
  - rewrite onPointerDown_cases. intros [= <-].
    destruct (getCellIdFromPoint (WebInput.point event)) as [c |]; [| done].
    destruct (Js.truthy_str c) eqn:Et; [| done]. by apply P_select, P_emit.
  - rewrite onPointerMove_cases. intros [= <-]. cbn zeta.
    case_bool_decide; [done |]. apply P_memo.
    destruct (Js.truthy (getCellIdFromPoint (WebInput.point event)));
      destruct (Js.truthy (currentHoveredCellId w)); auto.
  - rewrite onPointerLeave_cases. intros [= <-].
    destruct (Js.truthy (currentHoveredCellId w)); auto.
Qed.

End Pieces.

Lemma dispatch_total (i : Sessions.PointerInput) (w : World) :
  ∃ w', Sessions.dispatch getCellIdFromPoint i w = inr (tt, w').
Proof.
  destruct i as [event | event |]; cbn [Sessions.dispatch]; eexists.
  - apply onPointerDown_cases.
  - apply onPointerMove_cases.
  - apply onPointerLeave_cases.
Qed.

Lemma driven_from_pointer (w : World) :
  Sessions.driven getCellIdFromPoint w → Sessions.reachable_from_pointer w.
Proof.
  induction 1 as [w Hinit _ | w i w' _ IH Hrun | w w' _ IH Henv _].
  - by apply Sessions.from_pointer_init.
  - revert Hrun. apply dispatch_keeps; [| | | | exact IH].
    + intros e v Hv. by apply (Sessions.from_pointer_env v).
    + intros x v Hv.
      by apply (Sessions.from_pointer_call v (LandApi.CallHover x) (LandApi.HoverResult true x));
        [| | apply setHoveredCell_after].
    + intros c v Hc Hv.
      by eapply (Sessions.from_pointer_call v (LandApi.CallSelect c));
        [| | apply selectCell_run].
    + intros x v Hv. by apply (Sessions.from_pointer_env v).
  - by apply (Sessions.from_pointer_env w).
Qed.

Lemma driven_memo (w : World) :
  (∀ point c, getCellIdFromPoint point = Some c → Js.truthy_str c = true) →
  Sessions.driven getCellIdFromPoint w →
  hoveredCellId (state w) = currentHoveredCellId w ∧
  (∀ c, currentHoveredCellId w = Some c → Js.truthy_str c = true).
Proof.
  intros Hf.
  induction 1 as [w Hinit Hmemo | w i w' _ [IH1 IH2] Hrun | w w' _ [IH1 IH2] Henv Hmemo].
  - rewrite Hinit, Hmemo. done.
  - destruct i as [event | event |]; cbn [Sessions.dispatch] in Hrun.
    + rewrite onPointerDown_cases in Hrun. injection Hrun as <-.
      destruct (getCellIdFromPoint (WebInput.point event)) as [c |]; [| done].
      destruct (Js.truthy_str c); [| done].
      match goal with |- context [after_select ?c (after_emit ?e ?w)] =>
        destruct (after_select_frame c (after_emit e w)) as (-> & -> & _ & _);
        destruct (after_emit_frame e w) as (-> & -> & _ & _)
      end. done.
    + rewrite onPointerMove_cases in Hrun. injection Hrun as <-. cbn zeta.
      case_bool_decide as E; [done |].
      cbn [set_currentHoveredCellId currentHoveredCellId state].
      split; [| intros c Hc; by eapply Hf].
      destruct (getCellIdFromPoint (WebInput.point event)) as [c |] eqn:Ec.
      * cbn [Js.truthy]. rewrite (Hf _ _ Ec).
        rewrite (proj1 (after_hover_frame _ _)). apply hoveredCellId_hover.
      * cbn [Js.truthy].
        destruct (currentHoveredCellId w) as [m |] eqn:Em; [| done].
        cbn [Js.truthy]. rewrite (IH2 m) by done.
        rewrite (proj1 (after_hover_frame _ _)). apply hoveredCellId_hover.
    + rewrite onPointerLeave_cases in Hrun. injection Hrun as <-.
      destruct (Js.truthy (currentHoveredCellId w)) eqn:Et; [| done].
      cbn [set_currentHoveredCellId currentHoveredCellId state].
      split; [| done].
      rewrite (proj1 (after_hover_frame _ _)). apply hoveredCellId_hover.
  - rewrite Henv, Hmemo. done.
Qed.

End InputRuns.

Section InputProperties.
Import Runtime Transitions.

(** X14. The hover memo of the input layer and the store agree.  When the
    store and the memo change through [onPointerDown], [onPointerMove]
    and [onPointerLeave] only, and the resolver never returns the empty
    string, then after every handler [hoveredCellId] of the store
    equals [currentHoveredCellId] of the input layer.  Such a store is
    one in which [selectCell] has received non-empty ids only, so that
    exactly the selected cell has a [SELECTED] record and at most the
    hovered cell a [HOVERED] one. *)
Theorem memo_agrees_with_store
    (getCellIdFromPoint : THREE.Vector3 → option string) (w : World) :
  (∀ point c, getCellIdFromPoint point = Some c → Js.truthy_str c = true) →
  Sessions.driven getCellIdFromPoint w →
  hoveredCellId (state w) = currentHoveredCellId w ∧
  Js.truthy (currentHoveredCellId w) = bool_decide (is_Some (currentHoveredCellId w)) ∧
  Sessions.reachable_from_pointer w ∧
  (∀ k, state_of k (state w) = Some Domain.SELECTED ↔ selectedCellId (state w) = Some k) ∧
  (∀ k, state_of k (state w) = Some Domain.HOVERED → currentHoveredCellId w = Some k).
Proof.
  intros Hf Hd.
  destruct (driven_memo _ w Hf Hd) as [Hm Hv].
  pose proof (driven_from_pointer _ w Hd) as Hr.
  split; [exact Hm |]. split; [| split; [exact Hr | split]].
  - destruct (currentHoveredCellId w) as [c |]; [| done].
    cbn [Js.truthy]. rewrite (Hv c) by done. by rewrite bool_decide_eq_true_2.
  - intros k. split.
    + apply (from_pointer_selection_exclusive w Hr).
    + apply (reachable_selection_recorded w (from_pointer_reachable w Hr)).
  - intros k Hk. rewrite <- Hm.
    apply (reachable_hover_exclusive w (from_pointer_reachable w Hr) k Hk).
Qed.

Lemma memo_agrees_with_store_witness :
  ∃ w,
    WebInput.onPointerMove Examples.always_cellA Examples.pointer_at_10_20 Examples.fresh
      = inr (tt, w) ∧
    hoveredCellId (state w) = currentHoveredCellId w.
Proof.
  destruct (dispatch_total Examples.always_cellA
              (Sessions.PointerMove Examples.pointer_at_10_20) Examples.fresh) as [w Hw].
  exists w. split; [exact Hw |].
  refine (proj1 (memo_agrees_with_store Examples.always_cellA w _ _)).
  - intros point c [= <-]. reflexivity.
  - apply (Sessions.driven_input _ Examples.fresh
             (Sessions.PointerMove Examples.pointer_at_10_20)); [| exact Hw].
    apply Sessions.driven_init; reflexivity.
Defined.

(** X15. A subscriber is never stale.  A subscriber that starts from the
    initial state and keeps the last snapshot it was notified with, as
    [HexGrid] does, holds the current [state] after every call of the
    store and after every pointer handler: whenever [state] changes,
    [notifySubscribers] runs afterwards with the new state. *)
Theorem subscribers_never_stale (w : World) :
  Sessions.last_snapshot w = state w →
  (∀ call, ∃ r w',
     LandApi.run call w = inr (r, w') ∧ Sessions.last_snapshot w' = state w') ∧
  (∀ getCellIdFromPoint input, ∃ w',
     Sessions.dispatch getCellIdFromPoint input w = inr (tt, w') ∧
     Sessions.last_snapshot w' = state w').
Proof.
  intros Hw.
  assert (Hcommit : ∀ s v, Sessions.last_snapshot (commit s v) = state (commit s v)).
  { intros s v. unfold Sessions.last_snapshot, commit, log. cbn [trace state set_state].
    rewrite notified_app. cbn. by rewrite last_snoc. }
  assert (Hhover : ∀ x v, Sessions.last_snapshot v = state v →
                          Sessions.last_snapshot (after_hover x v) = state (after_hover x v)).
  { intros x v Hv. unfold after_hover. case_bool_decide; [done | apply Hcommit]. }
  split.
  - intros [cellId | | x]; unfold LandApi.run.
    + eexists _, _. split; [apply selectCell_run | apply Hcommit].
    + eexists _, _. split; [apply clearSelection_run | apply Hcommit].
    + eexists _, _. split; [apply setHoveredCell_after | by apply Hhover].
  - intros f i. destruct (dispatch_total f i w) as [w' Hrun]. exists w'.
    split; [exact Hrun |]. revert Hrun.
    apply (dispatch_keeps f (λ v, Sessions.last_snapshot v = state v)); [| | | | exact Hw].
    + intros e v Hv. unfold Sessions.last_snapshot, after_emit, log in *.
      cbn [trace state]. rewrite notified_app. cbn. by rewrite app_nil_r.
    + exact Hhover.
    + intros c v _ _. apply Hcommit.
    + done.
Qed.

Lemma subscribers_never_stale_witness :
  ∃ r w',
    LandApi.run (LandApi.CallSelect Examples.cellA) Examples.fresh = inr (r, w') ∧
    Sessions.last_snapshot w' = state w'.
Proof.
  refine (proj1 (subscribers_never_stale Examples.fresh _) (LandApi.CallSelect Examples.cellA)).
  reflexivity.
Defined.

(** X16. [resetInputState] clears the memo of the input layer and nothing
    else: the store keeps its [hoveredCellId].  While the pointer rests
    on a hovered cell, a reset makes [onPointerLeave] do nothing, so the
    store's hover is not cleared by it, and makes the next move over the
    same cell emit [CELL_HOVERED] once more, without any change of
    [state] and without a notification. *)
Theorem reset_forgets_hover
    (getCellIdFromPoint : THREE.Vector3 → option string)
    (event : WebInput.PointerEvent) (w : World) (c : string) :
  currentHoveredCellId w = Some c →
  hoveredCellId (state w) = Some c →
  Js.truthy_str c = true →
  getCellIdFromPoint (WebInput.point event) = Some c →
  ∃ w0 w1,
    WebInput.resetInputState w = inr (tt, w0) ∧
    state w0 = state w ∧ trace w0 = trace w ∧
    currentHoveredCellId w0 = None ∧
    WebInput.onPointerLeave w0 = inr (tt, w0) ∧
    WebInput.onPointerMove getCellIdFromPoint event w = inr (tt, w) ∧
    WebInput.onPointerMove getCellIdFromPoint event w0 = inr (tt, w1) ∧
    emitted (trace w1) = emitted (trace w) ++ [Events.cellHovered (Events.VString c) (clock w)] ∧
    notified (trace w1) = notified (trace w) ∧
    state w1 = state w ∧
    currentHoveredCellId w1 = Some c ∧
    Events.cellHovered (Events.VString c) (clock w)
    = Events.mkEvent "CELL_HOVERED" {[ "cellId" := Events.VString c ]} (clock w).
Proof.
  intros Hmemo Hhov Ht Hc.
  eexists _, _. split; [reflexivity |].
  cbn [set_currentHoveredCellId state trace currentHoveredCellId].
  split; [done |]. split; [done |]. split; [done |].
  split; [by rewrite onPointerLeave_cases |].
  split; [rewrite onPointerMove_cases; cbn zeta;
          by rewrite Hc, Hmemo, bool_decide_eq_true_2 |].
  split; [apply onPointerMove_cases |].
  cbn zeta. cbn [set_currentHoveredCellId currentHoveredCellId clock].
  rewrite Hc, bool_decide_eq_false_2 by done. cbn [Js.truthy]. rewrite Ht.
  cbn [set_currentHoveredCellId currentHoveredCellId state trace Events.of_id].
  unfold after_hover. unfold after_emit, log, set_currentHoveredCellId. cbn [state clock].
  rewrite Hhov, bool_decide_eq_true_2 by done.
  cbn [trace state]. rewrite emitted_app, notified_app. cbn.
  by rewrite app_nil_r.
Qed.

Lemma reset_forgets_hover_witness :
  ∃ w0 w1,
    WebInput.resetInputState Examples.hovering = inr (tt, w0) ∧
    WebInput.onPointerMove (λ _, Some Examples.cellB) Examples.pointer_at_10_20 w0
      = inr (tt, w1) ∧
    notified (trace w1) = notified (trace Examples.hovering) ∧
    state w1 = state Examples.hovering.
Proof.
  destruct (reset_forgets_hover (λ _, Some Examples.cellB) Examples.pointer_at_10_20
              Examples.hovering Examples.cellB)
    as (w0 & w1 & H0 & _ & _ & _ & _ & _ & H1 & _ & Hn & Hs & _); try reflexivity.
  exists w0, w1. repeat split; assumption.
Defined.

End InputProperties.

(** ** What the grid draws *)

Section Drawing.
Import Runtime Transitions.

(** X17. The colours follow the two pointers.  In a store that
    [selectCell] has given non-empty ids only, the colour [HexGrid]
    computes for a cell is green exactly for the selected cell, blue
    exactly for the hovered cell when it is not the selected one, and
    white for every other cell: the fallback on the state of the record
    never decides, and no cell is orange.  So the fill of [HexCell] is
    built for the selected and the hovered cell and for no other. *)
Theorem colors_follow_pointers (w : World) (cellId : string) (boundary : list (R * R)) :
  Sessions.reachable_from_pointer w →
  let color :=
    HexGrid.getCellColor cellId (cells (state w))
      (selectedCellId (state w)) (hoveredCellId (state w)) in
  color = (if bool_decide (selectedCellId (state w) = Some cellId) then "#00ff88"
           else if bool_decide (hoveredCellId (state w) = Some cellId) then "#44aaff"
           else "#ffffff") ∧
  (is_Some (HexCell.fillGeometry color boundary)
   ↔ selectedCellId (state w) = Some cellId ∨ hoveredCellId (state w) = Some cellId).
Proof.
  intros Hreach color.
  destruct (from_pointer_selection_exclusive w Hreach) as [Hsel _].
  pose proof (from_pointer_reachable w Hreach) as Hr.
  pose proof (reachable_hover_exclusive w Hr) as Hhov.
  pose proof (reachable_plain w Hr) as Hplain.
  assert (Hcolor : color =
            (if bool_decide (selectedCellId (state w) = Some cellId) then "#00ff88"
             else if bool_decide (hoveredCellId (state w) = Some cellId) then "#44aaff"
             else "#ffffff")).
  { subst color. unfold HexGrid.getCellColor.
    case_bool_decide as E1.
    { by rewrite bool_decide_eq_true_2. }
    rewrite (bool_decide_eq_false_2 (selectedCellId (state w) = Some cellId)) by congruence.
    case_bool_decide as E2.
    { by rewrite bool_decide_eq_true_2. }
    rewrite (bool_decide_eq_false_2 (hoveredCellId (state w) = Some cellId)) by congruence.
    destruct (cells (state w) !! cellId) as [c |] eqn:Ec; [| done].
    destruct (Domain.state c) eqn:Est; try done.
    - destruct E2. symmetry. apply (Hhov cellId). unfold state_of. by rewrite Ec; cbn; f_equal.
    - destruct E1. symmetry. apply (Hsel cellId). unfold state_of. by rewrite Ec; cbn; f_equal.
    - destruct (Hplain cellId c Ec) as (_ & _ & _ & [H | [H | H]]); congruence. }
  split; [exact Hcolor |].
  unfold HexCell.fillGeometry. rewrite Hcolor.
  case_bool_decide; [cbn; split; [auto | eauto] |].
  case_bool_decide; [cbn; split; [auto | eauto] |].
  cbn. split; [by intros [? ?] | tauto].
Qed.

Lemma colors_follow_pointers_witness :
  HexGrid.getCellColor Examples.cellB (cells (state Examples.selected))
    (selectedCellId (state Examples.selected)) (hoveredCellId (state Examples.selected))
  = "#ffffff".
Proof.
  refine (proj1 (colors_follow_pointers Examples.selected Examples.cellB [] _)).
  apply (Sessions.from_pointer_env
           (commit (select Examples.cellA (clock Examples.fresh) (state Examples.fresh))
              Examples.fresh)).
  - apply (Sessions.from_pointer_call Examples.fresh (LandApi.CallSelect Examples.cellA)
             (LandApi.SelectResult true Examples.cellA
                (cells (select Examples.cellA (clock Examples.fresh) (state Examples.fresh))
                   !! Examples.cellA))).
    + apply Sessions.from_pointer_init. reflexivity.
    + reflexivity.
    + apply selectCell_run.
  - vm_compute. reflexivity.
Defined.

End Drawing.

(** ** The number of rings and the angular step *)

Section RingSteps.
Local Open Scope R_scope.

Lemma desired_radius_bounds :
  140 * 1e-6 < PI / 2 + HexGrid.degToRad 8 ∧ 0 < PI / 2 + HexGrid.degToRad 8.
Proof. pose proof PI_gt_3. unfold HexGrid.degToRad. split; lra. Qed.

Lemma Zceil_upper (x : R) (n : Z) : x <= IZR n → (Math.ceil x <= n)%Z.
Proof.
  intros Hx. unfold Math.ceil. pose proof (Zceil_bound x) as [Hlo _].
  apply Z.lt_succ_r. apply lt_IZR. rewrite succ_IZR. lra.
Qed.

Lemma Zceil_lower (x : R) (n : Z) : IZR n < x → (n < Math.ceil x)%Z.
Proof.
  intros Hx. unfold Math.ceil. pose proof (Zceil_bound x) as [_ Hhi].
  apply lt_IZR. lra.
Qed.

(** X18. The ring count against the angular step.  A larger step never
    asks for more rings.  With [desiredRadius] = 90° + 8°: when the
    step is at least [desiredRadius / 140], the rings times the step
    reach [desiredRadius], so the disk covers the hemisphere and its
    margin; when the step is smaller, the count is capped at
    [MAX_GRID_RINGS] = 140 and 140 steps stay short of
    [desiredRadius].  (Numbers are real numbers here.) *)
Theorem ring_count_coverage (ringStep : R) :
  let desiredRadius := PI / 2 + HexGrid.degToRad 8 in
  (∀ larger, ringStep <= larger → (HexGrid.rings larger <= HexGrid.rings ringStep)%Z) ∧
  (desiredRadius / 140 <= ringStep →
   desiredRadius <= IZR (HexGrid.rings ringStep) * ringStep) ∧
  (ringStep < desiredRadius / 140 →
   HexGrid.rings ringStep = HexGrid.MAX_GRID_RINGS ∧
   IZR (HexGrid.rings ringStep) * ringStep < desiredRadius).
Proof.
  intros D. destruct desired_radius_bounds as [HD HD0]. fold D in HD, HD0.
  split; [| split].
  - intros s' Hs. unfold HexGrid.rings. cbn zeta. fold D.
    assert (Hm : 0 < Rmax ringStep 1e-6) by (pose proof (Rmax_r ringStep 1e-6); lra).
    assert (Hm' : Rmax ringStep 1e-6 <= Rmax s' 1e-6) by (by apply Rle_max_compat_r).
    assert (Hq : D / Rmax s' 1e-6 <= D / Rmax ringStep 1e-6).
    { unfold Rdiv. apply Rmult_le_compat_l; [lra |]. apply Rinv_le_contravar; lra. }
    pose proof (Zceil_le _ _ Hq) as Hc. unfold Math.ceil, THREE.clamp. lia.
  - intros Hs. unfold HexGrid.rings. cbn zeta. fold D.
    assert (Hpos : 0 < ringStep) by lra.
    rewrite Rmax_left by lra.
    assert (Hq : D / ringStep <= 140).
    { apply (Rmult_le_reg_r ringStep); [lra |].
      replace (D / ringStep * ringStep) with D by (field; lra). lra. }
    pose proof (Zceil_upper _ 140 Hq) as Hup.
    pose proof (Zceil_bound (D / ringStep)) as [_ Hhi].
    assert (Hr : IZR (Math.ceil (D / ringStep))
                 <= IZR (THREE.clamp (Math.ceil (D / ringStep))
                           HexGrid.MIN_GRID_RINGS HexGrid.MAX_GRID_RINGS)).
    { apply IZR_le. unfold THREE.clamp, HexGrid.MIN_GRID_RINGS, HexGrid.MAX_GRID_RINGS. lia. }
    assert (HDs : D = D / ringStep * ringStep) by (field; lra).
    rewrite HDs at 1. apply Rmult_le_compat_r; [lra |]. unfold Math.ceil in *. lra.
  - intros Hs. unfold HexGrid.rings. cbn zeta. fold D.
    assert (Hm : 0 < Rmax ringStep 1e-6) by (pose proof (Rmax_r ringStep 1e-6); lra).
    assert (Hm' : Rmax ringStep 1e-6 < D / 140) by (apply Rmax_lub_lt; lra).
    assert (Hq : 140 < D / Rmax ringStep 1e-6).
    { apply (Rmult_lt_reg_r (Rmax ringStep 1e-6)); [lra |].
      replace (D / Rmax ringStep 1e-6 * Rmax ringStep 1e-6) with D by (field; lra). lra. }
    pose proof (Zceil_lower _ 140 Hq) as Hlow.
    assert (Hr : THREE.clamp (Math.ceil (D / Rmax ringStep 1e-6))
                   HexGrid.MIN_GRID_RINGS HexGrid.MAX_GRID_RINGS = 140%Z).
    { unfold THREE.clamp, HexGrid.MIN_GRID_RINGS, HexGrid.MAX_GRID_RINGS. lia. }
    rewrite Hr. split; [reflexivity | lra].
Qed.

Lemma degToRad_opp (deg : R) : HexGrid.degToRad (- deg) = - HexGrid.degToRad deg.
Proof. unfold HexGrid.degToRad. field. Qed.

Lemma angularDistanceRad_range (lat1 lng1 lat2 lng2 : R) :
  0 <= HexGrid.angularDistanceRad lat1 lng1 lat2 lng2 <= PI.
Proof. unfold HexGrid.angularDistanceRad. cbn zeta. apply acos_bound. Qed.

(** X19. The estimate of the angular step.  [angularDistanceRad] is an
    angle between 0 and [PI] and does not depend on the order of the
    two positions.  [estimateRingStepRad] is such an angle: the distance
    from the center cell to the first cell of [gridDisk(centerCell, 1)]
    that is not the center cell.  When the disk holds no other cell
    there is no estimate, and [hexCells] falls back to the step of one
    degree. *)
Theorem ring_step_estimate (h3 : H3.Library) (centerCell : string) :
  (∀ lat1 lng1 lat2 lng2,
     0 <= HexGrid.angularDistanceRad lat1 lng1 lat2 lng2 <= PI ∧
     HexGrid.angularDistanceRad lat2 lng2 lat1 lng1
     = HexGrid.angularDistanceRad lat1 lng1 lat2 lng2) ∧
  (∀ step, HexGrid.estimateRingStepRad h3 centerCell = Some step →
     0 <= step <= PI ∧
     ∃ neighborCell,
       neighborCell ∈ H3.gridDisk h3 centerCell 1 ∧ neighborCell ≠ centerCell ∧
       step = HexGrid.angularDistanceRad
                (fst (H3.cellToLatLng h3 centerCell)) (snd (H3.cellToLatLng h3 centerCell))
                (fst (H3.cellToLatLng h3 neighborCell)) (snd (H3.cellToLatLng h3 neighborCell))) ∧
  (Forall (λ c, c = centerCell) (H3.gridDisk h3 centerCell 1) →
   HexGrid.estimateRingStepRad h3 centerCell = None ∧
   HexGrid.hexCells h3 centerCell =
     map (λ cellId, (cellId, H3.cellToBoundary h3 cellId))
         (H3.gridDisk h3 centerCell (HexGrid.rings (HexGrid.degToRad 1)))).
Proof.
  split; [| split].
  - intros lat1 lng1 lat2 lng2. split; [apply angularDistanceRad_range |].
    unfold HexGrid.angularDistanceRad. cbn zeta. f_equal. f_equal. f_equal.
    replace (lng1 - lng2) with (- (lng2 - lng1)) by ring.
    rewrite degToRad_opp, cos_neg. ring.
  - intros step. unfold HexGrid.estimateRingStepRad.
    destruct (H3.cellToLatLng h3 centerCell) as [centerLat centerLng] eqn:Ec.
    destruct (find _ _) as [n |] eqn:Ef; [| discriminate].
    apply find_some in Ef as [Hin Hne].
    destruct (Js.truthy_str n); [| discriminate].
    destruct (H3.cellToLatLng h3 n) as [nLat nLng] eqn:En.
    intros [= <-]. split; [apply angularDistanceRad_range |].
    exists n. rewrite En. cbn [fst snd]. split; [by apply list_elem_of_In |]. split; [| done].
    intros ->. rewrite String.eqb_refl in Hne. discriminate.
  - intros Hall.
    assert (Hnone : HexGrid.estimateRingStepRad h3 centerCell = None).
    { unfold HexGrid.estimateRingStepRad.
      destruct (H3.cellToLatLng h3 centerCell) as [centerLat centerLng].
      destruct (find _ _) as [n |] eqn:Ef; [| done].
      apply find_some in Ef as [Hin Hne].
      rewrite Forall_forall in Hall. rewrite (Hall n) in Hne by (by apply list_elem_of_In).
      rewrite String.eqb_refl in Hne. discriminate. }
    split; [exact Hnone |]. unfold HexGrid.hexCells. cbn zeta. by rewrite Hnone.
Qed.

End RingSteps.

(** ** Points, directions and coordinates *)

Section Sphere.
Local Open Scope R_scope.

Lemma length_nonneg (v : THREE.Vector3) : 0 <= THREE.length v.
Proof. apply sqrt_pos. Qed.

Lemma length_zero (v : THREE.Vector3) :
  THREE.length v = 0 → v = THREE.mkVector3 0 0 0.
Proof.
  intros H. destruct v as [a b c]. unfold THREE.length in H. cbn in H.
  apply sqrt_eq_0 in H; [| nra].
  assert (a = 0) by nra. assert (b = 0) by nra. assert (c = 0) by nra. by subst.
Qed.

Lemma length_multiplyScalar (v : THREE.Vector3) (k : R) :
  0 <= k → THREE.length (THREE.multiplyScalar v k) = k * THREE.length v.
Proof.
  intros Hk. unfold THREE.length, THREE.multiplyScalar. cbn.
  replace (THREE.x v * k * (THREE.x v * k) + THREE.y v * k * (THREE.y v * k)
           + THREE.z v * k * (THREE.z v * k))
    with (k * k * (THREE.x v * THREE.x v + THREE.y v * THREE.y v + THREE.z v * THREE.z v))
    by ring.
  rewrite sqrt_mult by nra. by rewrite sqrt_square.
Qed.

Lemma normalize_origin : THREE.normalize (THREE.mkVector3 0 0 0) = THREE.mkVector3 0 0 0.
Proof.
  unfold THREE.normalize, THREE.divideScalar, THREE.multiplyScalar. cbn. f_equal; ring.
Qed.

Lemma normalize_scaled (v : THREE.Vector3) (k : R) :
  0 < k → THREE.normalize (THREE.multiplyScalar v k) = THREE.normalize v.
Proof.
  intros Hk. destruct (Req_dec_T (THREE.length v) 0) as [H0 | Hn].
  - rewrite (length_zero v H0).
    replace (THREE.multiplyScalar (THREE.mkVector3 0 0 0) k) with (THREE.mkVector3 0 0 0);
      [done |].
    unfold THREE.multiplyScalar. cbn. f_equal; ring.
  - unfold THREE.normalize. rewrite length_multiplyScalar by lra.
    destruct (Req_dec_T (THREE.length v) 0) as [H | _]; [done |].
    destruct (Req_dec_T (k * THREE.length v) 0) as [H | _].
    { apply Rmult_integral in H. lra. }
    unfold THREE.divideScalar, THREE.multiplyScalar. cbn. f_equal; field; split; lra.
Qed.

Lemma length_normalize (v : THREE.Vector3) :
  THREE.length v ≠ 0 → THREE.length (THREE.normalize v) = 1.
Proof.
  intros Hn. pose proof (length_nonneg v) as Hp.
  unfold THREE.normalize. destruct (Req_dec_T (THREE.length v) 0) as [H | _]; [done |].
  unfold THREE.divideScalar. rewrite length_multiplyScalar.
  - field. lra.
  - apply Rlt_le. unfold Rdiv. rewrite Rmult_1_l. apply Rinv_0_lt_compat. lra.
Qed.

Lemma normalize_normalize (v : THREE.Vector3) :
  THREE.normalize (THREE.normalize v) = THREE.normalize v.
Proof.
  destruct (Req_dec_T (THREE.length v) 0) as [H0 | Hn].
  - rewrite (length_zero v H0). by rewrite !normalize_origin.
  - pose proof (length_normalize v Hn) as H1.
    unfold THREE.normalize at 1. rewrite H1.
    destruct (Req_dec_T 1 0) as [H | _]; [lra |].
    unfold THREE.divideScalar, THREE.multiplyScalar.
    destruct (THREE.normalize v) as [a b c]. cbn. f_equal; field.
Qed.

Lemma unit_normalize (v : THREE.Vector3) :
  THREE.length v ≠ 0 →
  THREE.x (THREE.normalize v) * THREE.x (THREE.normalize v)
  + THREE.y (THREE.normalize v) * THREE.y (THREE.normalize v)
  + THREE.z (THREE.normalize v) * THREE.z (THREE.normalize v) = 1.
Proof.
  intros Hn. pose proof (length_normalize v Hn) as H1. unfold THREE.length in H1.
  set (S := _ + _ + _) in *.
  assert (HS : 0 <= S) by (subst S; nra).
  rewrite <- (sqrt_sqrt S HS), H1. ring.
Qed.

Lemma vector3ToLatLng_scaled (v : THREE.Vector3) (k : R) :
  0 < k → HexGrid.vector3ToLatLng (THREE.multiplyScalar v k) = HexGrid.vector3ToLatLng v.
Proof. intros Hk. unfold HexGrid.vector3ToLatLng. by rewrite normalize_scaled. Qed.

Lemma vector3ToLatLng_normalize (v : THREE.Vector3) :
  HexGrid.vector3ToLatLng (THREE.normalize v) = HexGrid.vector3ToLatLng v.
Proof. unfold HexGrid.vector3ToLatLng. by rewrite normalize_normalize. Qed.

Lemma onFrame_moving (h3 : H3.Library) (p : THREE.Vector3) (v : string) :
  THREE.length p ≠ 0 →
  HexCell.onFrame h3 p v =
  H3.latLngToCell h3 (HexGrid.lat (HexGrid.vector3ToLatLng p))
    (HexGrid.lng (HexGrid.vector3ToLatLng p)) H3.VISIBLE_GRID_RESOLUTION.
Proof.
  intros Hn. pose proof (length_nonneg p) as Hp. unfold HexCell.onFrame. cbn zeta.
  destruct (Rle_dec (THREE.length p) 0) as [H | _]; [lra |].
  rewrite vector3ToLatLng_scaled by (unfold HexGrid.GLOBE_RADIUS; lra).
  rewrite vector3ToLatLng_normalize.
  case_bool_decide as E; [done | congruence].
Qed.

(** X20. The grid is centered under the camera.  On every frame with the
    camera away from the origin, [viewCenterCellId] becomes the cell
    that a click on the point of the globe facing the camera would
    pick: the cell [getCellIdFromPoint] gives for the position of the
    camera.  It depends on the direction of the camera only, not on its
    distance, nor on the previous center; a camera at the origin leaves
    the center as it is.  (Numbers are real numbers here.) *)
Theorem view_center_follows_camera
    (h3 : H3.Library) (cameraPosition : THREE.Vector3) (viewCenterCellId : string) :
  (THREE.length cameraPosition = 0 →
   HexCell.onFrame h3 cameraPosition viewCenterCellId = viewCenterCellId) ∧
  (THREE.length cameraPosition ≠ 0 →
   Some (HexCell.onFrame h3 cameraPosition viewCenterCellId)
     = HexGrid.getCellIdFromPoint h3 cameraPosition ∧
   (∀ distance, 0 < distance →
      HexCell.onFrame h3 (THREE.multiplyScalar cameraPosition distance) viewCenterCellId
      = HexCell.onFrame h3 cameraPosition viewCenterCellId) ∧
   (∀ previous,
      HexCell.onFrame h3 cameraPosition previous
      = HexCell.onFrame h3 cameraPosition viewCenterCellId)).
Proof.
  split.
  - intros H0. unfold HexCell.onFrame. cbn zeta.
    destruct (Rle_dec (THREE.length cameraPosition) 0) as [_ | H]; [done | lra].
  - intros Hn. split; [| split].
    + by rewrite onFrame_moving.
    + intros k Hk. pose proof (length_nonneg cameraPosition) as Hp.
      rewrite !onFrame_moving; try done.
      * by rewrite vector3ToLatLng_scaled.
      * rewrite length_multiplyScalar by lra. nra.
    + intros previous. by rewrite !onFrame_moving.
Qed.

(** X21. Every point, the origin included, is given a latitude in
    [[-90, 90]] and a longitude in [[-180, 180)]: [getCellIdFromPoint]
    never hands coordinates out of range to [latLngToCell].  (Numbers
    are real numbers here.) *)
Theorem picked_coordinates_in_range (point : THREE.Vector3) :
  -90 <= HexGrid.lat (HexGrid.vector3ToLatLng point) <= 90 ∧
  -180 <= HexGrid.lng (HexGrid.vector3ToLatLng point) < 180.
Proof.
  split; [| apply vector3ToLatLng_lng_range].
  pose proof PI_RGT_0 as Hpi. unfold HexGrid.vector3ToLatLng. cbn [HexGrid.lat].
  set (a := acos _). pose proof (acos_bound (THREE.y (THREE.normalize point))) as Ha.
  fold a in Ha.
  assert (Ht : a * (180 / PI) * PI = 180 * a) by (field; lra).
  assert (Hr : 0 <= a * (180 / PI) <= 180) by (split; nra).
  lra.
Qed.

(** [Math.atan2] gives the angle of the point [(x, y)]. *)
Lemma atan2_cartesian (y x : R) :
  sqrt (x * x + y * y) * cos (Math.atan2 y x) = x ∧
  sqrt (x * x + y * y) * sin (Math.atan2 y x) = y.
Proof.
  pose proof PI_RGT_0 as Hpi.
  assert (Hroot : ∀ t, 0 < sqrt (1 + t²)).
  { intros t. apply sqrt_lt_R0. unfold Rsqr. nra. }
  assert (Hscale : ∀ s, 0 < s → x * x + y * y = s * s * (1 + (y / x)²) →
                        sqrt (x * x + y * y) = s * sqrt (1 + (y / x)²)).
  { intros s Hs ->. rewrite sqrt_mult by (unfold Rsqr; nra). by rewrite sqrt_square by lra. }
  unfold Math.atan2.
  destruct (Rlt_dec 0 x) as [Hx | Hx].
  - rewrite (Hscale x) by (try done; unfold Rsqr; field; lra).
    rewrite cos_atan, sin_atan. pose proof (Hroot (y / x)).
    split; field; repeat split; lra.
  - destruct (Rlt_dec x 0) as [Hx' | Hx'].
    + rewrite (Hscale (- x)) by (try lra; unfold Rsqr; field; lra).
      pose proof (Hroot (y / x)).
      destruct (Rle_dec 0 y) as [Hy | Hy].
      * rewrite neg_cos, neg_sin, cos_atan, sin_atan. split; field; repeat split; lra.
      * rewrite cos_minus, sin_minus, cos_PI, sin_PI, cos_atan, sin_atan.
        split; field; repeat split; lra.
    + assert (x = 0) as -> by lra.
      destruct (Rlt_dec 0 y) as [Hy | Hy].
      * rewrite cos_PI2, sin_PI2.
        replace (0 * 0 + y * y) with (y * y) by ring. rewrite sqrt_square by lra. lra.
      * destruct (Rlt_dec y 0) as [Hy' | Hy'].
        -- rewrite cos_neg, sin_neg, cos_PI2, sin_PI2.
           replace (0 * 0 + y * y) with (- y * - y) by ring. rewrite sqrt_square by lra. lra.
        -- assert (y = 0) as -> by lra.
           replace (0 * 0 + 0 * 0) with 0 by ring. rewrite sqrt_0. lra.
Qed.

Lemma latLngToVector3_vector3ToLatLng (point : THREE.Vector3) (radius : R) :
  THREE.length point ≠ 0 →
  HexGrid.latLngToVector3
    (HexGrid.lat (HexGrid.vector3ToLatLng point))
    (HexGrid.lng (HexGrid.vector3ToLatLng point)) radius
  = THREE.multiplyScalar (THREE.normalize point) radius.
Proof.
  intros Hn. pose proof PI_RGT_0 as Hpi.
  pose proof (unit_normalize point Hn) as Hunit.
  unfold HexGrid.vector3ToLatLng. cbn [HexGrid.lat HexGrid.lng].
  destruct (THREE.normalize point) as [nx ny nz]. cbn [THREE.x THREE.y THREE.z] in *.
  assert (Hny : -1 <= ny <= 1) by (split; nra).
  unfold HexGrid.latLngToVector3, THREE.multiplyScalar. cbn [THREE.x THREE.y THREE.z].
  set (a := Math.atan2 nz (- nx)).
  replace ((90 - (90 - acos ny * (180 / PI))) * (PI / 180)) with (acos ny) by (field; lra).
  rewrite cos_acos, sin_acos by done.
  assert (Hrho : sqrt (1 - ny²) = sqrt (- nx * - nx + nz * nz)).
  { f_equal. unfold Rsqr. lra. }
  rewrite Hrho.
  destruct (atan2_cartesian nz (- nx)) as [Hcos Hsin]. fold a in Hcos, Hsin.
  assert (Htheta : ∀ l, l = a * (180 / PI) - 180 ∨ l = a * (180 / PI) - 180 + 360 →
            cos ((l + 180) * (PI / 180)) = cos a ∧ sin ((l + 180) * (PI / 180)) = sin a).
  { intros l [-> | ->].
    - replace ((a * (180 / PI) - 180 + 180) * (PI / 180)) with a by (field; lra). done.
    - replace ((a * (180 / PI) - 180 + 360 + 180) * (PI / 180)) with (a + PI + PI)
        by (field; lra).
      rewrite !neg_cos, !neg_sin. split; ring. }
  destruct (Htheta (if Rlt_dec (a * (180 / PI) - 180) (-180)
                    then a * (180 / PI) - 180 + 360 else a * (180 / PI) - 180))
    as [-> ->].
  { destruct (Rlt_dec _ _); auto. }
  f_equal.
  - replace (- radius * sqrt (- nx * - nx + nz * nz) * cos a)
      with (- radius * (sqrt (- nx * - nx + nz * nz) * cos a)) by ring.
    rewrite Hcos. ring.
  - ring.
  - replace (radius * sqrt (- nx * - nx + nz * nz) * sin a)
      with (radius * (sqrt (- nx * - nx + nz * nz) * sin a)) by ring.
    rewrite Hsin. ring.
Qed.

(** X22. Over the real numbers the two conversions are inverse to each
    other.  A position with a latitude strictly between -90 and 90 and a
    longitude in [[-180, 180)] is recovered from the point it is
    placed at, whatever the radius.  And every point other than the
    origin is recovered from its coordinates up to its distance:
    placing them at a radius gives the point of that radius in the same
    direction. *)
Theorem conversions_are_inverse :
  (∀ lat lng radius,
     -90 < lat < 90 → -180 <= lng < 180 → 0 < radius →
     HexGrid.vector3ToLatLng (HexGrid.latLngToVector3 lat lng radius)
     = HexGrid.mkLatLng lat lng) ∧
  (∀ point radius,
     THREE.length point ≠ 0 →
     HexGrid.latLngToVector3
       (HexGrid.lat (HexGrid.vector3ToLatLng point))
       (HexGrid.lng (HexGrid.vector3ToLatLng point)) radius
     = THREE.multiplyScalar (THREE.normalize point) radius) ∧
  (∀ point,
     THREE.length point = 1 →
     HexGrid.latLngToVector3
       (HexGrid.lat (HexGrid.vector3ToLatLng point))
       (HexGrid.lng (HexGrid.vector3ToLatLng point)) HexGrid.GLOBE_RADIUS
     = point).
Proof.
  split; [exact vector3ToLatLng_latLngToVector3 |].
  split; [exact latLngToVector3_vector3ToLatLng |].
  intros point H1. rewrite latLngToVector3_vector3ToLatLng by lra.
  unfold THREE.normalize. rewrite H1. destruct (Req_dec_T 1 0) as [H | _]; [lra |].
  unfold THREE.divideScalar, THREE.multiplyScalar, HexGrid.GLOBE_RADIUS.
  destruct point as [a b c]. cbn. f_equal; field.
Qed.

End Sphere.

(** ** The geometry of a cell and the layers above the globe *)

Section Cells.
Local Open Scope R_scope.

Lemma latLngToVector3_scaled (lat lng radius k : R) :
  HexGrid.latLngToVector3 lat lng (radius * k)
  = THREE.multiplyScalar (HexGrid.latLngToVector3 lat lng radius) k.
Proof.
  unfold HexGrid.latLngToVector3, THREE.multiplyScalar. cbn. f_equal; ring.
Qed.

(** X23. The layers above the globe.  The vertices of an outline lie at
    distance 1.004 from the center of the globe and those of a fill at
    1.005, each fill vertex straight above the outline vertex of the
    same corner; both lie between the globe, of radius 1, and the
    picking sphere, of radius 1.006.  A point of the picking sphere
    resolves to the same cell as the point of the globe below it, and
    as every other point in that direction.  (Numbers are real numbers
    here.) *)
Theorem layers_are_ordered (h3 : H3.Library) (boundary : list (R * R)) :
  Forall (λ v, THREE.length v = 1.004) (HexCell.vertices boundary HexGrid.OUTLINE_RADIUS_MULT) ∧
  Forall (λ v, THREE.length v = 1.005) (HexCell.vertices boundary HexGrid.FILL_RADIUS_MULT) ∧
  Forall2 (λ outline fill, fill = THREE.multiplyScalar outline (1.005 / 1.004))
    (HexCell.vertices boundary HexGrid.OUTLINE_RADIUS_MULT)
    (HexCell.vertices boundary HexGrid.FILL_RADIUS_MULT) ∧
  HexGrid.GLOBE_RADIUS < 1.004 < 1.005 ∧
  1.005 < HexGrid.GLOBE_RADIUS * HexGrid.INTERACTION_RADIUS_MULT ∧
  ∀ point scale, 0 < scale →
    HexGrid.getCellIdFromPoint h3 (THREE.multiplyScalar point scale)
    = HexGrid.getCellIdFromPoint h3 point.
Proof.
  unfold HexCell.vertices, HexGrid.GLOBE_RADIUS, HexGrid.OUTLINE_RADIUS_MULT,
    HexGrid.FILL_RADIUS_MULT, HexGrid.INTERACTION_RADIUS_MULT.
  split; [| split; [| split; [| split; [lra | split; [lra |]]]]].
  - apply Forall_forall. intros v [p [-> _]]%list_elem_of_fmap.
    rewrite length_latLngToVector3 by lra. lra.
  - apply Forall_forall. intros v [p [-> _]]%list_elem_of_fmap.
    rewrite length_latLngToVector3 by lra. lra.
  - apply Forall2_fmap, Forall_Forall2_diag, Forall_forall. intros p _.
    rewrite <- latLngToVector3_scaled. f_equal; lra.
  - intros point scale Hs. unfold HexGrid.getCellIdFromPoint. cbn zeta.
    by rewrite vector3ToLatLng_scaled.
Qed.

Lemma flat_map_chunk {A : Type} (f : nat → list A) (m : nat) (start n i : nat) :
  (∀ j, List.length (f j) = m) → (i < n)%nat →
  take m (drop (m * i) (flat_map f (seq start n))) = f (start + i)%nat.
Proof.
  intros Hm. revert start i. induction n as [| n IH]; intros start i Hi; [lia |].
  cbn [seq flat_map]. destruct i as [| i].
  - rewrite Nat.mul_0_r, Nat.add_0_r, drop_0.
    rewrite take_app_length'; [done | symmetry; apply Hm].
  - replace (m * S i)%nat with (List.length (f start) + m * i)%nat by (rewrite Hm; lia).
    rewrite drop_app_add'; [| done]. rewrite IH by lia. f_equal. lia.
Qed.

Lemma length_flat_map_const {A : Type} (f : nat → list A) (m : nat) (l : list nat) :
  (∀ j, List.length (f j) = m) → List.length (flat_map f l) = (m * List.length l)%nat.
Proof.
  intros Hm. induction l as [| a l IH]; cbn; [lia |].
  rewrite length_app, IH, Hm. lia.
Qed.

(** X24. What [HexCell] builds from a boundary of [n] corners.  The
    outline has [n + 1] points: the corners in order and the first
    corner again, which closes the loop (for an empty boundary the one
    point is [undefined]).  The fill is built only for a colour other
    than white; it then holds [9 n] numbers, [n] triangles, the [i]-th
    made of the center, corner [i] and corner [i + 1], with the last
    triangle coming back to corner 0, so every edge of the boundary is
    the base of exactly one triangle. *)
Theorem hexcell_geometry (color : string) (boundary : list (R * R)) :
  let n := List.length boundary in
  let outline := HexCell.vertices boundary HexGrid.OUTLINE_RADIUS_MULT in
  let corners := HexCell.vertices boundary HexGrid.FILL_RADIUS_MULT in
  List.length (HexCell.outlinePoints boundary) = S n ∧
  (∀ i, (i < n)%nat → HexCell.outlinePoints boundary !! i = Some (outline !! i)) ∧
  HexCell.outlinePoints boundary !! n = Some (outline !! 0%nat) ∧
  (HexCell.fillGeometry color boundary = None ↔ color = "#ffffff") ∧
  (∀ positions, HexCell.fillGeometry color boundary = Some positions →
     List.length positions = (9 * n)%nat ∧
     ∀ i, (i < n)%nat →
       take 9 (drop (9 * i) positions) =
       HexCell.coordinates (HexCell.center corners)
       ++ HexCell.coordinates (nth i corners (THREE.mkVector3 0 0 0))
       ++ HexCell.coordinates (nth ((i + 1) mod n) corners (THREE.mkVector3 0 0 0))).
Proof.
  intros n outline corners.
  assert (Ho : List.length outline = n) by apply length_map.
  assert (Hc : List.length corners = n) by apply length_map.
  unfold HexCell.outlinePoints. cbn zeta. fold outline.
  split; [| split; [| split; [| split]]].
  - rewrite length_app, length_fmap, Ho. cbn. lia.
  - intros i Hi. rewrite lookup_app_l by (rewrite length_fmap, Ho; lia).
    rewrite list_lookup_fmap.
    destruct (lookup_lt_is_Some_2 outline i) as [v Hv]; [lia |].
    by rewrite Hv.
  - rewrite lookup_app_r by (rewrite length_fmap, Ho; lia).
    rewrite length_fmap, Ho, Nat.sub_diag. done.
  - unfold HexCell.fillGeometry, HexGrid.isHighlighted.
    destruct (String.eqb color "#ffffff") eqn:E; cbn.
    + apply String.eqb_eq in E. done.
    + apply String.eqb_neq in E. split; [discriminate | done].
  - intros positions. unfold HexCell.fillGeometry.
    destruct (HexGrid.isHighlighted color); [| discriminate].
    intros [= <-]. unfold HexCell.positions. cbn zeta. fold corners. rewrite Hc.
    split.
    + rewrite (length_flat_map_const _ 9) by done. by rewrite length_seq.
    + intros i Hi. by rewrite (flat_map_chunk _ 9 0 n i).
Qed.

End Cells.

(** ** The speeds of the controls *)

Section Controls.
Local Open Scope R_scope.

Lemma damping_range (distance : R) : 0 <= SceneControls.damping distance <= 1.
Proof.
  unfold SceneControls.damping, SceneControls.clamp.
  set (q := _ / _). unfold Rmax, Rmin.
  repeat (destruct (Rle_dec _ _)); lra.
Qed.

Lemma damping_monotone (distance farther : R) :
  distance <= farther → SceneControls.damping distance <= SceneControls.damping farther.
Proof.
  intros Hd. unfold SceneControls.damping, SceneControls.clamp,
    SceneControls.MIN_DISTANCE, SceneControls.MAX_DISTANCE.
  assert (Hq : (distance - 1.2) / (3 - 1.2) <= (farther - 1.2) / (3 - 1.2)) by lra.
  set (q := (distance - 1.2) / (3 - 1.2)) in *.
  set (q' := (farther - 1.2) / (3 - 1.2)) in *.
  unfold Rmax, Rmin. repeat (destruct (Rle_dec _ _)); lra.
Qed.

(** X25. The speeds [SceneControls] sets on every frame.  Whatever the
    distance of the camera, the rotate speed lies between 0.15 and 0.5,
    the zoom speed between 0.25 and 0.5 and the pan speed between 0.05
    and 0.5.  None of them decreases when the camera moves away; at
    [MIN_DISTANCE] and closer they are at their minimum, at
    [MAX_DISTANCE] and farther they are 0.5.  (Numbers are real numbers
    here.) *)
Theorem control_speeds (distance : R) :
  (0.15 <= SceneControls.rotateSpeed distance <= 0.5 ∧
   0.25 <= SceneControls.zoomSpeed distance <= 0.5 ∧
   0.05 <= SceneControls.panSpeed distance <= 0.5) ∧
  (∀ farther, distance <= farther →
     SceneControls.rotateSpeed distance <= SceneControls.rotateSpeed farther ∧
     SceneControls.zoomSpeed distance <= SceneControls.zoomSpeed farther ∧
     SceneControls.panSpeed distance <= SceneControls.panSpeed farther) ∧
  (distance <= SceneControls.MIN_DISTANCE →
     SceneControls.rotateSpeed distance = 0.15 ∧
     SceneControls.zoomSpeed distance = 0.25 ∧
     SceneControls.panSpeed distance = 0.05) ∧
  (SceneControls.MAX_DISTANCE <= distance →
     SceneControls.rotateSpeed distance = 0.5 ∧
     SceneControls.zoomSpeed distance = 0.5 ∧
     SceneControls.panSpeed distance = 0.5).
Proof.
  pose proof (damping_range distance) as Ht.
  unfold SceneControls.rotateSpeed, SceneControls.zoomSpeed, SceneControls.panSpeed,
    SceneControls.lerp.
  split; [lra |]. split; [| split].
  - intros farther Hd. pose proof (damping_monotone _ _ Hd). lra.
  - intros Hd.
    assert (H0 : SceneControls.damping distance = 0).
    { revert Hd. unfold SceneControls.damping, SceneControls.clamp,
        SceneControls.MIN_DISTANCE, SceneControls.MAX_DISTANCE. intros Hd.
      assert (Hq : (distance - 1.2) / (3 - 1.2) <= 0) by lra.
      set (q := (distance - 1.2) / (3 - 1.2)) in *.
      unfold Rmax, Rmin. repeat (destruct (Rle_dec _ _)); lra. }
    rewrite H0. lra.
  - intros Hd.
    assert (H1 : SceneControls.damping distance = 1).
    { revert Hd. unfold SceneControls.damping, SceneControls.clamp,
        SceneControls.MIN_DISTANCE, SceneControls.MAX_DISTANCE. intros Hd.
      assert (Hq : 1 <= (distance - 1.2) / (3 - 1.2)) by lra.
      set (q := (distance - 1.2) / (3 - 1.2)) in *.
      unfold Rmax, Rmin. repeat (destruct (Rle_dec _ _)); lra. }
    rewrite H1. lra.
Qed.

End Controls.

(** ** The round trip on binary64 numbers *)

Section Doubles.
Import PrimFloat.
Local Open Scope float_scope.

(** At the radius of the globe the position (10, 20) comes back
    exactly. *)
Lemma round_trip_at_10_20 :
  Double.valid 10 20 1 = true ∧
  Double.vector3ToLatLng Double.stand_in (Double.latLngToVector3 Double.stand_in 10 20 1)
  = Double.mkLatLng 10 20 ∧
  Claims.round_trip_within_tolerance Double.stand_in 10 20 1.
Proof. split; [| split; [| repeat split]]; vm_compute; reflexivity. Qed.

(** With the radius 1e200 the squares in [length()] overflow, the length
    is [Infinity], every coordinate of the normalized point is a zero,
    and the position comes back as (0, 0). *)
Lemma round_trip_huge_radius :
  Double.length (Double.latLngToVector3 Double.stand_in 10 20 Double.huge_radius) = infinity ∧
  Double.vector3ToLatLng Double.stand_in
    (Double.latLngToVector3 Double.stand_in 10 20 Double.huge_radius)
  = Double.mkLatLng 0 0.
Proof. split; vm_compute; reflexivity. Qed.

(** At radius 1 and latitude 89.99999890015384 the second coordinate of
    the normalized point rounds to 1, [Math.acos] gives 0 and the
    latitude comes back as 90: off by 1.0998e-6. *)
Lemma round_trip_near_pole :
  Double.y (Double.normalize
              (Double.latLngToVector3 Double.stand_in Double.latitude_near_pole 20 1)) = 1 ∧
  Double.vector3ToLatLng Double.stand_in
    (Double.latLngToVector3 Double.stand_in Double.latitude_near_pole 20 1)
  = Double.mkLatLng 90 20 ∧
  (Double.tolerance <? 90 - Double.latitude_near_pole) = true.
Proof. split; [| split]; vm_compute; reflexivity. Qed.


End Doubles.
